(** * Dir2Txt (dir2txt.go, v1.7.0): traversal and filtering engine

    A shallow embedding of the traversal-and-filtering core of
    [src/dir2txt.go] (the last of the three iterations held in that file:
    [walkFollowSymlinks], [normalizeFilters], [processDirs], [processFile],
    [checkFilter], [isJunk], [isAsset], [isBinary], [convertToUTF8],
    [writeTree]) together with the older [isFiltered], and the properties
    that the specification states about them.

    Go strings and byte slices are byte sequences; both are modelled by
    [string] (a list of 8-bit [ascii]).  The file system, the working
    directory and the GBK decoder of golang.org/x/text are inputs of the
    program: they are the fields of the record [OS].  The functions of the
    Go standard library that the program calls are modelled in the modules
    [utf8], [unicode], [strings], [path] and [filepath], for the Unix build
    ([filepath.Separator] is the slash).

    The first part of the file holds every definition, the second part the
    lemmas and theorems. *)

From stdpp Require Import base option list strings gmap pretty.
From Stdlib Require Import ZArith NArith Ascii Lia.

Local Open Scope string_scope.
Local Open Scope list_scope.
Local Open Scope bool_scope.

(* ===================================================================== *)
(** * Part I: definitions *)
(* ===================================================================== *)

(** Go [error] values.  [SkipDir] is [filepath.SkipDir], [ErrBadPattern] is
    [path.ErrBadPattern]; every other error is an opaque message. *)
Inductive error : Type :=
| SkipDir
| ErrBadPattern
| ErrMsg (msg : string).

(** A Go result [(T, error)]. *)
Inductive result (A : Type) : Type :=
| Ok (a : A)
| Err (e : error).
Arguments Ok {A} a.
Arguments Err {A} e.

Definition isSkipDir (e : error) : bool :=
  match e with SkipDir => true | _ => false end.

Definition byte (c : ascii) : N := N_of_ascii c.

(** ** Package [unicode/utf8] *)
Module utf8.

Definition RuneError : N := 0xFFFD.
Definition RuneSelf : N := 0x80.

(** The table [first]: information about the first byte of an encoding. *)
Definition first (b : N) : N :=
  if (b <? 0x80)%N then 0xF0
  else if (b <? 0xC2)%N then 0xF1
  else if (b <? 0xE0)%N then 0x02
  else if (b =? 0xE0)%N then 0x13
  else if (b <? 0xED)%N then 0x03
  else if (b =? 0xED)%N then 0x23
  else if (b <? 0xF0)%N then 0x03
  else if (b =? 0xF0)%N then 0x34
  else if (b <? 0xF4)%N then 0x04
  else if (b =? 0xF4)%N then 0x44
  else 0xF1.

(** The table [acceptRanges]: bounds of the second byte. *)
Definition acceptRanges (i : N) : N * N :=
  match i with
  | 0 => (0x80, 0xBF)
  | 1 => (0xA0, 0xBF)
  | 2 => (0x80, 0x9F)
  | 3 => (0x90, 0xBF)
  | 4 => (0x80, 0x8F)
  | _ => (0, 0)
  end%N.

Definition cont (b : N) : bool := (0x80 <=? b)%N && (b <=? 0xBF)%N.

(** [utf8.DecodeRuneInString]: the rune and its width in bytes. *)
Definition DecodeRuneInString (s : string) : N * nat :=
  match s with
  | EmptyString => (RuneError, 0%nat)
  | String c0 r0 =>
      let s0 := byte c0 in
      let x := first s0 in
      if (0xF0 <=? x)%N then
        ((if N.testbit x 0 then RuneError else s0), 1%nat)
      else
        let sz := N.to_nat (N.land x 7) in
        let '(lo, hi) := acceptRanges (N.shiftr x 4) in
        if (String.length s <? sz)%nat then (RuneError, 1%nat)
        else
          match r0 with
          | EmptyString => (RuneError, 1%nat)
          | String c1 r1 =>
              let s1 := byte c1 in
              if (s1 <? lo)%N || (hi <? s1)%N then (RuneError, 1%nat)
              else if (sz <=? 2)%nat then
                (N.lor (N.shiftl (N.land s0 0x1F) 6) (N.land s1 0x3F), 2%nat)
              else
                match r1 with
                | EmptyString => (RuneError, 1%nat)
                | String c2 r2 =>
                    let s2 := byte c2 in
                    if negb (cont s2) then (RuneError, 1%nat)
                    else if (sz <=? 3)%nat then
                      (N.lor (N.lor (N.shiftl (N.land s0 0x0F) 12)
                                    (N.shiftl (N.land s1 0x3F) 6))
                             (N.land s2 0x3F), 3%nat)
                    else
                      match r2 with
                      | EmptyString => (RuneError, 1%nat)
                      | String c3 _ =>
                          let s3 := byte c3 in
                          if negb (cont s3) then (RuneError, 1%nat)
                          else
                            (N.lor (N.lor (N.lor
                               (N.shiftl (N.land s0 0x07) 18)
                               (N.shiftl (N.land s1 0x3F) 12))
                               (N.shiftl (N.land s2 0x3F) 6))
                               (N.land s3 0x3F), 4%nat)
                      end
                end
          end
  end.

(** [utf8.Valid]: the bytes are a sequence of well-formed encodings. *)
Fixpoint Valid (p : string) : bool :=
  match p with
  | EmptyString => true
  | String c0 r0 =>
      let pi := byte c0 in
      if (pi <? RuneSelf)%N then Valid r0
      else
        let x := first pi in
        if (x =? 0xF1)%N then false
        else
          let size := N.to_nat (N.land x 7) in
          let '(lo, hi) := acceptRanges (N.shiftr x 4) in
          match r0 with
          | EmptyString => false
          | String c1 r1 =>
              if (byte c1 <? lo)%N || (hi <? byte c1)%N then false
              else if (size =? 2)%nat then Valid r1
              else
                match r1 with
                | EmptyString => false
                | String c2 r2 =>
                    if negb (cont (byte c2)) then false
                    else if (size =? 3)%nat then Valid r2
                    else
                      match r2 with
                      | EmptyString => false
                      | String c3 r3 =>
                          if negb (cont (byte c3)) then false else Valid r3
                      end
                end
          end
  end.

Definition MaxRune : N := 0x10FFFF.
Definition surrogateMin : N := 0xD800.
Definition surrogateMax : N := 0xDFFF.

(** [utf8.AppendRune(nil, r)]: the encoding of a rune; a rune out of range
    and a surrogate half are written as [RuneError]. *)
Definition EncodeRune (r : N) : string :=
  let b (n : N) := String (ascii_of_N n) EmptyString in
  if (r <=? 0x7F)%N then b r
  else if (r <=? 0x7FF)%N then
    b (N.lor 0xC0 (N.shiftr r 6)) +:+ b (N.lor 0x80 (N.land r 0x3F))
  else
    let r := if (MaxRune <? r)%N
                || ((surrogateMin <=? r)%N && (r <=? surrogateMax)%N)
             then RuneError else r in
    if (r <=? 0xFFFF)%N then
      b (N.lor 0xE0 (N.shiftr r 12))
      +:+ b (N.lor 0x80 (N.land (N.shiftr r 6) 0x3F))
      +:+ b (N.lor 0x80 (N.land r 0x3F))
    else
      b (N.lor 0xF0 (N.shiftr r 18))
      +:+ b (N.lor 0x80 (N.land (N.shiftr r 12) 0x3F))
      +:+ b (N.lor 0x80 (N.land (N.shiftr r 6) 0x3F))
      +:+ b (N.lor 0x80 (N.land r 0x3F)).

End utf8.

(** ** Package [unicode] *)
Module unicode.

Definition MaxASCII : N := 0x7F.
Definition MaxLatin1 : N := 0xFF.

(** The lower-case column of the table [CaseRanges] (Unicode 15.0.0), range
    by range: in [(lo, hi, stride, to)] the runes [lo], [lo + stride], ...,
    [hi] have the lower-case forms [to], [to + stride], ...  A rune in no
    range is its own lower-case form. *)
Definition lowerRanges : list (N * N * N * N) :=
  [
   (0x00C0, 0x00D6, 1, 0x00E0); (0x00D8, 0x00DE, 1, 0x00F8);
   (0x0100, 0x012E, 2, 0x0101); (0x0130, 0x0130, 1, 0x0069);
   (0x0132, 0x0136, 2, 0x0133); (0x0139, 0x0147, 2, 0x013A);
   (0x014A, 0x0176, 2, 0x014B); (0x0178, 0x0178, 1, 0x00FF);
   (0x0179, 0x017D, 2, 0x017A); (0x0181, 0x0181, 1, 0x0253);
   (0x0182, 0x0184, 2, 0x0183); (0x0186, 0x0186, 1, 0x0254);
   (0x0187, 0x0187, 1, 0x0188); (0x0189, 0x018A, 1, 0x0256);
   (0x018B, 0x018B, 1, 0x018C); (0x018E, 0x018E, 1, 0x01DD);
   (0x018F, 0x018F, 1, 0x0259); (0x0190, 0x0190, 1, 0x025B);
   (0x0191, 0x0191, 1, 0x0192); (0x0193, 0x0193, 1, 0x0260);
   (0x0194, 0x0194, 1, 0x0263); (0x0196, 0x0196, 1, 0x0269);
   (0x0197, 0x0197, 1, 0x0268); (0x0198, 0x0198, 1, 0x0199);
   (0x019C, 0x019C, 1, 0x026F); (0x019D, 0x019D, 1, 0x0272);
   (0x019F, 0x019F, 1, 0x0275); (0x01A0, 0x01A4, 2, 0x01A1);
   (0x01A6, 0x01A6, 1, 0x0280); (0x01A7, 0x01A7, 1, 0x01A8);
   (0x01A9, 0x01A9, 1, 0x0283); (0x01AC, 0x01AC, 1, 0x01AD);
   (0x01AE, 0x01AE, 1, 0x0288); (0x01AF, 0x01AF, 1, 0x01B0);
   (0x01B1, 0x01B2, 1, 0x028A); (0x01B3, 0x01B5, 2, 0x01B4);
   (0x01B7, 0x01B7, 1, 0x0292); (0x01B8, 0x01B8, 1, 0x01B9);
   (0x01BC, 0x01BC, 1, 0x01BD); (0x01C4, 0x01C4, 1, 0x01C6);
   (0x01C5, 0x01C5, 1, 0x01C6); (0x01C7, 0x01C7, 1, 0x01C9);
   (0x01C8, 0x01C8, 1, 0x01C9); (0x01CA, 0x01CA, 1, 0x01CC);
   (0x01CB, 0x01DB, 2, 0x01CC); (0x01DE, 0x01EE, 2, 0x01DF);
   (0x01F1, 0x01F1, 1, 0x01F3); (0x01F2, 0x01F4, 2, 0x01F3);
   (0x01F6, 0x01F6, 1, 0x0195); (0x01F7, 0x01F7, 1, 0x01BF);
   (0x01F8, 0x021E, 2, 0x01F9); (0x0220, 0x0220, 1, 0x019E);
   (0x0222, 0x0232, 2, 0x0223); (0x023A, 0x023A, 1, 0x2C65);
   (0x023B, 0x023B, 1, 0x023C); (0x023D, 0x023D, 1, 0x019A);
   (0x023E, 0x023E, 1, 0x2C66); (0x0241, 0x0241, 1, 0x0242);
   (0x0243, 0x0243, 1, 0x0180); (0x0244, 0x0244, 1, 0x0289);
   (0x0245, 0x0245, 1, 0x028C); (0x0246, 0x024E, 2, 0x0247);
   (0x0370, 0x0372, 2, 0x0371); (0x0376, 0x0376, 1, 0x0377);
   (0x037F, 0x037F, 1, 0x03F3); (0x0386, 0x0386, 1, 0x03AC);
   (0x0388, 0x038A, 1, 0x03AD); (0x038C, 0x038C, 1, 0x03CC);
   (0x038E, 0x038F, 1, 0x03CD); (0x0391, 0x03A1, 1, 0x03B1);
   (0x03A3, 0x03AB, 1, 0x03C3); (0x03CF, 0x03CF, 1, 0x03D7);
   (0x03D8, 0x03EE, 2, 0x03D9); (0x03F4, 0x03F4, 1, 0x03B8);
   (0x03F7, 0x03F7, 1, 0x03F8); (0x03F9, 0x03F9, 1, 0x03F2);
   (0x03FA, 0x03FA, 1, 0x03FB); (0x03FD, 0x03FF, 1, 0x037B);
   (0x0400, 0x040F, 1, 0x0450); (0x0410, 0x042F, 1, 0x0430);
   (0x0460, 0x0480, 2, 0x0461); (0x048A, 0x04BE, 2, 0x048B);
   (0x04C0, 0x04C0, 1, 0x04CF); (0x04C1, 0x04CD, 2, 0x04C2);
   (0x04D0, 0x052E, 2, 0x04D1); (0x0531, 0x0556, 1, 0x0561);
   (0x10A0, 0x10C5, 1, 0x2D00); (0x10C7, 0x10C7, 1, 0x2D27);
   (0x10CD, 0x10CD, 1, 0x2D2D); (0x13A0, 0x13EF, 1, 0xAB70);
   (0x13F0, 0x13F5, 1, 0x13F8); (0x1C90, 0x1CBA, 1, 0x10D0);
   (0x1CBD, 0x1CBF, 1, 0x10FD); (0x1E00, 0x1E94, 2, 0x1E01);
   (0x1E9E, 0x1E9E, 1, 0x00DF); (0x1EA0, 0x1EFE, 2, 0x1EA1);
   (0x1F08, 0x1F0F, 1, 0x1F00); (0x1F18, 0x1F1D, 1, 0x1F10);
   (0x1F28, 0x1F2F, 1, 0x1F20); (0x1F38, 0x1F3F, 1, 0x1F30);
   (0x1F48, 0x1F4D, 1, 0x1F40); (0x1F59, 0x1F5F, 2, 0x1F51);
   (0x1F68, 0x1F6F, 1, 0x1F60); (0x1F88, 0x1F8F, 1, 0x1F80);
   (0x1F98, 0x1F9F, 1, 0x1F90); (0x1FA8, 0x1FAF, 1, 0x1FA0);
   (0x1FB8, 0x1FB9, 1, 0x1FB0); (0x1FBA, 0x1FBB, 1, 0x1F70);
   (0x1FBC, 0x1FBC, 1, 0x1FB3); (0x1FC8, 0x1FCB, 1, 0x1F72);
   (0x1FCC, 0x1FCC, 1, 0x1FC3); (0x1FD8, 0x1FD9, 1, 0x1FD0);
   (0x1FDA, 0x1FDB, 1, 0x1F76); (0x1FE8, 0x1FE9, 1, 0x1FE0);
   (0x1FEA, 0x1FEB, 1, 0x1F7A); (0x1FEC, 0x1FEC, 1, 0x1FE5);
   (0x1FF8, 0x1FF9, 1, 0x1F78); (0x1FFA, 0x1FFB, 1, 0x1F7C);
   (0x1FFC, 0x1FFC, 1, 0x1FF3); (0x2126, 0x2126, 1, 0x03C9);
   (0x212A, 0x212A, 1, 0x006B); (0x212B, 0x212B, 1, 0x00E5);
   (0x2132, 0x2132, 1, 0x214E); (0x2160, 0x216F, 1, 0x2170);
   (0x2183, 0x2183, 1, 0x2184); (0x24B6, 0x24CF, 1, 0x24D0);
   (0x2C00, 0x2C2F, 1, 0x2C30); (0x2C60, 0x2C60, 1, 0x2C61);
   (0x2C62, 0x2C62, 1, 0x026B); (0x2C63, 0x2C63, 1, 0x1D7D);
   (0x2C64, 0x2C64, 1, 0x027D); (0x2C67, 0x2C6B, 2, 0x2C68);
   (0x2C6D, 0x2C6D, 1, 0x0251); (0x2C6E, 0x2C6E, 1, 0x0271);
   (0x2C6F, 0x2C6F, 1, 0x0250); (0x2C70, 0x2C70, 1, 0x0252);
   (0x2C72, 0x2C72, 1, 0x2C73); (0x2C75, 0x2C75, 1, 0x2C76);
   (0x2C7E, 0x2C7F, 1, 0x023F); (0x2C80, 0x2CE2, 2, 0x2C81);
   (0x2CEB, 0x2CED, 2, 0x2CEC); (0x2CF2, 0x2CF2, 1, 0x2CF3);
   (0xA640, 0xA66C, 2, 0xA641); (0xA680, 0xA69A, 2, 0xA681);
   (0xA722, 0xA72E, 2, 0xA723); (0xA732, 0xA76E, 2, 0xA733);
   (0xA779, 0xA77B, 2, 0xA77A); (0xA77D, 0xA77D, 1, 0x1D79);
   (0xA77E, 0xA786, 2, 0xA77F); (0xA78B, 0xA78B, 1, 0xA78C);
   (0xA78D, 0xA78D, 1, 0x0265); (0xA790, 0xA792, 2, 0xA791);
   (0xA796, 0xA7A8, 2, 0xA797); (0xA7AA, 0xA7AA, 1, 0x0266);
   (0xA7AB, 0xA7AB, 1, 0x025C); (0xA7AC, 0xA7AC, 1, 0x0261);
   (0xA7AD, 0xA7AD, 1, 0x026C); (0xA7AE, 0xA7AE, 1, 0x026A);
   (0xA7B0, 0xA7B0, 1, 0x029E); (0xA7B1, 0xA7B1, 1, 0x0287);
   (0xA7B2, 0xA7B2, 1, 0x029D); (0xA7B3, 0xA7B3, 1, 0xAB53);
   (0xA7B4, 0xA7C2, 2, 0xA7B5); (0xA7C4, 0xA7C4, 1, 0xA794);
   (0xA7C5, 0xA7C5, 1, 0x0282); (0xA7C6, 0xA7C6, 1, 0x1D8E);
   (0xA7C7, 0xA7C9, 2, 0xA7C8); (0xA7D0, 0xA7D0, 1, 0xA7D1);
   (0xA7D6, 0xA7D8, 2, 0xA7D7); (0xA7F5, 0xA7F5, 1, 0xA7F6);
   (0xFF21, 0xFF3A, 1, 0xFF41); (0x10400, 0x10427, 1, 0x10428);
   (0x104B0, 0x104D3, 1, 0x104D8); (0x10570, 0x1057A, 1, 0x10597);
   (0x1057C, 0x1058A, 1, 0x105A3); (0x1058C, 0x10592, 1, 0x105B3);
   (0x10594, 0x10595, 1, 0x105BB); (0x10C80, 0x10CB2, 1, 0x10CC0);
   (0x118A0, 0x118BF, 1, 0x118C0); (0x16E40, 0x16E5F, 1, 0x16E60);
   (0x1E900, 0x1E921, 1, 0x1E922)
  ]%N.

Fixpoint lowerIn (ranges : list (N * N * N * N)) (r : N) : N :=
  match ranges with
  | [] => r
  | (lo, hi, stride, to) :: rest =>
      if (lo <=? r)%N && (r <=? hi)%N && ((r - lo) mod stride =? 0)%N
      then (to + (r - lo))%N
      else lowerIn rest r
  end.

(** [unicode.ToLower] *)
Definition ToLower (r : N) : N :=
  if (r <=? MaxASCII)%N then
    if (65 <=? r)%N && (r <=? 90)%N then (r + 32)%N else r
  else lowerIn lowerRanges r.

(** [unicode.IsSpace]: the cases of Latin-1, then the ranges of the table
    [White_Space] above Latin-1. *)
Definition IsSpace (r : N) : bool :=
  if (r <=? MaxLatin1)%N then
    (r =? 9)%N || (r =? 10)%N || (r =? 11)%N || (r =? 12)%N || (r =? 13)%N
    || (r =? 32)%N || (r =? 0x85)%N || (r =? 0xA0)%N
  else
    (r =? 0x1680)%N || ((0x2000 <=? r)%N && (r <=? 0x200a)%N)
    || (r =? 0x2028)%N || (r =? 0x2029)%N || (r =? 0x202f)%N
    || (r =? 0x205f)%N || (r =? 0x3000)%N.

End unicode.

(** ** Package [strings] *)
Module strings.

(** [s[n:]] *)
Fixpoint drop (n : nat) (s : string) : string :=
  match n, s with
  | O, _ => s
  | S n', String _ r => drop n' r
  | S _, EmptyString => EmptyString
  end.

(** [s[:n]] *)
Fixpoint take (n : nat) (s : string) : string :=
  match n, s with
  | O, _ => EmptyString
  | S n', String c r => String c (take n' r)
  | S _, EmptyString => EmptyString
  end.

(** [len(s) >= len(prefix) && s[:len(prefix)] == prefix] *)
Definition HasPrefix (s prefix : string) : bool :=
  (String.length prefix <=? String.length s)%nat
  && String.eqb (take (String.length prefix) s) prefix.

(** [len(s) >= len(suffix) && s[len(s)-len(suffix):] == suffix] *)
Definition HasSuffix (s suffix : string) : bool :=
  (String.length suffix <=? String.length s)%nat
  && String.eqb (drop (String.length s - String.length suffix) s) suffix.

Definition TrimPrefix (s prefix : string) : string :=
  if HasPrefix s prefix then drop (String.length prefix) s else s.

Definition TrimSuffix (s suffix : string) : string :=
  if HasSuffix s suffix then take (String.length s - String.length suffix) s
  else s.

(** [strings.IndexByte] / [bytes.IndexByte]: index of the first [c], or -1. *)
Fixpoint IndexByte (s : string) (c : ascii) : Z :=
  match s with
  | EmptyString => (-1)%Z
  | String x r =>
      if Ascii.eqb x c then 0%Z
      else let i := IndexByte r c in
           if (i <? 0)%Z then (-1)%Z else (i + 1)%Z
  end.

(** [strings.ReplaceAll s old new] for a non-empty [old] (the program only
    replaces the one-byte backslash); non-overlapping, left to right.
    [fuel] bounds the scan by the length of [s]. *)
Fixpoint replaceAll (fuel : nat) (s old new : string) : string :=
  match fuel with
  | O => s
  | S f =>
      match s with
      | EmptyString => EmptyString
      | String c r =>
          if HasPrefix s old
          then new +:+ replaceAll f (drop (String.length old) s) old new
          else String c (replaceAll f r old new)
      end
  end.

Definition ReplaceAll (s old new : string) : string :=
  if String.eqb old "" then s else replaceAll (String.length s) s old new.

Definition lowerByte (c : ascii) : ascii :=
  let n := byte c in
  if (65 <=? n)%N && (n <=? 90)%N then ascii_of_N (n + 32) else c.

(** [isASCII] of [strings.ToLower]: no byte is [utf8.RuneSelf] or more. *)
Fixpoint isASCII (s : string) : bool :=
  match s with
  | EmptyString => true
  | String c r => (byte c <? utf8.RuneSelf)%N && isASCII r
  end.

(** The loop of the ASCII path of [strings.ToLower]. *)
Fixpoint lowerASCII (s : string) : string :=
  match s with
  | EmptyString => EmptyString
  | String c r => String (lowerByte c) (lowerASCII r)
  end.

(** [for _, c := range s] of [strings.Map], for a mapping that returns no
    negative rune: every rune of [s], an invalid byte being read as
    [utf8.RuneError], is written as the encoding of its image.  (The
    library copies the first runes as they are while the mapping does
    not change them and they are not invalid bytes: that gives the same
    bytes.)  One unit of [fuel] for every rune. *)
Fixpoint mapLoop (fuel : nat) (mapping : N -> N) (s : string) : string :=
  match fuel with
  | O => EmptyString
  | S k =>
      if String.eqb s "" then EmptyString
      else
        let '(c, width) := utf8.DecodeRuneInString s in
        utf8.EncodeRune (mapping c) +:+ mapLoop k mapping (drop width s)
  end.

Definition Map (mapping : N -> N) (s : string) : string :=
  mapLoop (String.length s) mapping s.

(** [strings.ToLower]: the ASCII path, or [Map(unicode.ToLower, s)]. *)
Definition ToLower (s : string) : string :=
  if isASCII s then lowerASCII s else Map unicode.ToLower s.

End strings.

(** ** Package [path]: [path.Match] *)
Module path.

Definition isByte (c : ascii) (s : string) : bool :=
  match s with
  | String x _ => Ascii.eqb x c
  | EmptyString => false
  end.

(** Leading stars of a pattern: [star] and the pattern after them. *)
Fixpoint skipStars (pattern : string) : bool * string :=
  match pattern with
  | String c r => if Ascii.eqb c "*" then (true, snd (skipStars r))
                  else (false, pattern)
  | EmptyString => (false, pattern)
  end.

(** The [Scan] loop of [scanChunk]: the chunk up to the next star that is
    outside a bracket class, and the pattern from that star on. *)
Fixpoint scanBody (inrange : bool) (pattern : string) : string * string :=
  match pattern with
  | EmptyString => (EmptyString, EmptyString)
  | String c r =>
      if Ascii.eqb c "\" then
        match r with
        | EmptyString => (String c EmptyString, EmptyString)
        | String c' r' =>
            let '(chunk, rest) := scanBody inrange r' in
            (String c (String c' chunk), rest)
        end
      else if Ascii.eqb c "[" then
        let '(chunk, rest) := scanBody true r in (String c chunk, rest)
      else if Ascii.eqb c "]" then
        let '(chunk, rest) := scanBody false r in (String c chunk, rest)
      else if Ascii.eqb c "*" && negb inrange then
        (EmptyString, pattern)
      else
        let '(chunk, rest) := scanBody inrange r in (String c chunk, rest)
  end.

(** [scanChunk]: [(star, chunk, rest)]. *)
Definition scanChunk (pattern : string) : bool * string * string :=
  let '(star, p) := skipStars pattern in
  let '(chunk, rest) := scanBody false p in
  (star, chunk, rest).

(** [getEsc]: a possibly escaped character of a bracket class and the
    chunk after it; [None] is [ErrBadPattern]. *)
Definition getEsc (chunk : string) : option (N * string) :=
  if String.eqb chunk "" || isByte "-" chunk || isByte "]" chunk then None
  else
    let chunk1 := if isByte "\" chunk then strings.drop 1 chunk else chunk in
    if String.eqb chunk1 "" then None
    else
      let '(r, n) := utf8.DecodeRuneInString chunk1 in
      let nchunk := strings.drop n chunk1 in
      if (N.eqb r utf8.RuneError && Nat.eqb n 1) then None
      else if String.eqb nchunk "" then None
      else Some (r, nchunk).

(** The range loop of a bracket class in [matchChunk]: the chunk after the
    closing bracket and whether the rune [r] is in some range. *)
Fixpoint classLoop (fuel : nat) (chunk : string) (r : N) (mtch : bool)
         (nrange : nat) : option (string * bool) :=
  match fuel with
  | O => None
  | S f =>
      if isByte "]" chunk && (0 <? nrange)%nat
      then Some (strings.drop 1 chunk, mtch)
      else
        match getEsc chunk with
        | None => None
        | Some (lo, chunk1) =>
            if isByte "-" chunk1 then
              match getEsc (strings.drop 1 chunk1) with
              | None => None
              | Some (hi, chunk2) =>
                  classLoop f chunk2 r
                    (mtch || ((lo <=? r)%N && (r <=? hi)%N)) (S nrange)
              end
            else
              classLoop f chunk1 r
                (mtch || ((lo <=? r)%N && (r <=? lo)%N)) (S nrange)
        end
  end.

(** The loop of [matchChunk]; [failed] is its flag of the same name.  The
    result is [(rest, ok, err)].  Every turn shortens [chunk], and [fuel]
    exceeds its length. *)
Fixpoint matchChunkLoop (fuel : nat) (chunk s : string) (failed : bool)
  : string * bool * option error :=
  match fuel with
  | O => (EmptyString, false, None)
  | S f =>
      match chunk with
      | EmptyString => if failed then (EmptyString, false, None)
                       else (s, true, None)
      | String c rest =>
          let failed := failed || String.eqb s "" in
          if Ascii.eqb c "[" then
            let '(r, s1) :=
              if failed then (0%N, s)
              else let '(r, n) := utf8.DecodeRuneInString s in
                   (r, strings.drop n s) in
            let '(negated, chunk2) :=
              if isByte "^" rest then (true, strings.drop 1 rest)
              else (false, rest) in
            match classLoop f chunk2 r false 0 with
            | None => (EmptyString, false, Some ErrBadPattern)
            | Some (chunk3, mtch) =>
                matchChunkLoop f chunk3 s1 (failed || Bool.eqb mtch negated)
            end
          else if Ascii.eqb c "?" then
            if failed then matchChunkLoop f rest s failed
            else
              let '(_, n) := utf8.DecodeRuneInString s in
              matchChunkLoop f rest (strings.drop n s) (isByte "/" s)
          else if Ascii.eqb c "\" then
            match rest with
            | EmptyString => (EmptyString, false, Some ErrBadPattern)
            | String c' rest' =>
                if failed then matchChunkLoop f rest' s failed
                else matchChunkLoop f rest' (strings.drop 1 s)
                                    (negb (isByte c' s))
            end
          else
            if failed then matchChunkLoop f rest s failed
            else matchChunkLoop f rest (strings.drop 1 s)
                                (negb (isByte c s))
      end
  end.

Definition matchChunk (chunk s : string) : string * bool * option error :=
  matchChunkLoop (S (String.length chunk)) chunk s false.

(** Outcome of the loop of [Match] that skips bytes of [name] for a star. *)
Inductive skipResult : Type :=
| SkipFound (t : string)
| SkipError (e : error)
| SkipNone.

(** [for i := 0; i < len(name) && name[i] != '/'; i++]: try the chunk at
    [name[i+1:]]. *)
Fixpoint starSkip (chunk : string) (lastChunk : bool) (name : string)
  : skipResult :=
  match name with
  | EmptyString => SkipNone
  | String c rest =>
      if Ascii.eqb c "/" then SkipNone
      else
        let '(t, ok, err) := matchChunk chunk rest in
        if ok then
          if lastChunk && (0 <? String.length t)%nat
          then starSkip chunk lastChunk rest
          else SkipFound t
        else
          match err with
          | Some e => SkipError e
          | None => starSkip chunk lastChunk rest
          end
  end.

(** The closing loop of [Match]: the rest of the pattern is checked for
    syntax errors. *)
Fixpoint checkRest (fuel : nat) (pattern : string) : option error :=
  match fuel with
  | O => None
  | S f =>
      if String.eqb pattern "" then None
      else
        let '(_, chunk, rest) := scanChunk pattern in
        match matchChunk chunk "" with
        | (_, _, Some e) => Some e
        | _ => checkRest f rest
        end
  end.

(** The [Pattern] loop of [Match].  Every turn shortens [pattern], and
    [fuel] exceeds its length. *)
Fixpoint matchLoop (fuel : nat) (pattern name : string)
  : bool * option error :=
  match fuel with
  | O => (false, None)
  | S f =>
      if String.eqb pattern "" then (String.eqb name "", None)
      else
        let '(star, chunk, rest) := scanChunk pattern in
        if star && String.eqb chunk "" then
          ((strings.IndexByte name "/" <? 0)%Z, None)
        else
          let '(t, ok, err) := matchChunk chunk name in
          if ok && ((String.length t =? 0)%nat
                    || (0 <? String.length rest)%nat)
          then matchLoop f rest t
          else
            match err with
            | Some e => (false, Some e)
            | None =>
                match (if star then starSkip chunk (String.eqb rest "") name
                       else SkipNone) with
                | SkipFound t' => matchLoop f rest t'
                | SkipError e => (false, Some e)
                | SkipNone => (false, checkRest (S (String.length rest)) rest)
                end
            end
  end.

(** [path.Match(pattern, name)]: [(matched, err)]. *)
Definition Match (pattern name : string) : bool * option error :=
  matchLoop (S (String.length pattern)) pattern name.

(** The bytes with a meaning in a pattern: star, question mark, opening
    bracket and backslash. *)
Definition metaByte (c : ascii) : bool :=
  Ascii.eqb c "*" || Ascii.eqb c "?" || Ascii.eqb c "[" || Ascii.eqb c "\".

(** A pattern without such bytes. *)
Fixpoint literal (pattern : string) : bool :=
  match pattern with
  | EmptyString => true
  | String c r => negb (metaByte c) && literal r
  end.

End path.

(** ** Package [path/filepath], Unix build *)
Module filepath.

Definition Separator : ascii := "/".

Definition IsPathSeparator (c : ascii) : bool := Ascii.eqb c Separator.

(** [filepath.ToSlash]: the identity when the separator is the slash. *)
Definition ToSlash (path : string) : string :=
  if Ascii.eqb Separator "/" then path
  else strings.ReplaceAll path (String Separator EmptyString) "/".

Definition byteAt (i : nat) (s : string) : ascii :=
  match String.get i s with
  | Some c => c
  | None => "000"
  end.

(** [for len(path) > 0 && IsPathSeparator(path[len(path)-1])]: the length
    of [path] without its trailing separators. *)
Fixpoint stripTrailing (k : nat) (path : string) : nat :=
  match k with
  | O => O
  | S i => if IsPathSeparator (byteAt i path) then stripTrailing i path
           else k
  end.

(** [for i >= 0 && !IsPathSeparator(path[i]); i--]: the index after the
    last separator among the first [k] bytes, [0] when there is none. *)
Fixpoint afterLastSeparator (k : nat) (path : string) : nat :=
  match k with
  | O => O
  | S i => if IsPathSeparator (byteAt i path) then k
           else afterLastSeparator i path
  end.

(** [filepath.Base]: the last element of a path. *)
Definition Base (path : string) : string :=
  if String.eqb path "" then "."
  else
    let p := strings.take (stripTrailing (String.length path) path) path in
    let p' := strings.drop (afterLastSeparator (String.length p) p) p in
    if String.eqb p' "" then String Separator EmptyString else p'.

(** [for i := len(path)-1; i >= 0 && !IsPathSeparator(path[i]); i--]. *)
Fixpoint extLoop (k : nat) (path : string) : string :=
  match k with
  | O => EmptyString
  | S i =>
      if IsPathSeparator (byteAt i path) then EmptyString
      else if Ascii.eqb (byteAt i path) "." then strings.drop i path
      else extLoop i path
  end.

(** [filepath.Ext]: the suffix of the last element from its last dot. *)
Definition Ext (path : string) : string := extLoop (String.length path) path.

(** The elements of a path between separators. *)
Fixpoint split (path : string) : list string :=
  match path with
  | EmptyString => [EmptyString]
  | String c r =>
      if IsPathSeparator c then EmptyString :: split r
      else match split r with
           | h :: t => String c h :: t
           | [] => [String c EmptyString]
           end
  end.

Fixpoint joinSep (elems : list string) : string :=
  match elems with
  | [] => EmptyString
  | [e] => e
  | e :: rest => e +:+ String Separator EmptyString +:+ joinSep rest
  end.

(** One element of the scan of [Clean]; [out] holds the elements written
    so far, last one first. *)
Definition cleanStep (rooted : bool) (out : list string) (elem : string)
  : list string :=
  if String.eqb elem "" || String.eqb elem "." then out
  else if String.eqb elem ".." then
    match out with
    | top :: below => if String.eqb top ".." then elem :: out else below
    | [] => if rooted then [] else [elem]
    end
  else elem :: out.

(** [filepath.Clean], element by element: empty and dot elements are
    dropped, a dot-dot element removes the element before it. *)
Definition Clean (path : string) : string :=
  if String.eqb path "" then "."
  else
    let rooted := IsPathSeparator (byteAt 0 path) in
    let out := rev (foldl (cleanStep rooted) [] (split path)) in
    let s := (if rooted then String Separator EmptyString else EmptyString)
             +:+ joinSep out in
    if String.eqb s "" then "." else s.

(** [filepath.Join] of two elements. *)
Definition Join (a b : string) : string :=
  if negb (String.eqb a "") then Clean (a +:+ String Separator EmptyString +:+ b)
  else if negb (String.eqb b "") then Clean b
  else EmptyString.

Fixpoint stripCommon (base targ : list string) : list string * list string :=
  match base, targ with
  | b :: bs, t :: ts => if String.eqb b t then stripCommon bs ts
                        else (base, targ)
  | _, _ => (base, targ)
  end.

Definition elements (path : string) : list string :=
  filter (fun e => e <> EmptyString) (split path).

(** [filepath.Rel], element by element: the elements of [targpath] after
    the common leading elements, behind one dot-dot for every element of
    [basepath] that is left. *)
Definition Rel (basepath targpath : string) : result string :=
  let base := Clean basepath in
  let targ := Clean targpath in
  if String.eqb targ base then Ok "."
  else
    let base := if String.eqb base "." then EmptyString else base in
    let baseSlashed := IsPathSeparator (byteAt 0 base)
                       && negb (String.eqb base "") in
    let targSlashed := IsPathSeparator (byteAt 0 targ)
                       && negb (String.eqb targ "") in
    if negb (Bool.eqb baseSlashed targSlashed) then
      Err (ErrMsg ("Rel: can't make " +:+ targpath +:+ " relative to "
                   +:+ basepath))
    else
      let '(b, t) := stripCommon (elements base) (elements targ) in
      match b with
      | [] => Ok (joinSep t)
      | b0 :: _ =>
          if String.eqb b0 ".." then
            Err (ErrMsg ("Rel: can't make " +:+ targpath +:+ " relative to "
                         +:+ basepath))
          else Ok (joinSep (map (fun _ => "..") b ++ t))
      end.

End filepath.

(** ** The program: constants, configuration and its environment *)

Definition nl : string := String (ascii_of_nat 10) EmptyString.
Definition dquote : string := String (ascii_of_nat 34) EmptyString.

Definition version : string := "v1.7.0".
Definition maxDisplayFiles : nat := 24.
Definition keepHeadFiles : nat := 8.
Definition keepTailFiles : nat := 8.

(** [os.ModeSymlink], bit 27 of a [FileMode]. *)
Definition ModeSymlink : Z := Z.shiftl 1 27.

(** [type Config struct]; a [map[string]bool] whose values are all [true] is
    a set of keys. *)
Record Config : Type := mkConfig {
  OutputFile : string;
  IgnoredDirs : gset string;
  IgnoredExts : gset string;
  IgnoredFiles : gset string;
  MaxFileSize : Z;
  TextExts : gset string;
  NoFold : bool
}.

(** [var config = Config{...}], the defaults. *)
Definition config : Config := {|
  OutputFile := "project_context.md";
  IgnoredDirs := list_to_set
    [".git"; ".idea"; ".vscode"; "node_modules"; "__pycache__"; "dist";
     "build"; "vendor"; "bin"; "obj"; "target"; ".next"; "coverage"];
  IgnoredExts := list_to_set
    [".png"; ".jpg"; ".jpeg"; ".gif"; ".ico"; ".svg";
     ".mp4"; ".mp3"; ".wav"; ".webp";
     ".zip"; ".tar"; ".gz"; ".7z"; ".rar";
     ".exe"; ".dll"; ".so"; ".dylib"; ".class"; ".pyc"; ".o";
     ".ttf"; ".woff"; ".woff2"; ".eot";
     ".lock"; ".pdf"; ".ds_store"];
  IgnoredFiles := list_to_set ["dir2txt.go"; "dir2txt"; "dir2txt.exe"];
  MaxFileSize := 1024 * 1024;
  TextExts := list_to_set
    [".md"; ".txt"; ".log";
     ".go"; ".java"; ".py"; ".js"; ".ts";
     ".c"; ".cpp"; ".h"; ".hpp";
     ".html"; ".css"; ".xml"; ".yaml"; ".yml";
     ".json"; ".sql"; ".properties"; ".ini";
     ".sh"; ".bat"; ".conf"; ".toml"];
  NoFold := false
|}.

(** [config.OutputFile = name] *)
Definition setOutputFile (cfg : Config) (name : string) : Config :=
  {| OutputFile := name;
     IgnoredDirs := IgnoredDirs cfg;
     IgnoredExts := IgnoredExts cfg;
     IgnoredFiles := IgnoredFiles cfg;
     MaxFileSize := MaxFileSize cfg;
     TextExts := TextExts cfg;
     NoFold := NoFold cfg |}.

(** [config.OutputFile = filepath.Base(finalOutPath)] in [main]. *)
Definition withOutputFile (cfg : Config) (finalOutPath : string) : Config :=
  setOutputFile cfg (filepath.Base finalOutPath).

(** [m[k]] for a [map[string]bool] used as a set. *)
Definition has (m : gset string) (k : string) : bool := bool_decide (k ∈ m).

(** The interface [os.DirEntry], by the results of its methods [Name],
    [IsDir] and [Type]. *)
Record DirEntry : Type := mkDirEntry {
  Name : string;
  IsDir : bool;
  TypeBits : Z
}.

(** [&SimpleDirEntry{name: ..., isDir: ...}]: its [Type()] is 0. *)
Definition SimpleDirEntry (name : string) (isDir : bool) : DirEntry :=
  {| Name := name; IsDir := isDir; TypeBits := 0 |}.

(** [entry.Type()&os.ModeSymlink != 0] *)
Definition isSymlink (entry : DirEntry) : bool :=
  negb (Z.land (TypeBits entry) ModeSymlink =? 0)%Z.

(** What the program reads of an [os.FileInfo]. *)
Record FileInfo : Type := mkFileInfo {
  infoIsDir : bool;
  infoSize : Z
}.

(** The environment of a run: the file system calls, [filepath.Abs] (which
    depends on the working directory) and the GBK decoder
    ([io.ReadAll] of a [transform.NewReader] over
    [simplifiedchinese.GBK.NewDecoder()]).  The file system does not change
    during a run. *)
Record OS : Type := mkOS {
  ReadDir : string -> result (list DirEntry);
  Stat : string -> result FileInfo;
  EvalSymlinks : string -> result string;
  Readlink : string -> result string;
  ReadFile : string -> result string;
  Abs : string -> result string;
  GBKDecode : string -> result string
}.

(** The output of a run: the text written to the [bufio.Writer] of the
    output document, and the lines printed on standard output and standard
    error, one element for each [Printf]. *)
Record Sink : Type := mkSink {
  doc : string;
  stdout : list string;
  stderr : list string
}.

Definition emptySink : Sink := {| doc := ""; stdout := []; stderr := [] |}.

(** [writer.WriteString(s)] *)
Definition WriteString (w : Sink) (s : string) : Sink :=
  {| doc := doc w +:+ s; stdout := stdout w; stderr := stderr w |}.

(** [fmt.Printf(...)] with the formatted text [s] *)
Definition Printf (w : Sink) (s : string) : Sink :=
  {| doc := doc w; stdout := stdout w ++ [s]; stderr := stderr w |}.

(** [fmt.Fprintf(os.Stderr, ...)] *)
Definition Eprintf (w : Sink) (s : string) : Sink :=
  {| doc := doc w; stdout := stdout w; stderr := stderr w ++ [s] |}.

Definition setDoc (w : Sink) (d : string) : Sink :=
  {| doc := d; stdout := stdout w; stderr := stderr w |}.

(** The [%v] of an error. *)
Definition errorString (e : error) : string :=
  match e with
  | SkipDir => "skip this directory"
  | ErrBadPattern => "syntax error in pattern"
  | ErrMsg msg => msg
  end.

(** ** [normalizeFilters] *)
Fixpoint normalizeFilters (filters : list string) : list string :=
  match filters with
  | [] => []
  | f :: rest =>
      if String.eqb f "" then normalizeFilters rest
      else
        let f := strings.ReplaceAll f "\" "/" in
        let f := if strings.HasSuffix f "/*"
                 then strings.TrimSuffix f "/*" +:+ "/*"
                 else strings.TrimSuffix f "/" in
        f :: normalizeFilters rest
  end.

(** ** [checkFilter] *)

(** The body of the loop of [checkFilter] for one non-empty rule: the value
    of [matched] when the rule has been tried on [full]. *)
Definition ruleMatched (full rule : string) : bool :=
  let cleanRule := strings.TrimPrefix rule "!" in
  let cleanRule := filepath.ToSlash cleanRule in
  if strings.HasSuffix cleanRule "/*" then
    let parent := strings.TrimSuffix cleanRule "/*" in
    negb (String.eqb parent "")
    && strings.HasPrefix full (parent +:+ "/")
    && negb (String.eqb full parent)
  else
    let cleanRule := strings.TrimSuffix cleanRule "/" in
    if negb (String.eqb cleanRule "")
       && (String.eqb full cleanRule
           || strings.HasPrefix full (cleanRule +:+ "/"))
    then true
    else
      fst (path.Match cleanRule full)
      || fst (path.Match cleanRule (filepath.Base full)).

(** [for _, rule := range filters] *)
Fixpoint checkFilterLoop (full : string) (filters : list string)
  : bool * string :=
  match filters with
  | [] => (false, "")
  | rule :: rest =>
      if String.eqb rule "" then checkFilterLoop full rest
      else
        let isNeg := strings.HasPrefix rule "!" in
        if ruleMatched full rule then
          if isNeg then (false, rule) else (true, rule)
        else checkFilterLoop full rest
  end.

Definition checkFilter (fullPath : string) (filters : list string)
  : bool * string :=
  if String.eqb fullPath "" then (false, "")
  else checkFilterLoop (filepath.ToSlash fullPath) filters.

(** The directory of a rule that does not end in [/*]: the rule without
    its negation marker and without one trailing slash ([cleanRule] in the
    second branch of the loop). *)
Definition ruleDir (rule : string) : string :=
  strings.TrimSuffix (filepath.ToSlash (strings.TrimPrefix rule "!")) "/".

(** Does the rule end in [/*], once its negation marker is removed? *)
Definition contentsOnlyRule (rule : string) : bool :=
  strings.HasSuffix (filepath.ToSlash (strings.TrimPrefix rule "!")) "/*".

(** A rule matches a path when it is not empty and the loop of
    [checkFilter] sets [matched] for it. *)
Definition ruleHits (fullPath rule : string) : bool :=
  negb (String.eqb rule "") && ruleMatched (filepath.ToSlash fullPath) rule.

(** ** [isFiltered], the filter of the first iteration of the program: every
    matching rule overwrites the verdict. *)
Fixpoint isFilteredLoop (norm : string) (filters : list string)
         (ignored : bool) : bool :=
  match filters with
  | [] => ignored
  | p :: rest =>
      let negate := strings.HasPrefix p "!" in
      let pat := strings.TrimPrefix p "!" in
      if String.eqb pat "" then isFilteredLoop norm rest ignored
      else
        match path.Match pat norm with
        | (_, Some _) => isFilteredLoop norm rest ignored
        | (matched, None) =>
            isFilteredLoop norm rest (if matched then negb negate else ignored)
        end
  end.

Definition isFiltered (relPath : string) (filters : list string) : bool :=
  if String.eqb relPath "" then false
  else isFilteredLoop (filepath.ToSlash relPath) filters false.

(** ** [isJunk], [isAsset], [isBinary], [convertToUTF8] *)

Definition isJunk (cfg : Config) (name : string) : bool :=
  if String.eqb name "." then false
  else if String.eqb name ".env" || String.eqb name ".gitignore" then false
  else if has (IgnoredFiles cfg) name then true
  else if strings.HasPrefix name "." then true
  else if has (IgnoredDirs cfg) name then true
  else false.

Definition isAsset (cfg : Config) (name : string) : bool :=
  let ext := strings.ToLower (filepath.Ext name) in
  if has (IgnoredExts cfg) ext then true else false.

Definition isBinary (content : string) : bool :=
  let checkLen := 512%nat in
  let checkLen := if (String.length content <? checkLen)%nat
                  then String.length content else checkLen in
  if negb (strings.IndexByte (strings.take checkLen content) "000" =? -1)%Z
  then true
  else false.

(** [(content, encoding name, error)] *)
Definition convertToUTF8 (os : OS) (content : string)
  : string * string * option error :=
  if utf8.Valid content then (content, "UTF-8", None)
  else
    match GBKDecode os content with
    | Ok decoded =>
        if utf8.Valid decoded then (decoded, "GBK/GB18030", None)
        else ("", "Unknown", Some (ErrMsg "encoding not recognized"))
    | Err _ => ("", "Unknown", Some (ErrMsg "encoding not recognized"))
    end.

(** ** [processFile] *)

(** [s[len(s)-1] == c], false for the empty string. *)
Definition lastByteIs (c : ascii) (s : string) : bool :=
  match String.get (String.length s - 1) s with
  | Some x => Ascii.eqb x c
  | None => false
  end.

(** The format strings of the notices of [processFile], filled in. *)
Definition noticeLinkToDir (path : string) : string :=
  "[SKIP] 软链接指向目录: " +:+ path +:+ nl.
Definition noticeLarge (path : string) : string :=
  "[SKIP] 大文件 (>1MB): " +:+ path +:+ nl.
Definition noticeBinary (path : string) : string :=
  "[SKIP] 检测到二进制文件: " +:+ path +:+ nl.
Definition noticeUnknownEncoding (path : string) : string :=
  "[WARN] 无法识别文件编码 (已跳过): " +:+ path +:+ nl.
Definition noticeUnknownReason : string :=
  "       -> 原因: 内容非 UTF-8 且非 GBK，或包含非法字符。" +:+ nl.
Definition noticeConverted (encoding path : string) : string :=
  "[INFO] 自动转换编码 [" +:+ encoding +:+ " -> UTF-8]: " +:+ path +:+ nl.
Definition noticeProcessing (path : string) : string :=
  "正在处理: " +:+ path +:+ nl.

Definition processFile (os : OS) (cfg : Config) (path : string) (writer : Sink)
  : option error * Sink :=
  match Stat os path with
  | Err _ => (None, writer)
  | Ok info =>
      if infoIsDir info then (None, Printf writer (noticeLinkToDir path))
      else if (MaxFileSize cfg <? infoSize info)%Z then
        (None, Printf writer (noticeLarge path))
      else
        match ReadFile os path with
        | Err _ => (None, writer)
        | Ok content =>
            let ext := strings.ToLower (filepath.Ext path) in
            let isForceText := has (TextExts cfg) ext in
            if negb isForceText && isBinary content then
              (None, Printf writer (noticeBinary path))
            else
              match convertToUTF8 os content with
              | (_, _, Some _) =>
                  let w := Printf writer (noticeUnknownEncoding path) in
                  let w := Printf w noticeUnknownReason in
                  (None, w)
              | (utf8Content, encoding, None) =>
                  let w :=
                    if negb (String.eqb encoding "UTF-8")
                    then Printf writer (noticeConverted encoding path)
                    else writer in
                  let w := Printf w (noticeProcessing path) in
                  let displayPath := filepath.ToSlash path in
                  let codeBlockLang := strings.TrimPrefix ext "." in
                  let codeBlockLang :=
                    if String.eqb codeBlockLang "" then "text"
                    else codeBlockLang in
                  let w := WriteString w
                    ("## File: " +:+ displayPath +:+ nl +:+ nl) in
                  let w := WriteString w ("```" +:+ codeBlockLang +:+ nl) in
                  let w := WriteString w utf8Content in
                  let w :=
                    if (0 <? String.length utf8Content)%nat
                       && negb (lastByteIs (ascii_of_nat 10) utf8Content)
                    then WriteString w nl else w in
                  let w := WriteString w ("```" +:+ nl +:+ nl) in
                  let w := WriteString w ("---" +:+ nl +:+ nl) in
                  (None, w)
              end
        end
  end.

(** *** The content block of a file, for the statements about [processFile] *)

(** The language mark of the opening fence. *)
Definition fenceLang (path : string) : string :=
  let lang := strings.TrimPrefix (strings.ToLower (filepath.Ext path)) "." in
  if String.eqb lang "" then "text" else lang.

(** The content as it stands between the fences: a line feed is added to a
    non-empty content that does not end with one. *)
Definition fenced (utf8Content : string) : string :=
  if (0 <? String.length utf8Content)%nat
     && negb (lastByteIs (ascii_of_nat 10) utf8Content)
  then utf8Content +:+ nl else utf8Content.

(** The whole block: header, opening fence, content, closing fence, rule. *)
Definition contentBlock (path utf8Content : string) : string :=
  "## File: " +:+ filepath.ToSlash path +:+ nl +:+ nl
  +:+ "```" +:+ fenceLang path +:+ nl
  +:+ fenced utf8Content
  +:+ "```" +:+ nl +:+ nl
  +:+ "---" +:+ nl +:+ nl.

(** The file reaches the encoding step of [processFile] with the bytes
    [content]: its information is read, it is not a directory, it is not
    larger than the limit, it is read, and it is forced text or has no zero
    byte among its first 512 bytes. *)
Definition reachesEncoding (os : OS) (cfg : Config) (path content : string)
  : Prop :=
  (exists info, Stat os path = Ok info /\ infoIsDir info = false
                /\ (infoSize info <= MaxFileSize cfg)%Z)
  /\ ReadFile os path = Ok content
  /\ (has (TextExts cfg) (strings.ToLower (filepath.Ext path)) = true
      \/ isBinary content = false).

Fixpoint allNewlines (s : string) : bool :=
  match s with
  | EmptyString => true
  | String c r => Ascii.eqb c (ascii_of_nat 10) && allNewlines r
  end.

(** The number of line feeds at the end of a text. *)
Fixpoint trailingNewlines (s : string) : nat :=
  match s with
  | EmptyString => O
  | String c r =>
      if Ascii.eqb c (ascii_of_nat 10) && allNewlines r
      then S (String.length r)
      else trailingNewlines r
  end.

(** ** [walkFollowSymlinks] *)

(** [type node struct] *)
Record node : Type := mkNode {
  fsPath : string;
  rel : string
}.

(** The symlink step that [walkFollowSymlinks] and [writeTree] share word
    for word: a symlink whose resolved target is a directory is a directory
    for the traversal, and its physical path is the target.  The result is
    [(childIsDir, childFSPath)]. *)
Definition followSymlink (os : OS) (childFSPath : string) (entry : DirEntry)
  : bool * string :=
  if isSymlink entry then
    match EvalSymlinks os childFSPath with
    | Ok target =>
        match Stat os target with
        | Ok info => if infoIsDir info then (true, target)
                     else (IsDir entry, childFSPath)
        | Err _ => (IsDir entry, childFSPath)
        end
    | Err _ => (IsDir entry, childFSPath)
    end
  else (IsDir entry, childFSPath).

Section Walk.
(** The callback [fn] works on a state of type [St] (the writer and the
    two output streams, for [processDirs]). *)
Context {St : Type}.
Variable os : OS.
Variable fn : string -> string -> DirEntry -> St -> option error * St.

(** [for _, entry := range entries] for the node [n].  The stack is a list
    whose head is the last element of the Go slice: [append] is a cons and
    the next node popped is the head.  The result is the error that ends
    the walk, if any, the stack, the set [seen] and the state. *)
Fixpoint walkEntries (n : node) (entries : list DirEntry)
         (stack : list node) (seen : gset string) (st : St)
  : option error * list node * gset string * St :=
  match entries with
  | [] => (None, stack, seen, st)
  | entry :: rest =>
      let name := Name entry in
      let logicalRel :=
        if negb (String.eqb (rel n) "") then filepath.Join (rel n) name
        else name in
      let '(childIsDir, childFSPath) :=
        followSymlink os (filepath.Join (fsPath n) name) entry in
      match fn logicalRel childFSPath entry st with
      | (Some err, st1) =>
          if isSkipDir err then walkEntries n rest stack seen st1
          else (Some err, stack, seen, st1)
      | (None, st1) =>
          if childIsDir then
            match EvalSymlinks os childFSPath with
            | Ok real =>
                if bool_decide (real ∈ seen)
                then walkEntries n rest stack seen st1
                else walkEntries n rest
                       ({| fsPath := childFSPath; rel := logicalRel |}
                          :: stack)
                       ({[real]} ∪ seen) st1
            | Err _ =>
                walkEntries n rest
                  ({| fsPath := childFSPath; rel := logicalRel |} :: stack)
                  seen st1
            end
          else walkEntries n rest stack seen st1
      end
  end.

(** [for len(stack) > 0]; one unit of [fuel] for every node popped, [None]
    when the fuel runs out. *)
Fixpoint walkLoop (fuel : nat) (stack : list node) (seen : gset string)
         (st : St) : option (option error * St) :=
  match stack with
  | [] => Some (None, st)
  | n :: stack' =>
      match fuel with
      | O => None
      | S f =>
          match ReadDir os (fsPath n) with
          | Err err => Some (Some err, st)
          | Ok entries =>
              match walkEntries n entries stack' seen st with
              | (Some err, _, _, st1) => Some (Some err, st1)
              | (None, stack1, seen1, st1) => walkLoop f stack1 seen1 st1
              end
          end
      end
  end.

Definition walkFollowSymlinks (fuel : nat) (root : string) (st : St)
  : option (option error * St) :=
  walkLoop fuel [{| fsPath := root; rel := "" |}] ∅ st.

(** The directories that [walkLoop] reads, in order: the arguments of its
    calls of [os.ReadDir].  This list is not part of the program; it is
    what the statements about descents speak of. *)
Fixpoint walkDescents (fuel : nat) (stack : list node) (seen : gset string)
         (st : St) : list string :=
  match stack with
  | [] => []
  | n :: stack' =>
      match fuel with
      | O => []
      | S f =>
          fsPath n ::
          match ReadDir os (fsPath n) with
          | Err _ => []
          | Ok entries =>
              match walkEntries n entries stack' seen st with
              | (Some _, _, _, _) => []
              | (None, stack1, seen1, st1) => walkDescents f stack1 seen1 st1
              end
          end
      end
  end.

End Walk.

(** The canonical path of a path, when it has one. *)
Definition canonical (os : OS) (p : string) : option string :=
  match EvalSymlinks os p with
  | Ok real => Some real
  | Err _ => None
  end.

(** The canonical paths of the directories of a stack. *)
Definition canonicalStack (os : OS) (stack : list node) : list string :=
  omap (fun n => canonical os (fsPath n)) stack.

(** A callback that records what the walk yields: the logical path and the
    physical path of every entry, in order. *)
Definition recordVisit (logicalRel fullPath : string) (d : DirEntry)
           (st : list (string * string))
  : option error * list (string * string) :=
  (None, st ++ [(logicalRel, fullPath)]).

(** The measure of the stack of the walk: two for every node down to the
    first node whose directory cannot be read, one for that node (the walk
    ends when it is popped). *)
Fixpoint walkCost (os : OS) (stack : list node) : nat :=
  match stack with
  | [] => O
  | n :: below =>
      match ReadDir os (fsPath n) with
      | Ok _ => S (S (walkCost os below))
      | Err _ => 1
      end
  end.

(** ** [writeTree] *)

(** The first loop of [writeTree]: is [entry] kept in [visibleEntries]? *)
Definition treeVisible (cfg : Config) (rootLogical currentLogical : string)
           (hardFilters : list string) (entry : DirEntry) : bool :=
  let name := Name entry in
  let logicalPath := filepath.Join currentLogical name in
  let rel := match filepath.Rel rootLogical logicalPath with
             | Ok r => r
             | Err _ => ""
             end in
  let relSlash := filepath.ToSlash rel in
  if String.eqb name (OutputFile cfg) then false
  else if isJunk cfg name then false
  else if negb (String.eqb relSlash "")
          && fst (checkFilter relSlash hardFilters) then false
  else true.

(** [if !config.NoFold && len(files) > maxDisplayFiles { ... }] *)
Definition foldFiles (cfg : Config) (files : list DirEntry) : list DirEntry :=
  if negb (NoFold cfg) && (maxDisplayFiles <? length files)%nat then
    let hiddenCount :=
      (Z.of_nat (length files) - Z.of_nat keepHeadFiles
       - Z.of_nat keepTailFiles)%Z in
    let hiddenCount := if (hiddenCount <? 0)%Z then 0%Z else hiddenCount in
    take keepHeadFiles files
    ++ [SimpleDirEntry ("... (" +:+ pretty hiddenCount +:+ " files hidden) ...")
                       false]
    ++ drop (length files - keepTailFiles) files
  else files.

(** [finalEntries]: the visible directories in read order, then the visible
    files, folded. *)
Definition finalEntries (cfg : Config) (rootLogical currentLogical : string)
           (hardFilters : list string) (entries : list DirEntry)
  : list DirEntry :=
  let visibleEntries :=
    List.filter (treeVisible cfg rootLogical currentLogical hardFilters)
                entries in
  let dirs := List.filter IsDir visibleEntries in
  let files := List.filter (fun e => negb (IsDir e)) visibleEntries in
  dirs ++ foldFiles cfg files.

(** The name shown for an entry: a symlink is shown with its target. *)
Definition displayName (os : OS) (currentFS : string) (entry : DirEntry)
  : string :=
  if isSymlink entry then
    match Readlink os (filepath.Join currentFS (Name entry)) with
    | Ok target => Name entry +:+ " -> " +:+ target
    | Err _ => Name entry
    end
  else Name entry.

(** The line written for the entry of index [i] among [total] entries. *)
Definition treeLine (os : OS) (currentFS prefix : string) (total i : nat)
           (entry : DirEntry) : string :=
  let isLast := (i =? total - 1)%nat in
  let marker := if isLast then "└── " else "├── " in
  prefix +:+ marker +:+ displayName os currentFS entry +:+ nl.

Section Tree.
Variable os : OS.
(** The recursive call [writeTree(rootFS, rootLogical, childPathFS,
    childPathLogical, newPrefix, w, hardFilters, seen)] on the writer
    text and [seen]; its error is dropped by the caller. *)
Variable recur : string -> string -> string -> string * gset string
                 -> option (string * gset string).

(** [for i, entry := range finalEntries], from index [i]. *)
Fixpoint renderEntries (currentFS currentLogical prefix : string)
         (total i : nat) (entries : list DirEntry)
         (st : string * gset string) : option (string * gset string) :=
  match entries with
  | [] => Some st
  | entry :: rest =>
      let '(w, seen) := st in
      let isLast := (i =? total - 1)%nat in
      let w := w +:+ treeLine os currentFS prefix total i entry in
      let childPathLogical := filepath.Join currentLogical (Name entry) in
      let '(childIsDir, childPathFS) :=
        followSymlink os (filepath.Join currentFS (Name entry)) entry in
      if childIsDir then
        let newPrefix := if isLast then prefix +:+ "    "
                         else prefix +:+ "│   " in
        match EvalSymlinks os childPathFS with
        | Ok real =>
            if bool_decide (real ∈ seen)
            then renderEntries currentFS currentLogical prefix total (S i)
                               rest (w, seen)
            else
              match recur childPathFS childPathLogical newPrefix
                          (w, {[real]} ∪ seen) with
              | Some st1 =>
                  renderEntries currentFS currentLogical prefix total (S i)
                                rest st1
              | None => None
              end
        | Err _ =>
            match recur childPathFS childPathLogical newPrefix (w, seen) with
            | Some st1 =>
                renderEntries currentFS currentLogical prefix total (S i)
                              rest st1
            | None => None
            end
        end
      else renderEntries currentFS currentLogical prefix total (S i) rest
                         (w, seen)
  end.
End Tree.

(** [writeTree]; [fuel] bounds the depth of the recursion, [None] when it
    runs out.  The state is the text of the writer and the map [seen]. *)
Fixpoint writeTree (fuel : nat) (os : OS) (cfg : Config)
         (rootFS rootLogical currentFS currentLogical prefix : string)
         (hardFilters : list string) (st : string * gset string)
  : option (option error * (string * gset string)) :=
  match fuel with
  | O => None
  | S f =>
      match ReadDir os currentFS with
      | Err err => Some (Some err, st)
      | Ok entries =>
          let final :=
            finalEntries cfg rootLogical currentLogical hardFilters entries in
          match renderEntries os
                  (fun childFS childLogical newPrefix st' =>
                     match writeTree f os cfg rootFS rootLogical childFS
                                     childLogical newPrefix hardFilters st' with
                     | Some (_, st'') => Some st''
                     | None => None
                     end)
                  currentFS currentLogical prefix (length final) 0 final st
          with
          | Some st1 => Some (None, st1)
          | None => None
          end
      end
  end.

(** The recursive call inside [writeTree], as [renderEntries] takes it: the
    error of the call is dropped. *)
Definition writeTreeChild (fuel : nat) (os : OS) (cfg : Config)
           (rootFS rootLogical : string) (hardFilters : list string)
           (childFS childLogical newPrefix : string)
           (st : string * gset string) : option (string * gset string) :=
  match writeTree fuel os cfg rootFS rootLogical childFS childLogical
                  newPrefix hardFilters st with
  | Some (_, st') => Some st'
  | None => None
  end.

(** A recursive call that only adds text to the writer. *)
Definition appendsOnly
           (recur : string -> string -> string -> string * gset string
                    -> option (string * gset string)) : Prop :=
  forall childFS childLogical newPrefix st st',
    recur childFS childLogical newPrefix st = Some st' ->
    exists s, fst st' = fst st +:+ s.




(** ** [processDirs] *)

(** The format strings of the two notices of the soft filter, filled in. *)
Definition noticeSoftDir (rule display : string) : string :=
  "[SKIP] 忽略目录 (Soft Filter: " +:+ dquote +:+ rule +:+ dquote +:+ "): "
  +:+ display +:+ nl.
Definition noticeSoftFile (rule display : string) : string :=
  "[SKIP] 忽略内容 (Soft Filter: " +:+ dquote +:+ rule +:+ dquote +:+ "): "
  +:+ display +:+ nl.

(** The callback that [processDirs] passes to [walkFollowSymlinks]. *)
Definition contentVisit (os : OS) (cfg : Config) (absOut : string)
           (softFilters hardFilters : list string)
           (logicalRel fullPath : string) (d : DirEntry) (writer : Sink)
  : option error * Sink :=
  let skip := if IsDir d then Some SkipDir else None in
  let absPath := fullPath in
  if String.eqb absPath absOut then (skip, writer)
  else
    let name := Name d in
    if isJunk cfg name then (skip, writer)
    else
      let relSlash := filepath.ToSlash logicalRel in
      let relSlash := if String.eqb relSlash "." then "" else relSlash in
      if negb (String.eqb relSlash "")
         && fst (checkFilter relSlash hardFilters)
      then (skip, writer)
      else
        let '(matchedSoft, rule) := checkFilter relSlash softFilters in
        if matchedSoft then
          let display := if String.eqb relSlash ""
                         then filepath.ToSlash fullPath else relSlash in
          if IsDir d then
            (Some SkipDir, Printf writer (noticeSoftDir rule display))
          else
            (None, Printf writer (noticeSoftFile rule display))
        else if IsDir d then (None, writer)
        else if isAsset cfg name then (None, writer)
        else processFile os cfg fullPath writer.

(** The first loop of [processDirs]: one tree for every root, each with a
    fresh [seen]. *)
Fixpoint treePass (fuel : nat) (os : OS) (cfg : Config) (dirs : list string)
         (hardFilters : list string) (writer : Sink) : option Sink :=
  match dirs with
  | [] => Some writer
  | dir :: rest =>
      match Abs os dir with
      | Err err =>
          let w := WriteString writer (dir +:+ "/" +:+ nl) in
          let w := WriteString w ("Error generating tree: " +:+ errorString err
                                  +:+ nl) in
          treePass fuel os cfg rest hardFilters w
      | Ok absDir =>
          let w := WriteString writer (filepath.Base absDir +:+ "/" +:+ nl) in
          match writeTree fuel os cfg absDir absDir absDir absDir ""
                          hardFilters (doc w, ∅) with
          | None => None
          | Some (res, (text, _)) =>
              let w := setDoc w text in
              let w := match res with
                       | Some err =>
                           WriteString w ("Error generating tree for " +:+ dir
                                          +:+ ": " +:+ errorString err +:+ nl)
                       | None => w
                       end in
              treePass fuel os cfg rest hardFilters (WriteString w nl)
          end
      end
  end.

(** The second loop of [processDirs]: one walk for every root; the result
    carries [firstErr]. *)
Fixpoint contentPass (fuel : nat) (os : OS) (cfg : Config) (absOut : string)
         (dirs : list string) (softFilters hardFilters : list string)
         (firstErr : option error) (writer : Sink)
  : option (option error * Sink) :=
  match dirs with
  | [] => Some (firstErr, writer)
  | dir :: rest =>
      match Abs os dir with
      | Err err =>
          let w := Eprintf writer ("无法获取目录 " +:+ dir +:+ " 绝对路径: "
                                   +:+ errorString err +:+ nl) in
          contentPass fuel os cfg absOut rest softFilters hardFilters
                      (Some err) w
      | Ok absDir =>
          match walkFollowSymlinks os
                  (contentVisit os cfg absOut softFilters hardFilters)
                  fuel absDir writer with
          | None => None
          | Some (Some err, w) =>
              let w := Eprintf w ("处理目录 " +:+ dir +:+ " 时出错: "
                                  +:+ errorString err +:+ nl) in
              contentPass fuel os cfg absOut rest softFilters hardFilters
                          (Some err) w
          | Some (None, w) =>
              contentPass fuel os cfg absOut rest softFilters hardFilters
                          firstErr w
          end
      end
  end.

(** [processDirs]; [fuel] is the fuel of every tree and of every walk. *)
Definition processDirs (fuel : nat) (os : OS) (cfg : Config)
           (dirs : list string) (softFilters hardFilters : list string)
           (writer : Sink) (finalOutPath : string)
  : option (option error * Sink) :=
  match Abs os finalOutPath with
  | Err err => Some (Some err, writer)
  | Ok absOut =>
      let w := WriteString writer ("# Project Structure" +:+ nl +:+ nl) in
      let w := WriteString w ("```text" +:+ nl) in
      match treePass fuel os cfg dirs hardFilters w with
      | None => None
      | Some w =>
          let w := WriteString w ("```" +:+ nl +:+ nl) in
          let w := WriteString w ("---" +:+ nl +:+ nl) in
          let w := WriteString w ("# File Contents" +:+ nl +:+ nl) in
          contentPass fuel os cfg absOut dirs softFilters hardFilters None w
      end
  end.

(** [main] from the parsed command line on: the filters are normalized, the
    base name of the output path is stored in the configuration, and
    [processDirs] writes the document. *)
Definition main (fuel : nat) (os : OS) (cfg : Config)
           (parsedDirs parsedSoftFilters parsedHardFilters : list string)
           (finalOutPath : string) : option (option error * Sink) :=
  let dirs := parsedDirs in
  let softFilters := normalizeFilters parsedSoftFilters in
  let hardFilters := normalizeFilters parsedHardFilters in
  let dirs := if (length dirs =? 0)%nat then dirs ++ ["."] else dirs in
  let cfg := withOutputFile cfg finalOutPath in
  processDirs fuel os cfg dirs softFilters hardFilters emptySink finalOutPath.

(** ** Finite file systems, for the examples *)

Fixpoint lookupTable {A : Type} (table : list (string * A)) (key : string)
  : result A :=
  match table with
  | [] => Err (ErrMsg "no such file or directory")
  | (k, v) :: rest => if String.eqb k key then Ok v else lookupTable rest key
  end.

(** A file system given by five tables: directory listings, file
    information, canonical paths, link targets and file contents.  The
    working directory is the root directory, and the decoder is a table. *)
Definition tableOS (dirs : list (string * list DirEntry))
           (infos : list (string * FileInfo))
           (reals links files gbk : list (string * string)) : OS :=
  {| ReadDir := lookupTable dirs;
     Stat := lookupTable infos;
     EvalSymlinks := lookupTable reals;
     Readlink := lookupTable links;
     ReadFile := lookupTable files;
     Abs := fun p => Ok (if filepath.IsPathSeparator (filepath.byteAt 0 p)
                         then filepath.Clean p
                         else filepath.Join "/" p);
     GBKDecode := lookupTable gbk |}.

Definition dirEntry (name : string) : DirEntry :=
  {| Name := name; IsDir := true; TypeBits := Z.shiftl 1 31 |}.
Definition fileEntry (name : string) : DirEntry :=
  {| Name := name; IsDir := false; TypeBits := 0 |}.
Definition linkEntry (name : string) : DirEntry :=
  {| Name := name; IsDir := false; TypeBits := ModeSymlink |}.

Definition dirInfo : FileInfo := {| infoIsDir := true; infoSize := 4096 |}.
Definition fileInfo (size : Z) : FileInfo :=
  {| infoIsDir := false; infoSize := size |}.

(** [/r] holds the directory [a] and the file [f.txt]; [/r/a] holds the
    symlink [up] to [/r], its own parent. *)
Definition cycleOS : OS :=
  tableOS
    [("/r", [dirEntry "a"; fileEntry "f.txt"]);
     ("/r/a", [linkEntry "up"])]
    [("/r", dirInfo); ("/r/a", dirInfo); ("/r/f.txt", fileInfo 3)]
    [("/r", "/r"); ("/r/a", "/r/a"); ("/r/a/up", "/r");
     ("/r/f.txt", "/r/f.txt")]
    [("/r/a/up", "..")]
    [("/r/f.txt", "hi" +:+ nl)]
    [].

(** [/p] holds text files with different endings, two files with a zero
    byte, a file in GBK (the two bytes D6 D0, the character U+4E2D) and a
    file with the two bytes FF FE, which are neither UTF-8 nor GBK.  The
    decoder table holds what the decoder of the library returns for the two
    texts that it is asked to decode: it never reports an error, and writes
    U+FFFD for every byte that starts no GBK character. *)
Definition zeroByte : string := String (ascii_of_nat 0) EmptyString.
Definition gbkZhong : string :=
  String (ascii_of_nat 214) (String (ascii_of_nat 208) EmptyString).
Definition badBytes : string :=
  String (ascii_of_nat 255) (String (ascii_of_nat 254) EmptyString).
Definition replacementChar : string := utf8.EncodeRune utf8.RuneError.

Definition filesOS : OS :=
  tableOS
    [("/p", [fileEntry "bad.txt"; fileEntry "bin.dat"; fileEntry "bin.go";
             fileEntry "empty.txt"; fileEntry "gbk.txt"; fileEntry "none.txt";
             fileEntry "one.txt"; fileEntry "two.txt"])]
    [("/p", dirInfo); ("/p/bad.txt", fileInfo 2); ("/p/bin.dat", fileInfo 3);
     ("/p/bin.go", fileInfo 3); ("/p/empty.txt", fileInfo 0);
     ("/p/gbk.txt", fileInfo 2); ("/p/none.txt", fileInfo 1);
     ("/p/one.txt", fileInfo 2); ("/p/two.txt", fileInfo 3)]
    [("/p", "/p")]
    []
    [("/p/bad.txt", badBytes);
     ("/p/bin.dat", "a" +:+ zeroByte +:+ "b");
     ("/p/bin.go", "a" +:+ zeroByte +:+ "b");
     ("/p/empty.txt", "");
     ("/p/gbk.txt", gbkZhong);
     ("/p/none.txt", "a");
     ("/p/one.txt", "a" +:+ nl);
     ("/p/two.txt", "a" +:+ nl +:+ nl)]
    [(gbkZhong, "中"); (badBytes, replacementChar +:+ replacementChar)].

(** Two roots: [/w/a] holds the output document [out.md] and a text file,
    [/w/b] holds another file that is also called [out.md]. *)
Definition twinOS : OS :=
  tableOS
    [("/w/a", [fileEntry "a.txt"; fileEntry "out.md"]);
     ("/w/b", [fileEntry "out.md"])]
    [("/w/a", dirInfo); ("/w/b", dirInfo); ("/w/a/a.txt", fileInfo 2);
     ("/w/a/out.md", fileInfo 0); ("/w/b/out.md", fileInfo 6)]
    [("/w/a", "/w/a"); ("/w/b", "/w/b")]
    []
    [("/w/a/a.txt", "A" +:+ nl); ("/w/a/out.md", "");
     ("/w/b/out.md", "other" +:+ nl)]
    [].


Definition twoDigits (n : nat) : string :=
  if (n <? 10)%nat then "0" +:+ pretty n else pretty n.

(** [/b] holds the thirty files [f01] to [f30] and the directory [sub],
    which holds one file. *)
Definition thirtyFiles : list DirEntry :=
  map (fun n => fileEntry ("f" +:+ twoDigits n)) (seq 1 30).


(** [/s] holds the symlink [.cfg] to the directory [/etc/cfg], which holds
    one file, and a text file. *)
Definition hiddenLinkOS : OS :=
  tableOS
    [("/s", [linkEntry ".cfg"; fileEntry "a.txt"]);
     ("/etc/cfg", [fileEntry "secret.txt"])]
    [("/s", dirInfo); ("/etc/cfg", dirInfo); ("/s/a.txt", fileInfo 2);
     ("/etc/cfg/secret.txt", fileInfo 4)]
    [("/s", "/s"); ("/s/.cfg", "/etc/cfg"); ("/etc/cfg", "/etc/cfg")]
    [("/s/.cfg", "/etc/cfg")]
    [("/s/a.txt", "A" +:+ nl); ("/etc/cfg/secret.txt", "key" +:+ nl)]
    [].

(** ** Further notions for the statements of Part II *)

(** The directory of a rule that ends in [/*]: [parent] in the first branch
    of the loop of [checkFilter]. *)
Definition ruleParent (rule : string) : string :=
  strings.TrimSuffix (filepath.ToSlash (strings.TrimPrefix rule "!")) "/*".

(** A rule changes the verdict of [isFiltered] when its pattern, without
    the negation marker, is not empty and [path.Match] reports a match
    without an error. *)
Definition oldRuleHits (relPath rule : string) : bool :=
  let pat := strings.TrimPrefix rule "!" in
  negb (String.eqb pat "")
  && match path.Match pat (filepath.ToSlash relPath) with
     | (true, None) => true
     | _ => false
     end.

(** The body of the loop of [normalizeFilters] for one rule. *)
Definition normalizeRule (f : string) : string :=
  let f := strings.ReplaceAll f "\" "/" in
  if strings.HasSuffix f "/*" then strings.TrimSuffix f "/*" +:+ "/*"
  else strings.TrimSuffix f "/".

(** Does the byte occur in the text? *)
Fixpoint hasByte (c : ascii) (s : string) : bool :=
  match s with
  | EmptyString => false
  | String x r => Ascii.eqb x c || hasByte c r
  end.

(** A rule on which normalization and [checkFilter] agree: no backslash,
    no doubled slash at the end, and no slash behind a final [/*]. *)
Definition plainRule (f : string) : Prop :=
  hasByte "\" f = false
  /\ strings.HasSuffix f "//" = false
  /\ strings.HasSuffix f "/*/" = false.

(** The texts of a list, one after the other. *)
Fixpoint concatBlocks (blocks : list string) : string :=
  match blocks with
  | [] => EmptyString
  | b :: rest => b +:+ concatBlocks rest
  end.

(** The content block of a file that passes the gates of [processFile]:
    the bytes read from it reach the encoding step, and what stands between
    the fences is their conversion, which is valid UTF-8. *)
Definition fileBlock (os : OS) (cfg : Config) (block : string) : Prop :=
  exists path content utf8Content encoding,
    reachesEncoding os cfg path content
    /\ convertToUTF8 os content = (utf8Content, encoding, None)
    /\ utf8.Valid utf8Content = true
    /\ block = contentBlock path utf8Content.

(** The lines of a tree.  A line below a directory with the prefix [prefix]
    is the prefix, one connector for every level between the directory and
    the entry, a branch marker, the name shown for the entry, and a line
    feed. *)
Definition connector (c : string) : Prop := c = "│   " \/ c = "    ".
Definition branchMarker (m : string) : Prop := m = "├── " \/ m = "└── ".

Definition treeLineText (prefix : string)
           (l : list string * string * string) : string :=
  let '(connectors, marker, name) := l in
  prefix +:+ concatBlocks connectors +:+ marker +:+ name +:+ nl.

(** A name that the tree shows: the display name of an entry that the
    filters and the folding keep for some directory that can be read. *)
Definition shownName (os : OS) (cfg : Config) (rootLogical : string)
           (hardFilters : list string) (name : string) : Prop :=
  exists currentFS currentLogical entries entry,
    ReadDir os currentFS = Ok entries
    /\ In entry (finalEntries cfg rootLogical currentLogical hardFilters
                              entries)
    /\ name = displayName os currentFS entry.

(** A text that consists of such lines. *)
Definition treeText (os : OS) (cfg : Config) (rootLogical : string)
           (hardFilters : list string) (prefix s : string) : Prop :=
  exists ls : list (list string * string * string),
    Forall (fun l => Forall connector (fst (fst l))
                     /\ branchMarker (snd (fst l))
                     /\ shownName os cfg rootLogical hardFilters (snd l)) ls
    /\ s = concatBlocks (map (treeLineText prefix) ls).

(** [/m] holds a file above the size limit, a file at the limit, a symlink
    that cannot be resolved, a picture and the directory [src]. *)
Definition miscOS : OS :=
  tableOS
    [("/m", [fileEntry "big.txt"; linkEntry "broken"; fileEntry "limit.txt";
             fileEntry "logo.PNG"; dirEntry "src"]);
     ("/m/src", [fileEntry "main.go"])]
    [("/m", dirInfo); ("/m/src", dirInfo);
     ("/m/big.txt", fileInfo (1024 * 1024 + 1));
     ("/m/limit.txt", fileInfo (1024 * 1024));
     ("/m/logo.PNG", fileInfo 4); ("/m/src/main.go", fileInfo 13)]
    [("/m", "/m"); ("/m/src", "/m/src")]
    [("/m/broken", "gone")]
    [("/m/big.txt", "big" +:+ nl); ("/m/limit.txt", "limit" +:+ nl);
     ("/m/logo.PNG", "PNG" +:+ nl); ("/m/src/main.go", "package main" +:+ nl)]
    [].

(** The root [/ok] holds one file; no other directory can be read. *)
Definition brokenRootOS : OS :=
  tableOS
    [("/ok", [fileEntry "a.txt"])]
    [("/ok", dirInfo); ("/ok/a.txt", fileInfo 2)]
    [("/ok", "/ok")]
    []
    [("/ok/a.txt", "A" +:+ nl)]
    [].

(** The byte [c], [n] times. *)
Fixpoint repeatByte (c : ascii) (n : nat) : string :=
  match n with
  | O => EmptyString
  | S k => String c (repeatByte c k)
  end.

(** [/q] holds the directory [a], with one file, and the directory
    [locked], which cannot be read. *)
Definition lockedOS : OS :=
  tableOS
    [("/q", [dirEntry "a"; dirEntry "locked"]);
     ("/q/a", [fileEntry "x.txt"])]
    [("/q", dirInfo); ("/q/a", dirInfo); ("/q/locked", dirInfo);
     ("/q/a/x.txt", fileInfo 2)]
    [("/q", "/q"); ("/q/a", "/q/a"); ("/q/locked", "/q/locked")]
    []
    [("/q/a/x.txt", "X" +:+ nl)]
    [].

(** [brokenRootOS] with one more root, [/denied], whose reading fails with
    an error of its own. *)
Definition deniedOS : OS :=
  {| ReadDir := fun p => if String.eqb p "/denied"
                         then Err (ErrMsg "permission denied")
                         else ReadDir brokenRootOS p;
     Stat := Stat brokenRootOS;
     EvalSymlinks := EvalSymlinks brokenRootOS;
     Readlink := Readlink brokenRootOS;
     ReadFile := ReadFile brokenRootOS;
     Abs := Abs brokenRootOS;
     GBKDecode := GBKDecode brokenRootOS |}.

(** ** The command line *)

(** *** Package [strings]: [Fields] and [ContainsAny] *)
Module strings2.

(** [if start >= 0 { spans = append(spans, span{start, end}) }] *)
Definition closeField (start : option string) : list string :=
  match start with
  | Some field => [field]
  | None => []
  end.

(** [for end, rune := range s] of [strings.FieldsFunc]: [start] holds the
    bytes of the field that is open, if there is one.  One unit of [fuel]
    for every rune. *)
Fixpoint fieldsLoop (fuel : nat) (f : N -> bool) (s : string)
         (start : option string) : list string :=
  match fuel with
  | O => closeField start
  | S k =>
      if String.eqb s "" then closeField start
      else
        let '(rune, size) := utf8.DecodeRuneInString s in
        if f rune then
          closeField start ++ fieldsLoop k f (strings.drop size s) None
        else
          let field := match start with
                       | Some field => field
                       | None => EmptyString
                       end in
          fieldsLoop k f (strings.drop size s)
                     (Some (field +:+ strings.take size s))
  end.

Definition FieldsFunc (s : string) (f : N -> bool) : list string :=
  fieldsLoop (String.length s) f s None.

(** [strings.Fields]: its ASCII path and [FieldsFunc(s, unicode.IsSpace)]
    agree on ASCII text. *)
Definition Fields (s : string) : list string := FieldsFunc s unicode.IsSpace.

Fixpoint IndexByteString (chars : string) (c : ascii) : bool :=
  match chars with
  | EmptyString => false
  | String x r => Ascii.eqb x c || IndexByteString r c
  end.

(** [strings.ContainsAny] for a set [chars] of ASCII characters: a byte of
    [s] is one of them. *)
Fixpoint ContainsAny (s chars : string) : bool :=
  match s with
  | EmptyString => false
  | String c r => IndexByteString chars c || ContainsAny r chars
  end.

End strings2.

(** *** [multiValue] and [rawStringList] *)

(** [func (m *multiValue) Set(s string) error]: the list after the call. *)
Definition multiValue_Set (m : list string) (s : string) : list string :=
  if String.eqb s "" then m else m ++ strings2.Fields s.

(** [func (m *rawStringList) Set(s string) error] *)
Definition rawStringList_Set (m : list string) (s : string) : list string :=
  if String.eqb s "" then m else m ++ [s].

(** *** [parseCommandLine] *)

(** The variables of [parseCommandLine], and [config.NoFold], which it
    sets. *)
Module cli.
Record Parsed : Type := mkParsed {
  dirs : list string;
  softFilters : list string;
  hardFilters : list string;
  out : string;
  help : bool;
  install : bool;
  uninstall : bool;
  noFold : bool
}.

Definition start : Parsed :=
  {| dirs := []; softFilters := []; hardFilters := []; out := "";
     help := false; install := false; uninstall := false; noFold := false |}.

Definition withDirs (st : Parsed) (v : list string) : Parsed :=
  {| dirs := v; softFilters := softFilters st;
     hardFilters := hardFilters st; out := out st; help := help st;
     install := install st; uninstall := uninstall st;
     noFold := noFold st |}.
Definition withSoftFilters (st : Parsed) (v : list string) : Parsed :=
  {| dirs := dirs st; softFilters := v;
     hardFilters := hardFilters st; out := out st; help := help st;
     install := install st; uninstall := uninstall st;
     noFold := noFold st |}.
Definition withHardFilters (st : Parsed) (v : list string) : Parsed :=
  {| dirs := dirs st; softFilters := softFilters st;
     hardFilters := v; out := out st; help := help st;
     install := install st; uninstall := uninstall st;
     noFold := noFold st |}.
Definition withOut (st : Parsed) (v : string) : Parsed :=
  {| dirs := dirs st; softFilters := softFilters st;
     hardFilters := hardFilters st; out := v; help := help st;
     install := install st; uninstall := uninstall st;
     noFold := noFold st |}.
Definition withHelp (st : Parsed) : Parsed :=
  {| dirs := dirs st; softFilters := softFilters st;
     hardFilters := hardFilters st; out := out st; help := true;
     install := install st; uninstall := uninstall st;
     noFold := noFold st |}.
Definition withInstall (st : Parsed) : Parsed :=
  {| dirs := dirs st; softFilters := softFilters st;
     hardFilters := hardFilters st; out := out st; help := help st;
     install := true; uninstall := uninstall st;
     noFold := noFold st |}.
Definition withUninstall (st : Parsed) : Parsed :=
  {| dirs := dirs st; softFilters := softFilters st;
     hardFilters := hardFilters st; out := out st; help := help st;
     install := install st; uninstall := true;
     noFold := noFold st |}.
Definition withNoFold (st : Parsed) : Parsed :=
  {| dirs := dirs st; softFilters := softFilters st;
     hardFilters := hardFilters st; out := out st; help := help st;
     install := install st; uninstall := uninstall st;
     noFold := true |}.

(** [dirs.Set(s)], [softFilters.Set(s)], [hardFilters.Set(s)] *)
Definition setDir (st : Parsed) (s : string) : Parsed :=
  withDirs st (rawStringList_Set (dirs st) s).
Definition setSoft (st : Parsed) (s : string) : Parsed :=
  withSoftFilters st (multiValue_Set (softFilters st) s).
Definition setHard (st : Parsed) (s : string) : Parsed :=
  withHardFilters st (multiValue_Set (hardFilters st) s).
End cli.

(** The loop that the options [--dir], [--filter] and [--Filter] share:
    [for i+1 < len(args) && !strings.HasPrefix(args[i+1], "-") { i++;
    m.Set(args[i]); consumed++ }], then [if consumed == 0 { return ... }].
    [l] is [args[i+1:]]; [next] is the rest of the outer loop, from the
    first argument that is not consumed. *)
Fixpoint consumeValues {R : Type} (set : cli.Parsed -> string -> cli.Parsed)
         (next : list string -> cli.Parsed -> R) (fail : cli.Parsed -> R)
         (l : list string) (consumed : nat) (st : cli.Parsed) : R :=
  match l with
  | arg :: l' =>
      if negb (strings.HasPrefix arg "-")
      then consumeValues set next fail l' (S consumed) (set st arg)
      else if (consumed =? 0)%nat then fail st else next l st
  | [] => if (consumed =? 0)%nat then fail st else next l st
  end.

Section ParseCommandLine.
(** [loadPatternsFromFile] reads a file: its result for every path is
    given. *)
Variable loadPatternsFromFile : string -> result (list string).

(** [for i := 0; i < len(args); i++] from [args[i:]] on.  The result is
    the variables, [leftover], and the error that ends the function
    early. *)
Fixpoint parseLoop (args : list string) (st : cli.Parsed)
         (leftover : list string)
  : cli.Parsed * list string * option error :=
  match args with
  | [] => (st, leftover, None)
  | arg :: rest =>
      if String.eqb arg "--" && (0 <? length rest)%nat then
        (st, leftover ++ rest, None)
      else if String.eqb arg "--install" then
        parseLoop rest (cli.withInstall st) leftover
      else if String.eqb arg "--uninstall" then
        parseLoop rest (cli.withUninstall st) leftover
      else if String.eqb arg "--no-fold" then
        parseLoop rest (cli.withNoFold st) leftover
      else if String.eqb arg "--config" || String.eqb arg "-c"
              || String.eqb arg "-fc" then
        match rest with
        | [] => (st, leftover, Some (ErrMsg "--config 需要一个文件路径"))
        | file :: rest' =>
            match loadPatternsFromFile file with
            | Err err => (st, leftover, Some err)
            | Ok patterns =>
                parseLoop rest'
                  (cli.withSoftFilters st (cli.softFilters st ++ patterns))
                  leftover
            end
        end
      else if strings.HasPrefix arg "--config=" then
        match loadPatternsFromFile (strings.TrimPrefix arg "--config=") with
        | Err err => (st, leftover, Some err)
        | Ok patterns =>
            parseLoop rest
              (cli.withSoftFilters st (cli.softFilters st ++ patterns))
              leftover
        end
      else if strings.HasPrefix arg "-fc=" then
        match loadPatternsFromFile (strings.TrimPrefix arg "-fc=") with
        | Err err => (st, leftover, Some err)
        | Ok patterns =>
            parseLoop rest
              (cli.withSoftFilters st (cli.softFilters st ++ patterns))
              leftover
        end
      else if String.eqb arg "-Fc" then
        match rest with
        | [] => (st, leftover, Some (ErrMsg "-Fc 需要一个文件路径"))
        | file :: rest' =>
            match loadPatternsFromFile file with
            | Err err => (st, leftover, Some err)
            | Ok patterns =>
                parseLoop rest'
                  (cli.withHardFilters st (cli.hardFilters st ++ patterns))
                  leftover
            end
        end
      else if strings.HasPrefix arg "-Fc=" then
        match loadPatternsFromFile (strings.TrimPrefix arg "-Fc=") with
        | Err err => (st, leftover, Some err)
        | Ok patterns =>
            parseLoop rest
              (cli.withHardFilters st (cli.hardFilters st ++ patterns))
              leftover
        end
      else if String.eqb arg "--dir" || String.eqb arg "-d" then
        consumeValues cli.setDir
          (fun l st' => parseLoop l st' leftover)
          (fun st' => (st', leftover, Some (ErrMsg "--dir 需要一个路径")))
          rest 0 st
      else if strings.HasPrefix arg "--dir=" then
        parseLoop rest (cli.setDir st (strings.TrimPrefix arg "--dir="))
                  leftover
      else if String.eqb arg "--filter" || String.eqb arg "-filter"
              || String.eqb arg "-f" then
        consumeValues cli.setSoft
          (fun l st' => parseLoop l st' leftover)
          (fun st' => (st', leftover, Some (ErrMsg "--filter 需要一个表达式")))
          rest 0 st
      else if strings.HasPrefix arg "--filter="
              || strings.HasPrefix arg "-filter=" then
        parseLoop rest
          (cli.setSoft st (strings.TrimPrefix (strings.TrimPrefix arg "-")
                                              "filter="))
          leftover
      else if String.eqb arg "--Filter" || String.eqb arg "-Filter"
              || String.eqb arg "-F" then
        consumeValues cli.setHard
          (fun l st' => parseLoop l st' leftover)
          (fun st' => (st', leftover, Some (ErrMsg "--Filter 需要一个表达式")))
          rest 0 st
      else if strings.HasPrefix arg "--Filter="
              || strings.HasPrefix arg "-Filter=" then
        parseLoop rest
          (cli.setHard st (strings.TrimPrefix (strings.TrimPrefix arg "-")
                                              "Filter="))
          leftover
      else if String.eqb arg "--out" || String.eqb arg "-o" then
        match rest with
        | [] => (st, leftover, Some (ErrMsg "--out 需要一个路径"))
        | value :: rest' => parseLoop rest' (cli.withOut st value) leftover
        end
      else if strings.HasPrefix arg "--out=" then
        parseLoop rest (cli.withOut st (strings.TrimPrefix arg "--out="))
                  leftover
      else if String.eqb arg "--help" || String.eqb arg "-h" then
        parseLoop rest (cli.withHelp st) leftover
      else parseLoop rest st (leftover ++ [arg])
  end.

(** [for _, arg := range leftover] *)
Fixpoint classifyLeftover (leftover : list string) (st : cli.Parsed)
  : cli.Parsed :=
  match leftover with
  | [] => st
  | arg :: rest =>
      if strings.HasPrefix arg "!" || strings2.ContainsAny arg "*?[]"
      then classifyLeftover rest (cli.setSoft st arg)
      else classifyLeftover rest (cli.setDir st arg)
  end.

(** [parseCommandLine] on [os.Args[1:]]: the values it returns, the value
    it gives to [config.NoFold], and its error. *)
Definition parseCommandLine (args : list string)
  : cli.Parsed * option error :=
  match parseLoop args cli.start [] with
  | (st, _, Some err) => (st, Some err)
  | (st, leftover, None) =>
      if cli.install st && cli.uninstall st then
        (st, Some (ErrMsg "--install 与 --uninstall 不能同时使用"))
      else (classifyLeftover leftover st, None)
  end.
End ParseCommandLine.

(** An argument that goes to [leftover] as a pattern, for the statements
    about positional arguments. *)
Definition patternArg (arg : string) : bool :=
  strings.HasPrefix arg "!" || strings2.ContainsAny arg "*?[]".

(** The texts of a list of lists, one list after the other. *)
Fixpoint concatLists (ls : list (list string)) : list string :=
  match ls with
  | [] => []
  | l :: rest => l ++ concatLists rest
  end.

(** No configuration file can be read. *)
Definition noConfigFile (filePath : string) : result (list string) :=
  Err (ErrMsg ("无法读取配置文件 " +:+ filePath)).

(** ** Further notions for the statements about the walk *)

(** The logical path and the physical path that [walkFollowSymlinks] gives
    to the callback for an entry of the node [n]. *)
Definition entryLogical (n : node) (entry : DirEntry) : string :=
  if negb (String.eqb (rel n) "") then filepath.Join (rel n) (Name entry)
  else Name entry.
Definition entryPhysical (os : OS) (n : node) (entry : DirEntry) : string :=
  snd (followSymlink os (filepath.Join (fsPath n) (Name entry)) entry).

(** [/t] holds the directories [a] and [b], with one file each, and the
    file [z.txt]. *)
Definition pairOS : OS :=
  tableOS
    [("/t", [dirEntry "a"; dirEntry "b"; fileEntry "z.txt"]);
     ("/t/a", [fileEntry "x.txt"]); ("/t/b", [fileEntry "y.txt"])]
    [("/t", dirInfo); ("/t/a", dirInfo); ("/t/b", dirInfo);
     ("/t/a/x.txt", fileInfo 2); ("/t/b/y.txt", fileInfo 2);
     ("/t/z.txt", fileInfo 2)]
    [("/t", "/t"); ("/t/a", "/t/a"); ("/t/b", "/t/b")]
    []
    [("/t/a/x.txt", "X" +:+ nl); ("/t/b/y.txt", "Y" +:+ nl);
     ("/t/z.txt", "Z" +:+ nl)]
    [].

(** The output [d] written behind the output [w]. *)
Definition sinkApp (w d : Sink) : Sink :=
  {| doc := doc w +:+ doc d;
     stdout := stdout w ++ stdout d;
     stderr := stderr w ++ stderr d |}.

(** ** Further notions for the statements about the gates of [processFile] *)

(** The Kelvin sign U+212A, whose lower-case form is the letter [k]. *)
Definition kelvinSign : string := utf8.EncodeRune 0x212A.

(** [/c] holds files whose extensions are written with capital letters:
    [X.GO], [x.İni] (the capital is U+0130) and [y.dat], each with a zero
    byte among its bytes, the text file [n.Ä], and a file whose name is
    [yarn.loc] followed by the Kelvin sign. *)
Definition caseOS : OS :=
  tableOS
    [("/c", [fileEntry "X.GO"; fileEntry "n.Ä"; fileEntry "x.İni";
             fileEntry "y.dat"; fileEntry ("yarn.loc" +:+ kelvinSign)])]
    [("/c", dirInfo); ("/c/X.GO", fileInfo 3); ("/c/n.Ä", fileInfo 1);
     ("/c/x.İni", fileInfo 3); ("/c/y.dat", fileInfo 3);
     ("/c/yarn.loc" +:+ kelvinSign, fileInfo 2)]
    [("/c", "/c")]
    []
    [("/c/X.GO", "a" +:+ zeroByte +:+ "b");
     ("/c/n.Ä", "n");
     ("/c/x.İni", "a" +:+ zeroByte +:+ "b");
     ("/c/y.dat", "a" +:+ zeroByte +:+ "b");
     ("/c/yarn.loc" +:+ kelvinSign, "v1")]
    [].

(** ** Further notions for the statements about folding *)







(** ** Further notions for the statements about the roots *)

(** The result of the walk of the root [dir] in the second loop of
    [processDirs]: the error that the loop stores in [firstErr], if any;
    [None] when the fuel does not suffice for the walk. *)
Definition rootError (fuel : nat) (os : OS) (cfg : Config) (absOut : string)
           (softFilters hardFilters : list string) (dir : string)
  : option (option error) :=
  match Abs os dir with
  | Err err => Some (Some err)
  | Ok absDir =>
      match walkFollowSymlinks os
              (contentVisit os cfg absOut softFilters hardFilters)
              fuel absDir emptySink with
      | Some (res, _) => Some res
      | None => None
      end
  end.

(* ===================================================================== *)
(** * Part II: lemmas and theorems *)
(* ===================================================================== *)

#[local] Arguments String.append !s1 s2 : simpl nomatch.
#[local] Set Warnings "-clear-no-such-hyp".

(** ** Strings *)

Lemma app_empty_r (s : string) : s +:+ "" = s.
Proof. induction s as [|c s IH]; simpl; [reflexivity | now rewrite IH]. Qed.

Lemma app_assoc_s (a b c : string) : (a +:+ b) +:+ c = a +:+ (b +:+ c).
Proof. induction a as [|x a IH]; simpl; [reflexivity | now rewrite IH]. Qed.

Lemma length_app_s (a b : string) :
  String.length (a +:+ b) = String.length a + String.length b.
Proof. induction a as [|x a IH]; simpl; [reflexivity | now rewrite IH]. Qed.

Lemma take_length_app (a b : string) : strings.take (String.length a) (a +:+ b) = a.
Proof. induction a as [|x a IH]; simpl; [reflexivity | now rewrite IH]. Qed.

Lemma drop_length_app (a b : string) : strings.drop (String.length a) (a +:+ b) = b.
Proof. induction a as [|x a IH]; simpl; [reflexivity | exact IH]. Qed.

Lemma take_drop_s (n : nat) (s : string) : strings.take n s +:+ strings.drop n s = s.
Proof.
  revert s; induction n as [|n IH]; intros [|c s]; simpl; try reflexivity.
  now rewrite IH.
Qed.

Lemma length_take_s (n : nat) (s : string) :
  n <= String.length s -> String.length (strings.take n s) = n.
Proof.
  revert s; induction n as [|n IH]; intros [|c s]; simpl; intros H; try lia.
  rewrite IH; lia.
Qed.

Lemma app_inv_head_s (a b c : string) : a +:+ b = a +:+ c -> b = c.
Proof. induction a as [|x a IH]; simpl; [auto | intros H; injection H; auto]. Qed.

(** [strings.HasPrefix s p] holds exactly when [s] is [p] followed by some
    text. *)
Lemma HasPrefix_spec (s p : string) :
  strings.HasPrefix s p = true <-> exists t, s = p +:+ t.
Proof.
  unfold strings.HasPrefix. rewrite andb_true_iff, Nat.leb_le, String.eqb_eq.
  split.
  - intros [_ H]. exists (strings.drop (String.length p) s).
    remember (String.length p) as n eqn:Hn.
    rewrite <- H. apply eq_sym, take_drop_s.
  - intros [t ->]. rewrite length_app_s, take_length_app. split; [lia | reflexivity].
Qed.

Lemma HasPrefix_app (p t : string) : strings.HasPrefix (p +:+ t) p = true.
Proof. apply HasPrefix_spec. now exists t. Qed.

Lemma HasPrefix_false (s p : string) :
  strings.HasPrefix s p = false <-> ~ exists t, s = p +:+ t.
Proof.
  rewrite <- HasPrefix_spec. destruct (strings.HasPrefix s p); split; intros; congruence.
Qed.

(** [strings.HasSuffix s x] holds exactly when [s] is some text followed by
    [x]. *)
Lemma HasSuffix_spec (s x : string) :
  strings.HasSuffix s x = true <-> exists t, s = t +:+ x.
Proof.
  unfold strings.HasSuffix. rewrite andb_true_iff, Nat.leb_le, String.eqb_eq.
  split.
  - intros [_ H]. exists (strings.take (String.length s - String.length x) s).
    remember (String.length s - String.length x) as n eqn:Hn.
    rewrite <- H. apply eq_sym, take_drop_s.
  - intros [t ->]. rewrite length_app_s.
    replace (String.length t + String.length x - String.length x)
      with (String.length t) by lia.
    rewrite drop_length_app. split; [lia | reflexivity].
Qed.

Lemma TrimPrefix_app (p t : string) : strings.TrimPrefix (p +:+ t) p = t.
Proof. unfold strings.TrimPrefix. now rewrite HasPrefix_app, drop_length_app. Qed.

Lemma TrimSuffix_app (t x : string) : strings.TrimSuffix (t +:+ x) x = t.
Proof.
  unfold strings.TrimSuffix.
  assert (H : strings.HasSuffix (t +:+ x) x = true) by (apply HasSuffix_spec; now exists t).
  rewrite H, length_app_s.
  replace (String.length t + String.length x - String.length x)
    with (String.length t) by lia.
  apply take_length_app.
Qed.

Lemma ToSlash_id (p : string) : filepath.ToSlash p = p.
Proof. reflexivity. Qed.

(** ** The library models on known cases *)

(** Cases of the test table of [path.Match]. *)
Example Match_cases :
  path.Match "abc" "abc" = (true, None)
  /\ path.Match "*" "abc" = (true, None)
  /\ path.Match "*c" "abc" = (true, None)
  /\ path.Match "a*" "a" = (true, None)
  /\ path.Match "a*" "ab/c" = (false, None)
  /\ path.Match "a*/b" "abc/b" = (true, None)
  /\ path.Match "a*/b" "a/c/b" = (false, None)
  /\ path.Match "a*b*c*d*e*/f" "axbxcxdxe/f" = (true, None)
  /\ path.Match "a*b*c*d*e*/f" "axbxcxdxexxx/fff" = (false, None)
  /\ path.Match "a*b?c*x" "abxbbxdbxebxczzx" = (true, None)
  /\ path.Match "a*b?c*x" "abxbbxdbxebxczzy" = (false, None)
  /\ path.Match "ab[c]" "abc" = (true, None)
  /\ path.Match "ab[b-d]" "abc" = (true, None)
  /\ path.Match "ab[e-g]" "abc" = (false, None)
  /\ path.Match "ab[^c]" "abc" = (false, None)
  /\ path.Match "ab[^b-d]" "abc" = (false, None)
  /\ path.Match "ab[^e-g]" "abc" = (true, None)
  /\ path.Match "a\*b" "a*b" = (true, None)
  /\ path.Match "a\*b" "ab" = (false, None)
  /\ path.Match "a?b" "a☺b" = (true, None)
  /\ path.Match "a[^a]b" "a☺b" = (true, None)
  /\ path.Match "a???b" "a☺b" = (false, None)
  /\ path.Match "a[^a][^a][^a]b" "a☺b" = (false, None)
  /\ path.Match "[a-ζ]*" "α" = (true, None)
  /\ path.Match "*[a-ζ]" "A" = (false, None)
  /\ path.Match "a?b" "a/b" = (false, None)
  /\ path.Match "a*b" "a/b" = (false, None)
  /\ path.Match "[\]a]" "]" = (true, None)
  /\ path.Match "[\-]" "-" = (true, None)
  /\ path.Match "[x\-]" "x" = (true, None)
  /\ path.Match "[x\-]" "-" = (true, None)
  /\ path.Match "[x\-]" "z" = (false, None)
  /\ path.Match "[\-x]" "x" = (true, None)
  /\ path.Match "[\-x]" "-" = (true, None)
  /\ path.Match "[\-x]" "a" = (false, None)
  /\ path.Match "[]a]" "]" = (false, Some ErrBadPattern)
  /\ path.Match "[-]" "-" = (false, Some ErrBadPattern)
  /\ path.Match "[x-]" "x" = (false, Some ErrBadPattern)
  /\ path.Match "[x-]" "-" = (false, Some ErrBadPattern)
  /\ path.Match "[x-]" "z" = (false, Some ErrBadPattern)
  /\ path.Match "[-x]" "x" = (false, Some ErrBadPattern)
  /\ path.Match "[-x]" "-" = (false, Some ErrBadPattern)
  /\ path.Match "[-x]" "a" = (false, Some ErrBadPattern)
  /\ path.Match "\" "a" = (false, Some ErrBadPattern)
  /\ path.Match "[a-b-c]" "a" = (false, Some ErrBadPattern)
  /\ path.Match "[" "a" = (false, Some ErrBadPattern)
  /\ path.Match "[^" "a" = (false, Some ErrBadPattern)
  /\ path.Match "[^bc" "a" = (false, Some ErrBadPattern)
  /\ path.Match "a[" "a" = (false, Some ErrBadPattern)
  /\ path.Match "a[" "ab" = (false, Some ErrBadPattern)
  /\ path.Match "a[" "x" = (false, Some ErrBadPattern)
  /\ path.Match "a/b[" "x" = (false, Some ErrBadPattern)
  /\ path.Match "*x" "xxx" = (true, None).
Proof. repeat split. Qed.

(** Cases of the documentation of [filepath.Base], [filepath.Ext],
    [filepath.Clean], [filepath.Join] and [filepath.Rel]. *)
Example filepath_cases :
  filepath.Base "/foo/bar/baz.js" = "baz.js"
  /\ filepath.Base "/foo/bar/baz/" = "baz"
  /\ filepath.Base "dev.txt" = "dev.txt"
  /\ filepath.Base "" = "."
  /\ filepath.Base "/" = "/"
  /\ filepath.Ext "index.html" = ".html"
  /\ filepath.Ext "main.test.js" = ".js"
  /\ filepath.Ext "index" = ""
  /\ filepath.Ext "a.b/c" = ""
  /\ filepath.Clean "a//c" = "a/c"
  /\ filepath.Clean "a/c/." = "a/c"
  /\ filepath.Clean "a/c/b/.." = "a/c"
  /\ filepath.Clean "/../a/c" = "/a/c"
  /\ filepath.Clean "/../a/b/../././/c" = "/a/c"
  /\ filepath.Clean "" = "."
  /\ filepath.Clean "../../x/.." = "../.."
  /\ filepath.Join "a" "b/c" = "a/b/c"
  /\ filepath.Join "a/b" "../../../xyz" = "../xyz"
  /\ filepath.Join "" "a" = "a"
  /\ filepath.Join "/" "a" = "/a"
  /\ filepath.Rel "/a" "/a/b/c" = Ok "b/c"
  /\ filepath.Rel "/a" "/b/c" = Ok "../b/c"
  /\ filepath.Rel "/a" "/a" = Ok "."
  /\ filepath.Rel "/" "/a" = Ok "a".
Proof. repeat split. Qed.

(** [utf8.Valid] and [utf8.DecodeRuneInString] on well-formed text, on a
    lone continuation byte, on an overlong form and on a surrogate. *)
Example utf8_cases :
  utf8.Valid "中文 abc" = true
  /\ utf8.DecodeRuneInString "中" = (0x4E2D%N, 3)
  /\ utf8.Valid (String (ascii_of_nat 128) "") = false
  /\ utf8.Valid (String (ascii_of_nat 192) (String (ascii_of_nat 128) ""))
     = false
  /\ utf8.Valid (String (ascii_of_nat 237)
                   (String (ascii_of_nat 160) (String (ascii_of_nat 128) "")))
     = false
  /\ utf8.DecodeRuneInString (String (ascii_of_nat 255) "a")
     = (utf8.RuneError, 1).
Proof. repeat split. Qed.

(** Cases of the test table of [strings.ToLower], and runes whose lower-case
    form is an ASCII letter, a letter with a diaeresis, and a byte that
    starts no encoding. *)
Example ToLower_cases :
  strings.ToLower "" = ""
  /\ strings.ToLower "abc" = "abc"
  /\ strings.ToLower "AbC123" = "abc123"
  /\ strings.ToLower "azAZ09_" = "azaz09_"
  /\ strings.ToLower "LONGⱯSTRINGⱯWITHⱯNONASCIIⱯCHARS"
     = "longɐstringɐwithɐnonasciiɐchars"
  /\ strings.ToLower "ⱭⱭⱭⱭⱭ" = "ɑɑɑɑɑ"
  /\ strings.ToLower "ΑΒΓ.Σ" = "αβγ.σ"
  /\ strings.ToLower "中文.TXT" = "中文.txt"
  /\ strings.ToLower ("yarn.loc" +:+ kelvinSign) = "yarn.lock"
  /\ strings.ToLower ".İni" = ".ini"
  /\ strings.ToLower "a.Ä" = "a.ä"
  /\ strings.ToLower ("A" +:+ String (ascii_of_nat 255) "B")
     = "a" +:+ replacementChar +:+ "b"
  /\ unicode.ToLower 0x212A = 0x6B%N
  /\ unicode.ToLower 0x0130 = 0x69%N
  /\ unicode.ToLower 0x10400 = 0x10428%N
  /\ utf8.EncodeRune 0x4E2D = "中"
  /\ utf8.EncodeRune 0xD800 = replacementChar
  /\ utf8.EncodeRune 0x110000 = replacementChar
  /\ utf8.EncodeRune 0x10428 = "𐐨".
Proof. vm_compute. repeat split. Qed.

(** The fuel of [strings.Map] is enough: every turn of the loop takes at
    least one byte. *)
Lemma DecodeRuneInString_width (s : string) :
  s <> "" -> 1 <= snd (utf8.DecodeRuneInString s).
Proof.
  destruct s as [|c0 r0]; [congruence|]. intros _.
  unfold utf8.DecodeRuneInString.
  repeat match goal with
         | |- context [if ?b then _ else _] => destruct b
         | |- context [let '(_, _) := ?p in _] => destruct p
         | |- context [match ?r with EmptyString => _ | String _ _ => _ end] =>
             destruct r
         end; cbn [snd]; lia.
Qed.

Lemma length_drop_s (n : nat) (s : string) :
  String.length (strings.drop n s) = String.length s - n.
Proof.
  revert s. induction n as [|n IH]; intros [|c s]; simpl; try reflexivity.
  apply IH.
Qed.

Lemma mapLoop_fuel (mapping : N -> N) (n : nat) :
  forall fuel1 fuel2 s,
    String.length s <= n -> n <= fuel1 -> n <= fuel2 ->
    strings.mapLoop fuel1 mapping s = strings.mapLoop fuel2 mapping s.
Proof.
  induction n as [|n IH]; intros fuel1 fuel2 s Hs H1 H2.
  - destruct s; [|simpl in Hs; lia]. now destruct fuel1, fuel2.
  - destruct s as [|c r]; [now destruct fuel1, fuel2|].
    destruct fuel1 as [|k1]; [lia|]. destruct fuel2 as [|k2]; [lia|].
    cbn [strings.mapLoop]. cbn [String.eqb].
    pose proof (DecodeRuneInString_width (String c r) ltac:(discriminate))
      as Hw.
    destruct (utf8.DecodeRuneInString (String c r)) as [rune width].
    cbn [snd] in Hw. f_equal. apply IH; [|lia|lia].
    rewrite length_drop_s. simpl in Hs |- *. lia.
Qed.

Lemma Map_fuel (mapping : N -> N) (s : string) (fuel : nat) :
  String.length s <= fuel ->
  strings.mapLoop fuel mapping s = strings.Map mapping s.
Proof.
  intros H. unfold strings.Map.
  apply (mapLoop_fuel mapping (String.length s)); lia.
Qed.

(** ** The filter engine *)

Lemma checkFilterLoop_skip (full : string) (pre rest : list string) :
  Forall (fun q => ruleHits full q = false) pre ->
  checkFilterLoop full (pre ++ rest) = checkFilterLoop full rest.
Proof.
  induction 1 as [|q pre Hq _ IH]; simpl; [reflexivity|].
  unfold ruleHits in Hq. rewrite ToSlash_id in Hq.
  destruct (String.eqb q "") eqn:Eq; simpl in Hq; [exact IH|].
  now rewrite Hq.
Qed.

Lemma checkFilterLoop_hit (full r : string) (post : list string) :
  ruleHits full r = true ->
  checkFilterLoop full (r :: post) = (negb (strings.HasPrefix r "!"), r).
Proof.
  unfold ruleHits. rewrite ToSlash_id, andb_true_iff, negb_true_iff.
  intros [Hne Hm]. simpl. rewrite Hne, Hm.
  now destruct (strings.HasPrefix r "!").
Qed.

(** C1.  For a non-empty path the rules are tried in declaration order and
    the first rule that matches decides: a normal rule gives [true], a rule
    with the negation marker gives [false], and that rule is reported; the
    rules after it have no influence.  When no rule matches the result is
    no match. *)
Theorem checkFilter_first_match_wins (p : string) (rules : list string) :
  p <> "" ->
  (forall pre r post,
      rules = pre ++ r :: post ->
      Forall (fun q => ruleHits p q = false) pre ->
      ruleHits p r = true ->
      checkFilter p rules = (negb (strings.HasPrefix r "!"), r)
      /\ forall post', checkFilter p (pre ++ r :: post') = checkFilter p rules)
  /\ (Forall (fun q => ruleHits p q = false) rules ->
      checkFilter p rules = (false, "")).
Proof.
  intros Hp. apply String.eqb_neq in Hp.
  assert (Hhit : forall pre r post,
             Forall (fun q => ruleHits p q = false) pre ->
             ruleHits p r = true ->
             checkFilter p (pre ++ r :: post)
             = (negb (strings.HasPrefix r "!"), r)).
  { intros pre r post Hpre Hr. unfold checkFilter. rewrite Hp, ToSlash_id.
    rewrite checkFilterLoop_skip by exact Hpre.
    now apply checkFilterLoop_hit. }
  split.
  - intros pre r post -> Hpre Hr. split.
    + now apply Hhit.
    + intros post'. now rewrite !Hhit.
  - intros Hall. unfold checkFilter. rewrite Hp, ToSlash_id.
    rewrite <- (app_nil_r rules). now rewrite checkFilterLoop_skip.
Qed.

Lemma checkFilter_first_match_wins_witness :
  checkFilter "src/main.go" ["docs/"; ""; "!*.go"; "src"] = (false, "!*.go")
  /\ checkFilter "src/main.go" ["docs/"; ""; "src"; "!*.go"] = (true, "src")
  /\ checkFilter "src/main.go" ["docs/"; "*.md"] = (false, "").
Proof.
  assert (Hp : "src/main.go" <> "") by discriminate.
  split; [|split].
  - destruct (checkFilter_first_match_wins "src/main.go"
                ["docs/"; ""; "!*.go"; "src"] Hp) as [H _].
    apply (H ["docs/"; ""] "!*.go" ["src"]); [reflexivity | | reflexivity].
    repeat constructor.
  - destruct (checkFilter_first_match_wins "src/main.go"
                ["docs/"; ""; "src"; "!*.go"] Hp) as [H _].
    apply (H ["docs/"; ""] "src" ["!*.go"]); [reflexivity | | reflexivity].
    repeat constructor.
  - destruct (checkFilter_first_match_wins "src/main.go"
                ["docs/"; "*.md"] Hp) as [_ H].
    apply H. repeat constructor.
Defined.

(** The filter of the first iteration decided by the last matching rule;
    [checkFilter] decides by the first one. *)
Example isFiltered_last_match_checkFilter_first_match :
  isFiltered "a.txt" ["*.txt"; "!a.txt"] = false
  /\ checkFilter "a.txt" ["*.txt"; "!a.txt"] = (true, "*.txt").
Proof. split; reflexivity. Qed.

(** ** [path.Match] on patterns without special bytes *)

Lemma HasPrefix_cons (x c : ascii) (s p : string) :
  strings.HasPrefix (String x s) (String c p)
  = Ascii.eqb x c && strings.HasPrefix s p.
Proof.
  unfold strings.HasPrefix. simpl.
  destruct (Ascii.eqb x c), (String.length p <=? String.length s)%nat; reflexivity.
Qed.

Lemma skipStars_literal (s : string) :
  path.literal s = true -> path.skipStars s = (false, s).
Proof.
  destruct s as [|c s]; simpl; [reflexivity|].
  unfold path.metaByte. destruct (Ascii.eqb c "*"); simpl; [discriminate | reflexivity].
Qed.

Lemma scanBody_literal (s : string) (inrange : bool) :
  path.literal s = true -> path.scanBody inrange s = (s, "").
Proof.
  revert inrange; induction s as [|c s IH]; intros inrange; simpl; [reflexivity|].
  unfold path.metaByte. rewrite andb_true_iff, negb_true_iff, !orb_false_iff.
  intros [[[[Hs Hq] Hb] Hbs] Hl].
  rewrite Hbs, Hb, Hs. simpl.
  destruct (Ascii.eqb c "]"); now rewrite IH.
Qed.

Lemma scanChunk_literal (s : string) :
  path.literal s = true -> path.scanChunk s = (false, s, "").
Proof.
  intros H. unfold path.scanChunk.
  now rewrite (skipStars_literal s H), (scanBody_literal s false H).
Qed.

Lemma matchChunkLoop_literal (lit : string) :
  path.literal lit = true ->
  forall (fuel : nat) (s : string),
    String.length lit < fuel ->
    path.matchChunkLoop fuel lit s true = ("", false, None)
    /\ path.matchChunkLoop fuel lit s false
       = if strings.HasPrefix s lit
         then (strings.drop (String.length lit) s, true, None)
         else ("", false, None).
Proof.
  induction lit as [|c lit IH]; intros Hl fuel s Hf.
  - destruct fuel as [|f]; [simpl in Hf; lia|]. simpl. split; [reflexivity|].
    now destruct s.
  - destruct fuel as [|f]; [simpl in Hf; lia|].
    simpl in Hl, Hf. apply andb_true_iff in Hl as [Hc Hl].
    apply negb_true_iff in Hc. unfold path.metaByte in Hc.
    rewrite !orb_false_iff in Hc. destruct Hc as [[[Hs Hq] Hb] Hbs].
    assert (Hf' : String.length lit < f) by lia.
    destruct (IH Hl f s Hf') as [IHt _].
    split.
    + simpl. rewrite Hb, Hq, Hbs. exact IHt.
    + simpl. rewrite Hb, Hq, Hbs.
      destruct s as [|x s].
      * simpl. apply (IH Hl f "" Hf').
      * simpl. rewrite HasPrefix_cons.
        destruct (IH Hl f s Hf') as [IHt' IHf'].
        destruct (Ascii.eqb x c); simpl; [exact IHf' | exact IHt'].
Qed.

(** A pattern without special bytes matches its own text and nothing
    else. *)
Lemma Match_literal (lit name : string) :
  path.literal lit = true ->
  path.Match lit name = (String.eqb name lit, None).
Proof.
  intros Hl. unfold path.Match.
  destruct lit as [|c lit].
  { simpl. reflexivity. }
  cbn [path.matchLoop]. change (String.eqb (String c lit) "") with false.
  cbv iota. rewrite (scanChunk_literal _ Hl). cbv iota beta. simpl andb. cbv iota.
  unfold path.matchChunk.
  destruct (matchChunkLoop_literal _ Hl (S (String.length (String c lit))) name
              ltac:(lia)) as [_ ->].
  destruct (strings.HasPrefix name (String c lit)) eqn:Hp.
  - apply HasPrefix_spec in Hp as [t ->].
    rewrite drop_length_app.
    destruct t as [|y t].
    + rewrite app_empty_r. simpl String.length. simpl.
      now rewrite Ascii.eqb_refl, String.eqb_refl.
    + simpl.
      assert (H : String.eqb (String c lit +:+ String y t) (String c lit) = false).
      { apply String.eqb_neq. intros H.
        apply (f_equal String.length) in H. rewrite length_app_s in H.
        simpl in H. lia. }
      simpl in H. now rewrite H.
  - simpl.
    assert (H : String.eqb name (String c lit) = false).
    { apply String.eqb_neq. intros ->.
      rewrite <- (app_empty_r (String c lit)) in Hp at 1.
      now rewrite HasPrefix_app in Hp. }
    now rewrite H.
Qed.

(** ** Rules that do not end in [/*] *)

Lemma ruleMatched_dir (p rule : string) :
  contentsOnlyRule rule = false ->
  ruleMatched p rule
  = (negb (String.eqb (ruleDir rule) "")
     && (String.eqb p (ruleDir rule)
         || strings.HasPrefix p (ruleDir rule +:+ "/")))
    || fst (path.Match (ruleDir rule) p)
    || fst (path.Match (ruleDir rule) (filepath.Base p)).
Proof.
  unfold contentsOnlyRule, ruleMatched, ruleDir. intros ->.
  destruct (negb _ && _); simpl; [reflexivity|].
  reflexivity.
Qed.

(** C5, as the code has it.  A rule that does not end in [/*] matches a
    non-empty path [p] exactly when its directory [d] is not empty and [p]
    is [d] or starts with [d/], or [d] read as a glob pattern matches [p]
    or the last element of [p].  When [d] has no special byte the last two
    cases are: [p] is [d], or the last element of [p] is [d]. *)
Theorem dir_prefix_rule_matches (rule p : string) :
  rule <> "" -> p <> "" -> contentsOnlyRule rule = false ->
  (ruleHits p rule = true <->
     (ruleDir rule <> ""
      /\ (p = ruleDir rule \/ exists t, p = ruleDir rule +:+ "/" +:+ t))
     \/ fst (path.Match (ruleDir rule) p) = true
     \/ fst (path.Match (ruleDir rule) (filepath.Base p)) = true)
  /\ (path.literal (ruleDir rule) = true -> ruleDir rule <> "" ->
      (ruleHits p rule = true <->
         p = ruleDir rule
         \/ (exists t, p = ruleDir rule +:+ "/" +:+ t)
         \/ filepath.Base p = ruleDir rule)).
Proof.
  intros Hr Hp Hk. apply String.eqb_neq in Hr.
  assert (Hgen : ruleHits p rule = true <->
     (ruleDir rule <> ""
      /\ (p = ruleDir rule \/ exists t, p = ruleDir rule +:+ "/" +:+ t))
     \/ fst (path.Match (ruleDir rule) p) = true
     \/ fst (path.Match (ruleDir rule) (filepath.Base p)) = true).
  { unfold ruleHits. rewrite Hr, ToSlash_id. simpl negb. rewrite andb_true_l.
    rewrite (ruleMatched_dir p rule Hk).
    rewrite !orb_true_iff, andb_true_iff, negb_true_iff, orb_true_iff.
    rewrite String.eqb_neq, String.eqb_eq, HasPrefix_spec.
    setoid_rewrite app_assoc_s. tauto. }
  split; [exact Hgen|].
  intros Hl Hd. rewrite Hgen, !(Match_literal _ _ Hl). simpl fst.
  rewrite !String.eqb_eq. tauto.
Qed.

Lemma dir_prefix_rule_matches_witness :
  ruleHits "src/build/x.o" "src/" = true
  /\ ruleHits "lib/build" "!build" = true
  /\ ruleHits "lib/builder" "build/" = false.
Proof.
  assert (H1 := dir_prefix_rule_matches "src/" "src/build/x.o"
                  ltac:(discriminate) ltac:(discriminate) eq_refl).
  assert (H2 := dir_prefix_rule_matches "!build" "lib/build"
                  ltac:(discriminate) ltac:(discriminate) eq_refl).
  assert (H3 := dir_prefix_rule_matches "build/" "lib/builder"
                  ltac:(discriminate) ltac:(discriminate) eq_refl).
  split; [|split].
  - apply (proj1 H1). left. split; [discriminate|]. right. now exists "build/x.o".
  - apply (proj2 H2 eq_refl ltac:(discriminate)). right. right. reflexivity.
  - apply not_true_is_false. intros E.
    apply (proj2 H3 eq_refl ltac:(discriminate)) in E.
    destruct E as [E | [[t E] | E]]; vm_compute in E; discriminate.
Defined.

(** C5 as the specification states it fails: the bare rule [build] matches
    [src/build], which neither is [build] nor starts with [build/]. *)
Lemma dir_prefix_rule_counterexample :
  contentsOnlyRule "build" = false
  /\ ruleDir "build" = "build"
  /\ checkFilter "src/build" ["build"] = (true, "build")
  /\ ~ (ruleHits "src/build" "build" = true <->
        ("src/build" = ruleDir "build"
         \/ strings.HasPrefix "src/build" (ruleDir "build" +:+ "/") = true)).
Proof.
  repeat split; try reflexivity.
  intros [H _]. destruct (H eq_refl) as [E | E]; discriminate.
Qed.

(** ** The content serializer *)

Lemma IndexByte_ge (s : string) (c : ascii) : (-1 <= strings.IndexByte s c)%Z.
Proof.
  induction s as [|x s IH]; simpl; [lia|].
  destruct (Ascii.eqb x c); [lia|].
  destruct (strings.IndexByte s c <? 0)%Z eqn:E; lia.
Qed.

(** [IndexByte] is not -1 exactly when the byte occurs. *)
Lemma IndexByte_found (s : string) (c : ascii) :
  strings.IndexByte s c <> (-1)%Z <-> exists i, String.get i s = Some c.
Proof.
  induction s as [|x s IH]; simpl.
  - split; [congruence | intros [i H]; discriminate].
  - destruct (Ascii.eqb x c) eqn:E.
    + apply Ascii.eqb_eq in E as ->. split; [|lia]. intros _. now exists 0.
    + pose proof (IndexByte_ge s c) as Hge.
      destruct (strings.IndexByte s c <? 0)%Z eqn:E'.
      * apply Z.ltb_lt in E'.
        assert (Hm : strings.IndexByte s c = (-1)%Z) by lia.
        split; [congruence|]. intros [[|i] H].
        -- injection H as ->. now rewrite Ascii.eqb_refl in E.
        -- exfalso. apply (proj2 IH); [now exists i | exact Hm].
      * apply Z.ltb_ge in E'. split; [|lia]. intros _.
        destruct (proj1 IH ltac:(lia)) as [i H]. now exists (S i).
Qed.

Lemma get_take (n i : nat) (s : string) :
  String.get i (strings.take n s) = if (i <? n)%nat then String.get i s else None.
Proof.
  revert i s; induction n as [|n IH]; intros i s.
  - now destruct i.
  - destruct s as [|c s]; simpl.
    + now destruct (i <? S n)%nat.
    + destruct i as [|i]; [reflexivity|]. simpl. rewrite IH.
      reflexivity.
Qed.

Lemma get_lt_length (i : nat) (s : string) (c : ascii) :
  String.get i s = Some c -> i < String.length s.
Proof.
  revert i; induction s as [|x s IH]; intros [|i] H; simpl in *; try discriminate; try lia.
  apply IH in H. lia.
Qed.

(** [isBinary] holds exactly when one of the first 512 bytes is zero. *)
Lemma isBinary_spec (content : string) :
  isBinary content = true <->
  exists i, i < 512 /\ String.get i content = Some "000"%char.
Proof.
  unfold isBinary.
  set (n := if (String.length content <? 512)%nat then String.length content else 512).
  assert (Hn : n <= 512 /\ (String.length content < 512 -> n = String.length content)
               /\ (512 <= String.length content -> n = 512)).
  { unfold n. destruct (String.length content <? 512)%nat eqn:E.
    - apply Nat.ltb_lt in E. lia.
    - apply Nat.ltb_ge in E. lia. }
  destruct (strings.IndexByte (strings.take n content) "000" =? -1)%Z eqn:E; simpl.
  - apply Z.eqb_eq in E. split; [discriminate|]. intros [i [Hi Hg]]. exfalso.
    assert (Hx : exists j, String.get j (strings.take n content) = Some "000"%char).
    { exists i. rewrite get_take.
      pose proof (get_lt_length _ _ _ Hg) as Hl.
      assert (Hin : (i <? n)%nat = true) by (apply Nat.ltb_lt; lia).
      now rewrite Hin. }
    apply IndexByte_found in Hx. contradiction.
  - apply Z.eqb_neq in E. split; [intros _|reflexivity].
    apply IndexByte_found in E as [i Hi]. rewrite get_take in Hi.
    destruct (i <? n)%nat eqn:Hin; [|discriminate].
    apply Nat.ltb_lt in Hin. exists i. split; [lia | exact Hi].
Qed.

(** The file is emitted when it reaches the encoding step and its bytes are
    converted: the document gains the content block, and standard output
    the notices. *)
Lemma processFile_emits (os : OS) (cfg : Config) (path content : string)
      (writer : Sink) (utf8Content encoding : string) :
  reachesEncoding os cfg path content ->
  convertToUTF8 os content = (utf8Content, encoding, None) ->
  processFile os cfg path writer
  = (None,
     {| doc := doc writer +:+ contentBlock path utf8Content;
        stdout := stdout writer
                  ++ (if negb (String.eqb encoding "UTF-8")
                      then [noticeConverted encoding path] else [])
                  ++ [noticeProcessing path];
        stderr := stderr writer |}).
Proof.
  intros [[info [Hs [Hd Hz]]] [Hr Hb]] Hc. unfold processFile.
  rewrite Hs, Hd.
  assert (Hz' : (MaxFileSize cfg <? infoSize info)%Z = false) by (apply Z.ltb_ge; lia).
  rewrite Hz', Hr.
  assert (Hb' : negb (has (TextExts cfg) (strings.ToLower (filepath.Ext path)))
                && isBinary content = false).
  { destruct Hb as [-> | ->]; [reflexivity | apply andb_false_r]. }
  rewrite Hb', Hc.
  f_equal. unfold contentBlock, fenced, fenceLang, WriteString, Printf.
  destruct (negb (String.eqb encoding "UTF-8"));
    destruct ((0 <? String.length utf8Content)%nat
              && negb (lastByteIs (ascii_of_nat 10) utf8Content));
    simpl; f_equal; rewrite ?app_assoc_s; simpl; rewrite ?app_assoc_s;
      try reflexivity; rewrite <- ?app_assoc; reflexivity.
Qed.

(** The file is skipped when the conversion fails. *)
Lemma processFile_unknown_encoding (os : OS) (cfg : Config)
      (path content : string) (writer : Sink) (a b : string) (e : error) :
  reachesEncoding os cfg path content ->
  convertToUTF8 os content = (a, b, Some e) ->
  processFile os cfg path writer
  = (None,
     {| doc := doc writer;
        stdout := stdout writer
                  ++ [noticeUnknownEncoding path; noticeUnknownReason];
        stderr := stderr writer |}).
Proof.
  intros [[info [Hs [Hd Hz]]] [Hr Hb]] Hc. unfold processFile.
  rewrite Hs, Hd.
  assert (Hz' : (MaxFileSize cfg <? infoSize info)%Z = false) by (apply Z.ltb_ge; lia).
  rewrite Hz', Hr.
  assert (Hb' : negb (has (TextExts cfg) (strings.ToLower (filepath.Ext path)))
                && isBinary content = false).
  { destruct Hb as [-> | ->]; [reflexivity | apply andb_false_r]. }
  rewrite Hb', Hc. unfold Printf. simpl. now rewrite <- app_assoc.
Qed.

(** C6.  A file with a zero byte among its first 512 bytes: when its
    lower-case extension is not a forced-text extension, [processFile]
    writes nothing to the document; when it is one, the zero byte is not
    looked at, and the file that passes the other gates gets its content
    block. *)
Theorem binary_gate (os : OS) (cfg : Config) (path content : string)
        (writer : Sink) :
  ReadFile os path = Ok content ->
  (exists i, i < 512 /\ String.get i content = Some "000"%char) ->
  (has (TextExts cfg) (strings.ToLower (filepath.Ext path)) = false ->
   doc (snd (processFile os cfg path writer)) = doc writer)
  /\ (has (TextExts cfg) (strings.ToLower (filepath.Ext path)) = true ->
      forall info utf8Content encoding,
        Stat os path = Ok info -> infoIsDir info = false ->
        (infoSize info <= MaxFileSize cfg)%Z ->
        convertToUTF8 os content = (utf8Content, encoding, None) ->
        processFile os cfg path writer
        = (None,
           {| doc := doc writer +:+ contentBlock path utf8Content;
              stdout := stdout writer
                        ++ (if negb (String.eqb encoding "UTF-8")
                            then [noticeConverted encoding path] else [])
                        ++ [noticeProcessing path];
              stderr := stderr writer |})).
Proof.
  intros Hr Hz. apply isBinary_spec in Hz. split.
  - intros Hext. unfold processFile.
    destruct (Stat os path) as [info|e]; [|reflexivity].
    destruct (infoIsDir info); [reflexivity|].
    destruct (MaxFileSize cfg <? infoSize info)%Z; [reflexivity|].
    now rewrite Hr, Hext, Hz.
  - intros Hext info u enc Hs Hd Hsz Hc.
    apply (processFile_emits os cfg path content writer u enc); [|exact Hc].
    split; [exists info; auto | split; [exact Hr | left; exact Hext]].
Qed.

Lemma binary_gate_witness :
  doc (snd (processFile filesOS config "/p/bin.dat" emptySink)) = ""
  /\ doc (snd (processFile filesOS config "/p/bin.go" emptySink))
     = contentBlock "/p/bin.go" ("a" +:+ zeroByte +:+ "b")
  /\ doc (snd (processFile caseOS config "/c/y.dat" emptySink)) = ""
  /\ doc (snd (processFile caseOS config "/c/X.GO" emptySink))
     = "## File: /c/X.GO" +:+ nl +:+ nl +:+ "```go" +:+ nl
       +:+ "a" +:+ zeroByte +:+ "b" +:+ nl
       +:+ "```" +:+ nl +:+ nl +:+ "---" +:+ nl +:+ nl
  /\ doc (snd (processFile caseOS config "/c/x.İni" emptySink))
     = "## File: /c/x.İni" +:+ nl +:+ nl +:+ "```ini" +:+ nl
       +:+ "a" +:+ zeroByte +:+ "b" +:+ nl
       +:+ "```" +:+ nl +:+ nl +:+ "---" +:+ nl +:+ nl.
Proof.
  assert (Hz : exists i, i < 512
               /\ String.get i ("a" +:+ zeroByte +:+ "b") = Some "000"%char).
  { exists 1. split; [lia | reflexivity]. }
  split; [|split; [|split; [|split]]].
  - apply (proj1 (binary_gate filesOS config "/p/bin.dat"
                    ("a" +:+ zeroByte +:+ "b") emptySink eq_refl Hz)).
    reflexivity.
  - rewrite (proj2 (binary_gate filesOS config "/p/bin.go"
                      ("a" +:+ zeroByte +:+ "b") emptySink eq_refl Hz)
               eq_refl (fileInfo 3) ("a" +:+ zeroByte +:+ "b") "UTF-8"
               eq_refl eq_refl ltac:(vm_compute; discriminate) eq_refl).
    reflexivity.
  - apply (proj1 (binary_gate caseOS config "/c/y.dat"
                    ("a" +:+ zeroByte +:+ "b") emptySink eq_refl Hz)).
    reflexivity.
  - rewrite (proj2 (binary_gate caseOS config "/c/X.GO"
                      ("a" +:+ zeroByte +:+ "b") emptySink eq_refl Hz)
               eq_refl (fileInfo 3) ("a" +:+ zeroByte +:+ "b") "UTF-8"
               eq_refl eq_refl ltac:(vm_compute; discriminate) eq_refl).
    reflexivity.
  - rewrite (proj2 (binary_gate caseOS config "/c/x.İni"
                      ("a" +:+ zeroByte +:+ "b") emptySink eq_refl Hz)
               eq_refl (fileInfo 3) ("a" +:+ zeroByte +:+ "b") "UTF-8"
               eq_refl eq_refl ltac:(vm_compute; discriminate) eq_refl).
    reflexivity.
Defined.

(** The outcomes of the encoding step, for every decoder.  A file that
    reaches the step: valid UTF-8 is written as it is, without a conversion
    notice; bytes that are not valid UTF-8 and whose decoding is valid UTF-8
    are written decoded, with the conversion notice; when the decoder
    reports an error or its result is not valid UTF-8 nothing is written to
    the document and the warning is printed. *)
Lemma encoding_gate (os : OS) (cfg : Config) (path content : string)
        (writer : Sink) :
  reachesEncoding os cfg path content ->
  (utf8.Valid content = true ->
   processFile os cfg path writer
   = (None, {| doc := doc writer +:+ contentBlock path content;
               stdout := stdout writer ++ [noticeProcessing path];
               stderr := stderr writer |}))
  /\ (utf8.Valid content = false ->
      forall decoded,
        GBKDecode os content = Ok decoded -> utf8.Valid decoded = true ->
        processFile os cfg path writer
        = (None, {| doc := doc writer +:+ contentBlock path decoded;
                    stdout := stdout writer
                              ++ [noticeConverted "GBK/GB18030" path;
                                  noticeProcessing path];
                    stderr := stderr writer |}))
  /\ (utf8.Valid content = false ->
      (forall decoded,
          GBKDecode os content = Ok decoded -> utf8.Valid decoded = false) ->
      processFile os cfg path writer
      = (None, {| doc := doc writer;
                  stdout := stdout writer
                            ++ [noticeUnknownEncoding path;
                                noticeUnknownReason];
                  stderr := stderr writer |})).
Proof.
  intros Hreach. split; [|split].
  - intros Hv.
    rewrite (processFile_emits os cfg path content writer content "UTF-8" Hreach).
    + reflexivity.
    + unfold convertToUTF8. now rewrite Hv.
  - intros Hv decoded Hg Hd.
    rewrite (processFile_emits os cfg path content writer decoded "GBK/GB18030"
               Hreach).
    + reflexivity.
    + unfold convertToUTF8. now rewrite Hv, Hg, Hd.
  - intros Hv Hg.
    apply (processFile_unknown_encoding os cfg path content writer
             "" "Unknown" (ErrMsg "encoding not recognized") Hreach).
    unfold convertToUTF8. rewrite Hv.
    destruct (GBKDecode os content) as [decoded|e] eqn:E; [|reflexivity].
    now rewrite (Hg decoded eq_refl).
Qed.

Lemma reachesEncoding_filesOS (name content : string) (size : Z) :
  Stat filesOS ("/p/" +:+ name) = Ok (fileInfo size) ->
  (size <= 1024 * 1024)%Z ->
  ReadFile filesOS ("/p/" +:+ name) = Ok content ->
  isBinary content = false ->
  reachesEncoding filesOS config ("/p/" +:+ name) content.
Proof.
  intros Hs Hz Hr Hb. split; [|split; [exact Hr | right; exact Hb]].
  exists (fileInfo size). repeat split; [exact Hs | exact Hz].
Qed.

Lemma reachesEncoding_caseOS (name content : string) (size : Z) :
  Stat caseOS ("/c/" +:+ name) = Ok (fileInfo size) ->
  (size <= 1024 * 1024)%Z ->
  ReadFile caseOS ("/c/" +:+ name) = Ok content ->
  isBinary content = false ->
  reachesEncoding caseOS config ("/c/" +:+ name) content.
Proof.
  intros Hs Hz Hr Hb. split; [|split; [exact Hr | right; exact Hb]].
  exists (fileInfo size). repeat split; [exact Hs | exact Hz].
Qed.

Example encoding_gate_example :
  doc (snd (processFile filesOS config "/p/one.txt" emptySink))
  = contentBlock "/p/one.txt" ("a" +:+ nl)
  /\ processFile filesOS config "/p/gbk.txt" emptySink
     = (None, {| doc := contentBlock "/p/gbk.txt" "中";
                 stdout := [noticeConverted "GBK/GB18030" "/p/gbk.txt";
                            noticeProcessing "/p/gbk.txt"];
                 stderr := [] |}).
Proof.
  split.
  - rewrite (proj1 (encoding_gate filesOS config "/p/one.txt" ("a" +:+ nl)
                      emptySink
                      (reachesEncoding_filesOS "one.txt" ("a" +:+ nl) 2
                         eq_refl ltac:(lia) eq_refl eq_refl))
               eq_refl).
    reflexivity.
  - apply (proj1 (proj2 (encoding_gate filesOS config "/p/gbk.txt" gbkZhong
                           emptySink
                           (reachesEncoding_filesOS "gbk.txt" gbkZhong 2
                              eq_refl ltac:(lia) eq_refl eq_refl)))
             eq_refl "中" eq_refl eq_refl).
Qed.

(** With a decoder that reports no error and returns valid UTF-8 for every
    input, as the decoder of the library does, [convertToUTF8] returns no
    error, and every file that reaches the encoding step gets its content
    block: the warning about an unknown encoding is never printed. *)
Lemma encoding_step_never_skips (os : OS) (cfg : Config)
      (path content : string) (writer : Sink) :
  (forall bytes, exists decoded,
      GBKDecode os bytes = Ok decoded /\ utf8.Valid decoded = true) ->
  reachesEncoding os cfg path content ->
  exists utf8Content encoding,
    convertToUTF8 os content = (utf8Content, encoding, None)
    /\ doc (snd (processFile os cfg path writer))
       = doc writer +:+ contentBlock path utf8Content.
Proof.
  intros Hdec Hreach.
  destruct (utf8.Valid content) eqn:Hv.
  - exists content, "UTF-8".
    assert (Hc : convertToUTF8 os content = (content, "UTF-8", None))
      by (unfold convertToUTF8; now rewrite Hv).
    split; [exact Hc|].
    now rewrite (processFile_emits os cfg path content writer content "UTF-8"
                   Hreach Hc).
  - destruct (Hdec content) as [decoded [Hg Hd]].
    exists decoded, "GBK/GB18030".
    assert (Hc : convertToUTF8 os content = (decoded, "GBK/GB18030", None))
      by (unfold convertToUTF8; now rewrite Hv, Hg, Hd).
    split; [exact Hc|].
    now rewrite (processFile_emits os cfg path content writer decoded
                   "GBK/GB18030" Hreach Hc).
Qed.

(** C7.  The file [/p/bad.txt] holds the two bytes FF FE, which are not
    valid UTF-8 and no GBK text either.  The decoder reports no error for
    them and returns U+FFFD twice, which is valid UTF-8; [convertToUTF8]
    therefore answers with the encoding [GBK/GB18030] and no error, and
    [processFile] writes a content block with the two replacement
    characters and prints the conversion notice, where the file should get
    no block and the warning. *)
Theorem undecodable_bytes_get_block :
  reachesEncoding filesOS config "/p/bad.txt" badBytes
  /\ utf8.Valid badBytes = false
  /\ GBKDecode filesOS badBytes = Ok (replacementChar +:+ replacementChar)
  /\ convertToUTF8 filesOS badBytes
     = (replacementChar +:+ replacementChar, "GBK/GB18030", None)
  /\ processFile filesOS config "/p/bad.txt" emptySink
     = (None,
        {| doc := "## File: /p/bad.txt" +:+ nl +:+ nl +:+ "```txt" +:+ nl
                  +:+ replacementChar +:+ replacementChar +:+ nl
                  +:+ "```" +:+ nl +:+ nl +:+ "---" +:+ nl +:+ nl;
           stdout := [noticeConverted "GBK/GB18030" "/p/bad.txt";
                      noticeProcessing "/p/bad.txt"];
           stderr := [] |}).
Proof.
  split; [|repeat split].
  apply (reachesEncoding_filesOS "bad.txt" badBytes 2);
    [reflexivity | lia | reflexivity | reflexivity].
Qed.

(** ** The end of a content block *)

Lemma lastByteIs_one (c x : ascii) :
  lastByteIs c (String x "") = Ascii.eqb x c.
Proof. reflexivity. Qed.

Lemma lastByteIs_cons (c x y : ascii) (r : string) :
  lastByteIs c (String x (String y r)) = lastByteIs c (String y r).
Proof. unfold lastByteIs. simpl. now rewrite Nat.sub_0_r. Qed.

Lemma allNewlines_last (r : string) :
  allNewlines r = true -> r <> "" -> lastByteIs (ascii_of_nat 10) r = true.
Proof.
  induction r as [|c r IH]; [congruence|]. intros H _.
  simpl in H. apply andb_true_iff in H as [Hc Hr].
  destruct r as [|y r]; [exact Hc|].
  rewrite lastByteIs_cons. now apply IH.
Qed.

Lemma trailingNewlines_last (u : string) :
  lastByteIs (ascii_of_nat 10) u = true -> 1 <= trailingNewlines u.
Proof.
  induction u as [|c r IH]; [discriminate|].
  destruct r as [|y r].
  - rewrite lastByteIs_one. intros H. simpl. rewrite H. simpl. lia.
  - rewrite lastByteIs_cons. intros H. specialize (IH H).
    cbn [trailingNewlines] in *.
    destruct (Ascii.eqb c (ascii_of_nat 10) && allNewlines (String y r)); [lia|].
    exact IH.
Qed.

Lemma trailingNewlines_no_last (u : string) :
  lastByteIs (ascii_of_nat 10) u = false -> u <> "" ->
  trailingNewlines u = 0 /\ trailingNewlines (u +:+ nl) = 1.
Proof.
  induction u as [|c r IH]; [congruence|]. intros H _.
  destruct r as [|y r].
  - rewrite lastByteIs_one in H. simpl. rewrite H. simpl. auto.
  - rewrite lastByteIs_cons in H. destruct (IH H ltac:(discriminate)) as [I0 I1].
    assert (Hall : allNewlines (String y r) = false).
    { destruct (allNewlines (String y r)) eqn:E; [|reflexivity].
      rewrite (allNewlines_last _ E) in H; [discriminate | discriminate]. }
    assert (Hall' : allNewlines (String y r +:+ nl) = false).
    { clear -Hall. revert Hall. generalize (String y r). intros s.
      induction s as [|a s IHs]; [discriminate|]. simpl.
      destruct (Ascii.eqb a (ascii_of_nat 10)); simpl; [exact IHs | reflexivity]. }
    split.
    + cbn [trailingNewlines]. rewrite Hall, andb_false_r. exact I0.
    + change (String c (String y r) +:+ nl) with (String c (String y r +:+ nl)).
      cbn [trailingNewlines]. rewrite Hall', andb_false_r. exact I1.
Qed.

(** The text between the fences: nothing for an empty content; otherwise
    the content, with one line feed added exactly when it ends with none. *)
Lemma fenced_spec (u : string) :
  (u = "" -> fenced u = "")
  /\ (u <> "" ->
      lastByteIs (ascii_of_nat 10) (fenced u) = true
      /\ (fenced u = u \/ (fenced u = u +:+ nl
                           /\ lastByteIs (ascii_of_nat 10) u = false))
      /\ trailingNewlines (fenced u) = Nat.max 1 (trailingNewlines u)).
Proof.
  split; [intros ->; reflexivity|]. intros Hu. unfold fenced.
  assert (Hlen : (0 <? String.length u)%nat = true).
  { destruct u; [congruence | reflexivity]. }
  rewrite Hlen. simpl andb.
  destruct (lastByteIs (ascii_of_nat 10) u) eqn:E; simpl.
  - split; [exact E | split; [now left|]].
    pose proof (trailingNewlines_last u E). lia.
  - destruct (trailingNewlines_no_last u E Hu) as [H0 H1].
    split; [|split; [right; split; [reflexivity | reflexivity] | rewrite H0, H1; reflexivity]].
    destruct (lastByteIs (ascii_of_nat 10) (u +:+ nl)) eqn:E'; [reflexivity|].
    assert (Hne : u +:+ nl <> "") by (destruct u; discriminate).
    destruct (trailingNewlines_no_last _ E' Hne) as [H0' _]. congruence.
Qed.

(** C8, as the code has it.  For a file that passes every gate the document
    gains the content block, in which the text between the fences is: for a
    non-empty content, the content followed by one more line feed exactly
    when it does not end with one, so that it ends with as many line feeds
    as the content does and at least one; for an empty content, nothing. *)
Theorem content_block_newline (os : OS) (cfg : Config) (path content : string)
        (writer : Sink) (utf8Content encoding : string) :
  reachesEncoding os cfg path content ->
  convertToUTF8 os content = (utf8Content, encoding, None) ->
  doc (snd (processFile os cfg path writer))
  = doc writer +:+ "## File: " +:+ filepath.ToSlash path +:+ nl +:+ nl
    +:+ "```" +:+ fenceLang path +:+ nl
    +:+ fenced utf8Content
    +:+ "```" +:+ nl +:+ nl +:+ "---" +:+ nl +:+ nl
  /\ (utf8Content = "" -> fenced utf8Content = "")
  /\ (utf8Content <> "" ->
      lastByteIs (ascii_of_nat 10) (fenced utf8Content) = true
      /\ (fenced utf8Content = utf8Content
          \/ (fenced utf8Content = utf8Content +:+ nl
              /\ lastByteIs (ascii_of_nat 10) utf8Content = false))
      /\ trailingNewlines (fenced utf8Content)
         = Nat.max 1 (trailingNewlines utf8Content)).
Proof.
  intros Hreach Hc.
  rewrite (processFile_emits os cfg path content writer utf8Content encoding
             Hreach Hc).
  split; [reflexivity | apply fenced_spec].
Qed.

Lemma content_block_newline_witness :
  doc (snd (processFile filesOS config "/p/none.txt" emptySink))
  = "## File: /p/none.txt" +:+ nl +:+ nl +:+ "```txt" +:+ nl
    +:+ "a" +:+ nl +:+ "```" +:+ nl +:+ nl +:+ "---" +:+ nl +:+ nl
  /\ trailingNewlines (fenced "a") = 1
  /\ doc (snd (processFile caseOS config "/c/n.Ä" emptySink))
     = "## File: /c/n.Ä" +:+ nl +:+ nl +:+ "```ä" +:+ nl
       +:+ "n" +:+ nl +:+ "```" +:+ nl +:+ nl +:+ "---" +:+ nl +:+ nl.
Proof.
  destruct (content_block_newline filesOS config "/p/none.txt" "a" emptySink
              "a" "UTF-8"
              (reachesEncoding_filesOS "none.txt" "a" 1
                 eq_refl ltac:(lia) eq_refl eq_refl)
              eq_refl) as [H1 [_ H3]].
  destruct (content_block_newline caseOS config "/c/n.Ä" "n" emptySink
              "n" "UTF-8"
              (reachesEncoding_caseOS "n.Ä" "n" 1
                 eq_refl ltac:(lia) eq_refl eq_refl)
              eq_refl) as [H4 _].
  split; [rewrite H1; reflexivity|]. split; [|rewrite H4; reflexivity].
  destruct (H3 ltac:(discriminate)) as [_ [_ H]]. rewrite H. reflexivity.
Defined.

(** C8 as the specification states it fails: a content that ends with two
    line feeds is written with both of them before the closing fence, and
    an empty content is written with none. *)
Lemma content_block_newline_counterexample :
  doc (snd (processFile filesOS config "/p/two.txt" emptySink))
  = "## File: /p/two.txt" +:+ nl +:+ nl +:+ "```txt" +:+ nl
    +:+ "a" +:+ nl +:+ nl +:+ "```" +:+ nl +:+ nl +:+ "---" +:+ nl +:+ nl
  /\ trailingNewlines (fenced ("a" +:+ nl +:+ nl)) = 2
  /\ doc (snd (processFile filesOS config "/p/empty.txt" emptySink))
     = "## File: /p/empty.txt" +:+ nl +:+ nl +:+ "```txt" +:+ nl
       +:+ "```" +:+ nl +:+ nl +:+ "---" +:+ nl +:+ nl
  /\ trailingNewlines (fenced "") = 0.
Proof. repeat split. Qed.

(** ** Names that are never shown: [isJunk] and the output document *)

Lemma isJunk_hidden (cfg : Config) (name : string) :
  strings.HasPrefix name "." = true ->
  name <> "." -> name <> ".env" -> name <> ".gitignore" ->
  isJunk cfg name = true.
Proof.
  intros Hp H1 H2 H3. unfold isJunk.
  apply String.eqb_neq in H1, H2, H3. rewrite H1, H2, H3, Hp. simpl.
  now destruct (has (IgnoredFiles cfg) name).
Qed.

Lemma treeVisible_junk (cfg : Config) (rootLogical currentLogical : string)
      (hardFilters : list string) (entry : DirEntry) :
  isJunk cfg (Name entry) = true ->
  treeVisible cfg rootLogical currentLogical hardFilters entry = false.
Proof.
  intros H. unfold treeVisible. rewrite H.
  now destruct (String.eqb (Name entry) (OutputFile cfg)).
Qed.

(** An entry that the first loop of [writeTree] drops leaves no trace in
    [finalEntries]. *)
Lemma finalEntries_invisible (cfg : Config) (rootLogical currentLogical : string)
      (hardFilters : list string) (before after : list DirEntry)
      (entry : DirEntry) :
  treeVisible cfg rootLogical currentLogical hardFilters entry = false ->
  finalEntries cfg rootLogical currentLogical hardFilters
               (before ++ entry :: after)
  = finalEntries cfg rootLogical currentLogical hardFilters (before ++ after).
Proof.
  intros H. unfold finalEntries.
  rewrite !List.filter_app. simpl. now rewrite H.
Qed.

Lemma contentVisit_junk (os : OS) (cfg : Config) (absOut : string)
      (softFilters hardFilters : list string) (logicalRel fullPath : string)
      (d : DirEntry) (writer : Sink) :
  isJunk cfg (Name d) = true ->
  contentVisit os cfg absOut softFilters hardFilters logicalRel fullPath d
               writer
  = ((if IsDir d then Some SkipDir else None), writer).
Proof.
  intros H. unfold contentVisit. rewrite H.
  now destruct (String.eqb fullPath absOut).
Qed.

(** When the callback answers [SkipDir] for an entry, the walk goes on with
    the next entry: nothing is pushed and [seen] is not changed. *)
Lemma walkEntries_SkipDir {St : Type} (os : OS)
      (fn : string -> string -> DirEntry -> St -> option error * St)
      (n : node) (entry : DirEntry) (rest : list DirEntry)
      (stack : list node) (seen : gset string) (st st1 : St) :
  (forall logicalRel childFSPath,
      fn logicalRel childFSPath entry st = (Some SkipDir, st1)) ->
  walkEntries os fn n (entry :: rest) stack seen st
  = walkEntries os fn n rest stack seen st1.
Proof.
  intros H. cbn [walkEntries].
  destruct (followSymlink os _ entry) as [childIsDir childFSPath].
  now rewrite H.
Qed.

(** When the callback answers [nil] for an entry that is neither a
    directory nor a symlink, the walk goes on with the next entry. *)
Lemma walkEntries_plain_file {St : Type} (os : OS)
      (fn : string -> string -> DirEntry -> St -> option error * St)
      (n : node) (entry : DirEntry) (rest : list DirEntry)
      (stack : list node) (seen : gset string) (st st1 : St) :
  IsDir entry = false -> isSymlink entry = false ->
  (forall logicalRel childFSPath,
      fn logicalRel childFSPath entry st = (None, st1)) ->
  walkEntries os fn n (entry :: rest) stack seen st
  = walkEntries os fn n rest stack seen st1.
Proof.
  intros Hd Hs H. cbn [walkEntries]. unfold followSymlink.
  now rewrite Hs, Hd, H.
Qed.

(** X10.  Hidden names.  An entry whose name starts with a dot and is not [.],
    [.env] or [.gitignore] ([ReadDir] lists no entry [.]) is junk.  The tree pass
    drops it whatever the hard rules are: the entries to render are those of
    the directory without it.  The callback of the content pass answers
    [SkipDir] for a directory and [nil] for a file and writes nothing,
    whatever the rules and the paths are; for a directory the walk then goes
    on without pushing it.  [.env] and [.gitignore] are not junk. *)
Lemma hidden_entries_excluded (cfg : Config) (d : DirEntry) :
  strings.HasPrefix (Name d) "." = true ->
  Name d <> "." -> Name d <> ".env" -> Name d <> ".gitignore" ->
  isJunk cfg (Name d) = true
  /\ (forall rootLogical currentLogical hardFilters,
         treeVisible cfg rootLogical currentLogical hardFilters d = false
         /\ forall before after,
             finalEntries cfg rootLogical currentLogical hardFilters
                          (before ++ d :: after)
             = finalEntries cfg rootLogical currentLogical hardFilters
                            (before ++ after))
  /\ (forall os absOut softFilters hardFilters logicalRel fullPath writer,
         contentVisit os cfg absOut softFilters hardFilters logicalRel
                      fullPath d writer
         = ((if IsDir d then Some SkipDir else None), writer))
  /\ (forall os absOut softFilters hardFilters n rest stack seen writer,
         IsDir d = true ->
         walkEntries os (contentVisit os cfg absOut softFilters hardFilters)
                     n (d :: rest) stack seen writer
         = walkEntries os (contentVisit os cfg absOut softFilters hardFilters)
                       n rest stack seen writer)
  /\ isJunk cfg ".env" = false
  /\ isJunk cfg ".gitignore" = false.
Proof.
  intros Hp H1 H2 H3.
  pose proof (isJunk_hidden cfg (Name d) Hp H1 H2 H3) as Hj.
  split; [exact Hj|]. split; [|split; [|split; [|split; reflexivity]]].
  - intros rl cl hard.
    pose proof (treeVisible_junk cfg rl cl hard d Hj) as Hv.
    split; [exact Hv|]. intros before after.
    now apply finalEntries_invisible.
  - intros. now apply contentVisit_junk.
  - intros os absOut soft hard n rest stack seen writer Hd.
    apply walkEntries_SkipDir. intros lr cf.
    rewrite (contentVisit_junk os cfg absOut soft hard lr cf d writer Hj).
    now rewrite Hd.
Qed.

Lemma hidden_entries_excluded_example :
  isJunk config ".cache" = true
  /\ finalEntries config "/r" "/r" ["!.cache"]
                  [dirEntry ".cache"; fileEntry "a.txt"]
     = [fileEntry "a.txt"]
  /\ contentVisit cycleOS config "/out.md" ["!.cache"] ["!.cache"]
                  ".cache" "/r/.cache" (dirEntry ".cache") emptySink
     = (Some SkipDir, emptySink).
Proof.
  destruct (hidden_entries_excluded config (dirEntry ".cache")
              eq_refl ltac:(discriminate) ltac:(discriminate)
              ltac:(discriminate)) as [H1 [H2 [H3 _]]].
  split; [exact H1|]. split.
  - etransitivity;
      [exact (proj2 (H2 "/r" "/r" ["!.cache"]) [] [fileEntry "a.txt"])
      | reflexivity].
  - apply H3.
Defined.



(** The two criteria at work: with the output document at [/w/a/out.md],
    the file [/w/b/out.md] of the second root is missing from the tree and
    present among the contents. *)
Example output_document_twin :
  option_map (fun r => doc (snd r))
             (main 5 twinOS config ["/w/a"; "/w/b"] [] [] "/w/a/out.md")
  = Some ("# Project Structure" +:+ nl +:+ nl +:+ "```text" +:+ nl
          +:+ "a/" +:+ nl +:+ "└── a.txt" +:+ nl +:+ nl
          +:+ "b/" +:+ nl +:+ nl
          +:+ "```" +:+ nl +:+ nl +:+ "---" +:+ nl +:+ nl
          +:+ "# File Contents" +:+ nl +:+ nl
          +:+ contentBlock "/w/a/a.txt" ("A" +:+ nl)
          +:+ contentBlock "/w/b/out.md" ("other" +:+ nl)).
Proof. vm_compute. reflexivity. Qed.

(** ** The tree renderer *)

Lemma writeTree_unfold (fuel : nat) (os : OS) (cfg : Config)
      (rootFS rootLogical currentFS currentLogical prefix : string)
      (hardFilters : list string) (st : string * gset string) :
  writeTree (S fuel) os cfg rootFS rootLogical currentFS currentLogical prefix
            hardFilters st
  = match ReadDir os currentFS with
    | Err err => Some (Some err, st)
    | Ok entries =>
        let final :=
          finalEntries cfg rootLogical currentLogical hardFilters entries in
        match renderEntries os
                (writeTreeChild fuel os cfg rootFS rootLogical hardFilters)
                currentFS currentLogical prefix (length final) 0 final st with
        | Some st1 => Some (None, st1)
        | None => None
        end
    end.
Proof. reflexivity. Qed.

Section Render.
Variable os : OS.
Variable recur : string -> string -> string -> string * gset string
                 -> option (string * gset string).
Variables currentFS currentLogical prefix : string.
Variable total : nat.



Lemma renderEntries_appends (l : list DirEntry) :
  appendsOnly recur ->
  forall (i : nat) (st st' : string * gset string),
    renderEntries os recur currentFS currentLogical prefix total i l st
    = Some st' ->
    exists s, fst st' = fst st +:+ s.
Proof.
  intros Hrec. induction l as [|e l IH]; intros i st st' H.
  - simpl in H. injection H as <-. exists "". now rewrite app_empty_r.
  - cbn [renderEntries] in H. destruct st as [w seen].
    set (line := treeLine os currentFS prefix total i e) in *.
    destruct (followSymlink os _ e) as [childIsDir childPathFS].
    assert (Hk : forall st1, (exists s1, fst st1 = (w +:+ line) +:+ s1) ->
              renderEntries os recur currentFS currentLogical prefix total
                            (S i) l st1 = Some st' ->
              exists s, fst st' = fst (w, seen) +:+ s).
    { intros st1 [s1 Hs1] Hr. apply IH in Hr as [s2 Hs2].
      exists (line +:+ s1 +:+ s2). simpl.
      rewrite Hs2, Hs1, !app_assoc_s. reflexivity. }
    assert (H0 : exists s1, fst (w +:+ line, seen) = (w +:+ line) +:+ s1).
    { exists "". simpl. now rewrite app_empty_r. }
    destruct childIsDir; [|exact (Hk _ H0 H)].
    destruct (EvalSymlinks os childPathFS) as [real|err].
    + destruct (bool_decide (real ∈ seen)); [exact (Hk _ H0 H)|].
      destruct (recur _ _ _ _) as [st1|] eqn:Er; [|discriminate].
      apply Hrec in Er. exact (Hk _ Er H).
    + destruct (recur _ _ _ _) as [st1|] eqn:Er; [|discriminate].
      apply Hrec in Er. exact (Hk _ Er H).
Qed.


End Render.

(** [writeTree] only adds text to the writer. *)
Lemma writeTree_appends (fuel : nat) (os : OS) (cfg : Config)
      (rootFS rootLogical : string) (hardFilters : list string) :
  forall (currentFS currentLogical prefix : string)
         (st : string * gset string) (res : option error)
         (st' : string * gset string),
    writeTree fuel os cfg rootFS rootLogical currentFS currentLogical prefix
              hardFilters st = Some (res, st') ->
    exists s, fst st' = fst st +:+ s.
Proof.
  induction fuel as [|f IH]; intros cfs cl pfx st res st' H; [discriminate|].
  rewrite writeTree_unfold in H.
  destruct (ReadDir os cfs) as [entries|err].
  - cbv zeta in H.
    destruct (renderEntries _ _ _ _ _ _ _ _ _) as [st1|] eqn:E; [|discriminate].
    injection H as _ <-.
    apply renderEntries_appends in E; [exact E|].
    intros a b c s0 s1 Hc. unfold writeTreeChild in Hc.
    destruct (writeTree f _ _ _ _ _ _ _ _ _) as [[r s2]|] eqn:Ew; [|discriminate].
    injection Hc as <-. eapply IH. exact Ew.
  - injection H as _ <-. exists "". now rewrite app_empty_r.
Qed.


Lemma followSymlink_plain (os : OS) (childFSPath : string) (entry : DirEntry) :
  isSymlink entry = false ->
  followSymlink os childFSPath entry = (IsDir entry, childFSPath).
Proof. intros H. unfold followSymlink. now rewrite H. Qed.





(** ** The soft tier *)

Lemma In_foldFiles_unfolded (cfg : Config) (files : list DirEntry) :
  NoFold cfg = true \/ length files <= 24 -> foldFiles cfg files = files.
Proof.
  intros H. unfold foldFiles, maxDisplayFiles.
  destruct H as [-> | H]; [reflexivity|].
  replace (24 <? length files)%nat with false
    by (symmetry; apply Nat.ltb_ge; exact H).
  now rewrite andb_false_r.
Qed.






(** ** Termination of the two traversals *)

Lemma size_unseen_insert (U seen : gset string) (real : string) :
  real ∈ U -> real ∉ seen ->
  size (U ∖ ({[real]} ∪ seen)) < size (U ∖ seen).
Proof.
  intros HU Hs. apply subset_size. split; [set_solver|].
  intros H. specialize (H real). set_solver.
Qed.

Lemma size_unseen_mono (U seen seen' : gset string) :
  seen ⊆ seen' -> size (U ∖ seen') <= size (U ∖ seen).
Proof. intros H. apply subseteq_size. set_solver. Qed.

Section Termination.
Variable os : OS.
(** The canonical paths of the file system are finitely many, and a path
    that cannot be resolved cannot be read as a directory. *)
Variable U : gset string.
Hypothesis canonical_finite :
  forall p real, EvalSymlinks os p = Ok real -> real ∈ U.
Hypothesis unresolved_unreadable :
  forall p err, EvalSymlinks os p = Err err ->
                exists err', ReadDir os p = Err err'.

Section WalkTermination.
Context {St : Type}.
Variable fn : string -> string -> DirEntry -> St -> option error * St.

Lemma walkCost_push (c : node) (stack : list node) :
  walkCost os (c :: stack) <= 2 + walkCost os stack.
Proof. simpl. destruct (ReadDir os (fsPath c)); lia. Qed.

Lemma walkEntries_measure (n : node) (entries : list DirEntry) :
  forall stack seen st stack1 seen1 st1,
    walkEntries os fn n entries stack seen st = (None, stack1, seen1, st1) ->
    Nat.max 1 (walkCost os stack1) + 2 * size (U ∖ seen1)
    <= Nat.max 1 (walkCost os stack) + 2 * size (U ∖ seen).
Proof.
  induction entries as [|e entries IH]; intros stack seen st stack1 seen1 st1 H.
  - simpl in H. injection H as <- <- _. lia.
  - cbn [walkEntries] in H.
    destruct (followSymlink os _ e) as [childIsDir childFSPath].
    destruct (fn _ childFSPath e st) as [[err|] st0].
    + destruct (isSkipDir err); [eauto | discriminate].
    + destruct childIsDir; [|eauto].
      destruct (EvalSymlinks os childFSPath) as [real|err] eqn:Er.
      * destruct (bool_decide (real ∈ seen)) eqn:Es; [eauto|].
        apply bool_decide_eq_false in Es.
        apply IH in H.
        pose proof (size_unseen_insert U seen real
                      (canonical_finite _ _ Er) Es) as Hsz.
        pose proof (walkCost_push
                      {| fsPath := childFSPath;
                         rel := if negb (String.eqb (rel n) "")
                                then filepath.Join (rel n) (Name e)
                                else Name e |} stack) as Hc.
        lia.
      * apply IH in H.
        destruct (unresolved_unreadable _ _ Er) as [err' Hread].
        cbn [walkCost fsPath] in H. rewrite Hread in H. lia.
Qed.

(** The loop of the walk ends when its fuel covers the measure. *)
Lemma walkLoop_terminates (fuel : nat) :
  forall stack seen st,
    walkCost os stack + 2 * size (U ∖ seen) <= fuel ->
    exists r, walkLoop os fn fuel stack seen st = Some r.
Proof.
  induction fuel as [|f IH]; intros stack seen st Hm.
  - destruct stack as [|n s]; [simpl; eauto|].
    simpl in Hm. destruct (ReadDir os (fsPath n)); lia.
  - destruct stack as [|n s]; [simpl; eauto|].
    cbn [walkLoop]. cbn [walkCost] in Hm.
    destruct (ReadDir os (fsPath n)) as [entries|err]; [|eauto].
    destruct (walkEntries os fn n entries s seen st)
      as [[[[err|] stack1] seen1] st1] eqn:E; [eauto|].
    apply walkEntries_measure in E. apply IH. lia.
Qed.

(** X14.  [walkFollowSymlinks] returns.  When the canonical paths of
    the file system lie in a finite set and a path that has no canonical
    path cannot be read as a directory, the walk ends, whatever the
    callback answers and wherever the symlinks point: fuel for two
    turns for every canonical path and two more is enough. *)
Theorem walkFollowSymlinks_terminates (root : string) (st : St)
        (fuel : nat) :
  2 + 2 * size U <= fuel ->
  exists r, walkFollowSymlinks os fn fuel root st = Some r.
Proof.
  intros Hf. apply walkLoop_terminates.
  pose proof (walkCost_push {| fsPath := root; rel := "" |} []) as Hc.
  simpl walkCost at 2 in Hc.
  assert (Hs : size (U ∖ (∅ : gset string)) <= size U)
    by (apply subseteq_size; set_solver).
  lia.
Qed.
End WalkTermination.

Section TreeTermination.
Variable cfg : Config.
Variables rootFS rootLogical : string.
Variable hardFilters : list string.

Lemma renderEntries_terminates (f : nat) :
  (forall currentFS currentLogical prefix w seen,
      size (U ∖ seen) + 2 <= f ->
      exists res w' seen',
        writeTree f os cfg rootFS rootLogical currentFS currentLogical
                  prefix hardFilters (w, seen) = Some (res, (w', seen'))
        /\ seen ⊆ seen') ->
  forall currentFS currentLogical prefix total entries i w seen,
    size (U ∖ seen) + 2 <= S f ->
    exists w' seen',
      renderEntries os
        (writeTreeChild f os cfg rootFS rootLogical hardFilters)
        currentFS currentLogical prefix total i entries (w, seen)
      = Some (w', seen')
      /\ seen ⊆ seen'.
Proof.
  intros IHf cfs cl pfx total entries.
  induction entries as [|e entries IH]; intros i w seen Hm.
  - simpl. eauto.
  - cbn [renderEntries].
    destruct (followSymlink os _ e) as [childIsDir childPathFS].
    destruct childIsDir; [|apply IH; exact Hm].
    destruct (EvalSymlinks os childPathFS) as [real|err] eqn:Er.
    + destruct (bool_decide (real ∈ seen)) eqn:Es; [apply IH; exact Hm|].
      apply bool_decide_eq_false in Es.
      pose proof (size_unseen_insert U seen real
                    (canonical_finite _ _ Er) Es) as Hsz.
      unfold writeTreeChild at 1.
      destruct (IHf childPathFS (filepath.Join cl (Name e))
                    (if (i =? total - 1)%nat then pfx +:+ "    "
                     else pfx +:+ "│   ")
                    (w +:+ treeLine os cfs pfx total i e)
                    ({[real]} ∪ seen) ltac:(lia))
        as [res [w1 [seen1 [-> Hsub]]]].
      pose proof (size_unseen_mono U _ _ Hsub) as Hmono.
      destruct (IH (S i) w1 seen1 ltac:(lia)) as [w' [seen' [-> Hsub']]].
      exists w', seen'. split; [reflexivity | set_solver].
    + destruct (unresolved_unreadable _ _ Er) as [err' Hread].
      unfold writeTreeChild at 1.
      destruct f as [|f']; [lia|].
      rewrite writeTree_unfold, Hread.
      apply IH. exact Hm.
Qed.

(** The recursion of [writeTree] ends when its fuel covers the canonical
    paths that are not yet in [seen]. *)
Lemma writeTree_returns (fuel : nat) :
  forall currentFS currentLogical prefix w seen,
    size (U ∖ seen) + 2 <= fuel ->
    exists res w' seen',
      writeTree fuel os cfg rootFS rootLogical currentFS currentLogical
                prefix hardFilters (w, seen) = Some (res, (w', seen'))
      /\ seen ⊆ seen'.
Proof.
  induction fuel as [|f IH]; intros cfs cl pfx w seen Hm; [lia|].
  rewrite writeTree_unfold.
  destruct (ReadDir os cfs) as [entries|err].
  - cbv zeta.
    destruct (renderEntries_terminates f IH cfs cl pfx
                (length (finalEntries cfg rootLogical cl hardFilters entries))
                (finalEntries cfg rootLogical cl hardFilters entries)
                0 w seen Hm) as [w' [seen' [-> Hsub]]].
    eauto.
  - exists (Some err), w, seen. split; [reflexivity | set_solver].
Qed.

(** X16.  [writeTree] returns.  Under the same two conditions on the
    file system the recursion ends, wherever the symlinks point: fuel
    for one level for every canonical path that is not yet in [seen]
    and two more is enough, and [seen] only grows. *)
Theorem writeTree_terminates (fuel : nat) :
  forall currentFS currentLogical prefix w seen,
    size (U ∖ seen) + 2 <= fuel ->
    exists res w' seen',
      writeTree fuel os cfg rootFS rootLogical currentFS currentLogical
                prefix hardFilters (w, seen) = Some (res, (w', seen'))
      /\ seen ⊆ seen'.
Proof. exact (writeTree_returns fuel). Qed.
End TreeTermination.
End Termination.

(** ** Descents of the walk *)

Section Descents.
Context {St : Type}.
Variable os : OS.
Variable fn : string -> string -> DirEntry -> St -> option error * St.

(** The check of [seen] comes after the callback: an entry whose canonical
    path is already in [seen] is still given to the callback, and only
    then left without descent. *)
Lemma walkEntries_seen (n : node) (entry : DirEntry) (rest : list DirEntry)
      (stack : list node) (seen : gset string) (st st1 : St)
      (childFSPath real : string) :
  followSymlink os (filepath.Join (fsPath n) (Name entry)) entry
  = (true, childFSPath) ->
  fn (if negb (String.eqb (rel n) "")
      then filepath.Join (rel n) (Name entry) else Name entry)
     childFSPath entry st = (None, st1) ->
  EvalSymlinks os childFSPath = Ok real ->
  real ∈ seen ->
  walkEntries os fn n (entry :: rest) stack seen st
  = walkEntries os fn n rest stack seen st1.
Proof.
  intros Hf Hfn Hr Hs. cbn [walkEntries]. rewrite Hf, Hfn, Hr.
  now rewrite (bool_decide_eq_true_2 _ Hs).
Qed.

(** What one directory adds to the stack: nodes whose canonical paths are
    new to [seen], pairwise different, and in [seen] afterwards. *)
Lemma walkEntries_pushes (n : node) (entries : list DirEntry) :
  forall stack seen st r stack1 seen1 st1,
    walkEntries os fn n entries stack seen st = (r, stack1, seen1, st1) ->
    exists new,
      stack1 = new ++ stack
      /\ seen ⊆ seen1
      /\ NoDup (canonicalStack os new)
      /\ forall x, x ∈ canonicalStack os new -> (x ∉ seen) /\ (x ∈ seen1).
Proof.
  induction entries as [|e entries IH]; intros stack seen st r stack1 seen1 st1 H.
  - simpl in H. injection H as _ <- <- _. exists []. simpl.
    split; [reflexivity|]. split; [set_solver|]. split; [constructor|].
    intros x Hx. inversion Hx.
  - cbn [walkEntries] in H.
    destruct (followSymlink os _ e) as [childIsDir childFSPath].
    set (lr := if negb (String.eqb (rel n) "")
               then filepath.Join (rel n) (Name e) else Name e) in *.
    destruct (fn lr childFSPath e st) as [[err|] st0].
    + destruct (isSkipDir err); [eauto|].
      injection H as _ <- <- _. exists []. simpl.
      split; [reflexivity|]. split; [set_solver|]. split; [constructor|].
      intros x Hx. inversion Hx.
    + destruct childIsDir; [|eauto].
      destruct (EvalSymlinks os childFSPath) as [real|err] eqn:Er.
      * destruct (bool_decide (real ∈ seen)) eqn:Es; [eauto|].
        apply bool_decide_eq_false in Es.
        apply IH in H as [new [-> [Hsub [Hnd Hnew]]]].
        exists (new ++ [{| fsPath := childFSPath; rel := lr |}]).
        assert (Hc : canonicalStack os
                       (new ++ [{| fsPath := childFSPath; rel := lr |}])
                     = canonicalStack os new ++ [real]).
        { unfold canonicalStack. rewrite omap_app. simpl.
          unfold canonical at 2. simpl. now rewrite Er. }
        rewrite Hc. split; [now rewrite <- app_assoc|].
        split; [set_solver|]. split.
        -- apply NoDup_app. split; [exact Hnd|]. split; [|apply NoDup_singleton].
           intros x Hx Hx'. apply list_elem_of_singleton in Hx'. subst x.
           destruct (Hnew real Hx) as [Hn _]. set_solver.
        -- intros x Hx. apply elem_of_app in Hx as [Hx | Hx].
           ++ destruct (Hnew x Hx). set_solver.
           ++ apply list_elem_of_singleton in Hx. subst x. set_solver.
      * apply IH in H as [new [-> [Hsub [Hnd Hnew]]]].
        exists (new ++ [{| fsPath := childFSPath; rel := lr |}]).
        assert (Hc : canonicalStack os
                       (new ++ [{| fsPath := childFSPath; rel := lr |}])
                     = canonicalStack os new).
        { unfold canonicalStack. rewrite omap_app. simpl.
          unfold canonical at 2. simpl. rewrite Er. apply app_nil_r. }
        rewrite Hc. split; [now rewrite <- app_assoc|]. auto.
Qed.

(** From a stack whose canonical paths are pairwise different and all in
    [seen], the walk reads no canonical directory twice. *)
Lemma walkDescents_distinct (fuel : nat) :
  forall stack seen st,
    NoDup (canonicalStack os stack) ->
    (forall x, x ∈ canonicalStack os stack -> x ∈ seen) ->
    NoDup (omap (canonical os) (walkDescents os fn fuel stack seen st))
    /\ forall x,
        x ∈ omap (canonical os) (walkDescents os fn fuel stack seen st) ->
        x ∈ canonicalStack os stack \/ x ∉ seen.
Proof.
  induction fuel as [|f IH]; intros stack seen st Hnd Hin.
  - destruct stack; simpl; (split; [constructor | intros x Hx; inversion Hx]).
  - destruct stack as [|n stack'].
    { simpl. split; [constructor | intros x Hx; inversion Hx]. }
    cbn [walkDescents].
    assert (Hbase :
              NoDup (omap (canonical os) [fsPath n])
              /\ forall x, x ∈ omap (canonical os) [fsPath n] ->
                           x ∈ canonicalStack os (n :: stack') \/ x ∉ seen).
    { unfold canonicalStack. simpl.
      destruct (canonical os (fsPath n)) as [rn|].
      - split; [apply NoDup_singleton|]. intros x Hx. left.
        apply list_elem_of_singleton in Hx. subst. apply list_elem_of_here.
      - split; [constructor | intros x Hx; inversion Hx]. }
    destruct (ReadDir os (fsPath n)) as [entries|err]; [|exact Hbase].
    destruct (walkEntries os fn n entries stack' seen st)
      as [[[[err|] stack1] seen1] st1] eqn:E; [exact Hbase|].
    apply walkEntries_pushes in E as [new [-> [Hsub [Hndn Hnew]]]].
    assert (Hnd' : NoDup (canonicalStack os stack')).
    { unfold canonicalStack in Hnd |- *. simpl in Hnd.
      destruct (canonical os (fsPath n)); [now inversion Hnd | exact Hnd]. }
    assert (Hin' : forall x, x ∈ canonicalStack os stack' -> x ∈ seen).
    { intros x Hx. apply Hin. unfold canonicalStack in Hx |- *. simpl.
      destruct (canonical os (fsPath n)); [now apply list_elem_of_further | exact Hx]. }
    assert (Hcs : canonicalStack os (new ++ stack')
                  = canonicalStack os new ++ canonicalStack os stack').
    { unfold canonicalStack. apply omap_app. }
    destruct (IH (new ++ stack') seen1 st1) as [IH1 IH2].
    { rewrite Hcs. apply NoDup_app. split; [exact Hndn|]. split; [|exact Hnd'].
      intros x Hx Hx'. destruct (Hnew x Hx) as [Hn _]. apply Hn, Hin', Hx'. }
    { intros x. rewrite Hcs, elem_of_app. intros [Hx | Hx].
      - now destruct (Hnew x Hx).
      - apply Hsub, Hin', Hx. }
    assert (Htail : forall x,
               x ∈ omap (canonical os)
                        (walkDescents os fn f (new ++ stack') seen1 st1) ->
               x ∈ canonicalStack os stack' \/ x ∉ seen).
    { intros x Hx. destruct (IH2 x Hx) as [Hx' | Hx'].
      - rewrite Hcs, elem_of_app in Hx'. destruct Hx' as [Hx' | Hx'].
        + right. now destruct (Hnew x Hx').
        + now left.
      - right. intros Hs. apply Hx', Hsub, Hs. }
    simpl omap. unfold canonicalStack. simpl omap.
    destruct (canonical os (fsPath n)) as [rn|] eqn:En.
    + assert (Hrn : rn ∈ seen).
      { apply Hin. unfold canonicalStack. simpl. rewrite En.
        apply list_elem_of_here. }
      assert (Hrn' : rn ∉ canonicalStack os stack').
      { unfold canonicalStack in Hnd. simpl in Hnd. rewrite En in Hnd.
        now inversion Hnd. }
      split.
      * constructor; [|exact IH1]. intros Hx.
        destruct (Htail rn Hx) as [Hx' | Hx']; contradiction.
      * intros x Hx. apply elem_of_cons in Hx as [-> | Hx].
        -- left. apply list_elem_of_here.
        -- destruct (Htail x Hx) as [Hx' | Hx'].
           ++ left. now apply list_elem_of_further.
           ++ now right.
    + split; [exact IH1|]. exact Htail.
Qed.

(** X15.  [walkFollowSymlinks] reads the root first; the directories that it
    reads after that have pairwise different canonical paths.  The root
    itself is not in [seen] at the start, so its canonical path may be
    among them once more. *)
Theorem walkFollowSymlinks_descents (fuel : nat) (root : string) (st : St) :
  exists later,
    walkDescents os fn (S fuel) [{| fsPath := root; rel := "" |}] ∅ st
    = root :: later
    /\ NoDup (omap (canonical os) later).
Proof.
  cbn [walkDescents fsPath].
  destruct (ReadDir os root) as [entries|err].
  - destruct (walkEntries os fn {| fsPath := root; rel := "" |} entries [] ∅ st)
      as [[[[err|] stack1] seen1] st1] eqn:E.
    + exists []. split; [reflexivity | constructor].
    + eexists. split; [reflexivity|].
      apply walkEntries_pushes in E as [new [-> [_ [Hnd Hnew]]]].
      rewrite app_nil_r. apply walkDescents_distinct; [exact Hnd|].
      intros x Hx. now destruct (Hnew x Hx).
  - exists []. split; [reflexivity | constructor].
Qed.
End Descents.

(** In [cycleOS] the walk reads [/r], [/r/a], and [/r] again. *)
Example cycleOS_descents :
  walkDescents cycleOS recordVisit 8 [{| fsPath := "/r"; rel := "" |}] ∅ []
  = ["/r"; "/r/a"; "/r"].
Proof. vm_compute. reflexivity. Qed.

Section TreeSeen.
Variable os : OS.
Variable recur : string -> string -> string -> string * gset string
                 -> option (string * gset string).

(** In the tree too the check of [seen] comes after the line of the entry
    is written: a directory whose canonical path is already in [seen] has
    its line and no descent. *)
Lemma renderEntries_seen (currentFS currentLogical prefix : string)
      (total i : nat) (entry : DirEntry) (rest : list DirEntry)
      (w : string) (seen : gset string) (childPathFS real : string) :
  followSymlink os (filepath.Join currentFS (Name entry)) entry
  = (true, childPathFS) ->
  EvalSymlinks os childPathFS = Ok real ->
  real ∈ seen ->
  renderEntries os recur currentFS currentLogical prefix total i
                (entry :: rest) (w, seen)
  = renderEntries os recur currentFS currentLogical prefix total (S i) rest
                  (w +:+ treeLine os currentFS prefix total i entry, seen).
Proof.
  intros Hf Hr Hs. cbn [renderEntries]. rewrite Hf, Hr.
  now rewrite (bool_decide_eq_true_2 _ Hs).
Qed.
End TreeSeen.

(** ** More fuel does not change a result *)

Lemma walkLoop_fuel_mono {St : Type} (os : OS)
      (fn : string -> string -> DirEntry -> St -> option error * St)
      (fuel : nat) :
  forall stack seen st r,
    walkLoop os fn fuel stack seen st = Some r ->
    walkLoop os fn (S fuel) stack seen st = Some r.
Proof.
  induction fuel as [|f IH]; intros stack seen st r H.
  - destruct stack as [|n s]; [exact H | discriminate H].
  - destruct stack as [|n s]; [exact H|].
    cbn [walkLoop] in H |- *.
    destruct (ReadDir os (fsPath n)) as [entries|err]; [|exact H].
    destruct (walkEntries os fn n entries s seen st)
      as [[[[err|] stack1] seen1] st1]; [exact H|].
    apply IH. exact H.
Qed.

Lemma renderEntries_recur_mono (os : OS)
      (recur recur' : string -> string -> string -> string * gset string
                      -> option (string * gset string))
      (currentFS currentLogical prefix : string) (total : nat)
      (entries : list DirEntry) :
  (forall a b c st st', recur a b c st = Some st' -> recur' a b c st = Some st') ->
  forall i st st',
    renderEntries os recur currentFS currentLogical prefix total i entries st
    = Some st' ->
    renderEntries os recur' currentFS currentLogical prefix total i entries st
    = Some st'.
Proof.
  intros Hrec. induction entries as [|e entries IH]; intros i st st' H;
    [exact H|].
  cbn [renderEntries] in H |- *. destruct st as [w seen].
  destruct (followSymlink os _ e) as [childIsDir childPathFS].
  destruct childIsDir; [|apply IH; exact H].
  destruct (EvalSymlinks os childPathFS) as [real|err].
  - destruct (bool_decide (real ∈ seen)); [apply IH; exact H|].
    destruct (recur _ _ _ _) as [st1|] eqn:E; [|discriminate H].
    rewrite (Hrec _ _ _ _ _ E). apply IH. exact H.
  - destruct (recur _ _ _ _) as [st1|] eqn:E; [|discriminate H].
    rewrite (Hrec _ _ _ _ _ E). apply IH. exact H.
Qed.

Lemma writeTree_fuel_mono (os : OS) (cfg : Config)
      (rootFS rootLogical : string) (hardFilters : list string) (fuel : nat) :
  forall currentFS currentLogical prefix st r,
    writeTree fuel os cfg rootFS rootLogical currentFS currentLogical prefix
              hardFilters st = Some r ->
    writeTree (S fuel) os cfg rootFS rootLogical currentFS currentLogical
              prefix hardFilters st = Some r.
Proof.
  induction fuel as [|f IH]; intros cfs cl pfx st r H; [discriminate H|].
  rewrite writeTree_unfold in H. rewrite writeTree_unfold.
  destruct (ReadDir os cfs) as [entries|err]; [|exact H].
  cbv zeta in H |- *.
  destruct (renderEntries os (writeTreeChild f _ _ _ _ _) _ _ _ _ _ _ _)
    as [st1|] eqn:E; [|discriminate H].
  rewrite (renderEntries_recur_mono os
             (writeTreeChild f os cfg rootFS rootLogical hardFilters)
             (writeTreeChild (S f) os cfg rootFS rootLogical hardFilters)
             cfs cl pfx _ _) with (st' := st1); [exact H | | exact E].
  intros a b c s0 s1 Hc. unfold writeTreeChild in Hc |- *.
  destruct (writeTree f os cfg rootFS rootLogical a b c hardFilters s0)
    as [[res s2]|] eqn:Ew; [|discriminate Hc].
  now rewrite (IH _ _ _ _ _ Ew).
Qed.

(** The hypotheses of the two termination theorems hold for [cycleOS], and
    the fuel that the theorems ask for is enough there. *)
Lemma cycleOS_canonical_finite (p real : string) :
  EvalSymlinks cycleOS p = Ok real ->
  real ∈ ({["/r"; "/r/a"; "/r/f.txt"]} : gset string).
Proof.
  unfold cycleOS, tableOS. cbn [EvalSymlinks lookupTable].
  repeat match goal with
         | |- context [String.eqb ?a p] => destruct (String.eqb a p)
         end;
    intros H; try discriminate H; injection H as <-; set_solver.
Qed.

Lemma cycleOS_unresolved_unreadable (p : string) (err : error) :
  EvalSymlinks cycleOS p = Err err -> exists err', ReadDir cycleOS p = Err err'.
Proof.
  unfold cycleOS, tableOS. cbn [EvalSymlinks ReadDir lookupTable].
  repeat match goal with
         | |- context [String.eqb ?a p] => destruct (String.eqb a p)
         end;
    intros H; try discriminate H; eauto.
Qed.

Lemma walkFollowSymlinks_terminates_witness :
  exists r, walkFollowSymlinks cycleOS recordVisit 8 "/r" [] = Some r.
Proof.
  apply (walkFollowSymlinks_terminates cycleOS {["/r"; "/r/a"; "/r/f.txt"]}
           cycleOS_canonical_finite cycleOS_unresolved_unreadable).
  vm_compute. lia.
Defined.

Lemma writeTree_terminates_witness :
  exists res w seen,
    writeTree 5 cycleOS config "/r" "/r" "/r" "/r" "" [] ("", ∅)
    = Some (res, (w, seen)) /\ (∅ : gset string) ⊆ seen.
Proof.
  apply (writeTree_terminates cycleOS {["/r"; "/r/a"; "/r/f.txt"]}
           cycleOS_canonical_finite cycleOS_unresolved_unreadable).
  vm_compute. lia.
Defined.

(** C3, where the code departs from it.  In [/r] the directory [a] holds a
    symlink to [/r] itself.  The walk ends, and so does the tree, but the
    root is not in [seen] when the walk starts: the link leads into it a
    second time, its entries are yielded twice, the file [f.txt] gets two
    content blocks and the tree lists the entries of the root twice. *)
Theorem cycle_to_root_descends_twice :
  walkFollowSymlinks cycleOS recordVisit 8 "/r" []
  = Some (None, [("a", "/r/a"); ("f.txt", "/r/f.txt"); ("a/up", "/r");
                 ("a/up/a", "/r/a"); ("a/up/f.txt", "/r/f.txt")])
  /\ option_map (fun r => doc (snd r))
       (main 8 cycleOS config ["/r"] [] [] "/out/r_context.md")
     = Some ("# Project Structure" +:+ nl +:+ nl +:+ "```text" +:+ nl
             +:+ "r/" +:+ nl
             +:+ "├── a" +:+ nl
             +:+ "│   └── up -> .." +:+ nl
             +:+ "│       ├── a" +:+ nl
             +:+ "│       └── f.txt" +:+ nl
             +:+ "└── f.txt" +:+ nl +:+ nl
             +:+ "```" +:+ nl +:+ nl +:+ "---" +:+ nl +:+ nl
             +:+ "# File Contents" +:+ nl +:+ nl
             +:+ contentBlock "/r/f.txt" ("hi" +:+ nl)
             +:+ contentBlock "/r/f.txt" ("hi" +:+ nl)).
Proof. split; vm_compute; reflexivity. Qed.

(** C9, where the code departs from it.  In [/s] the hidden entry [.cfg] is
    a symlink to a directory.  The tree pass drops it.  The callback of the
    content pass answers [nil] for it, because [IsDir] is false for a
    symlink, and the walk descends into its target: the file below it gets
    a content block. *)
Theorem hidden_symlink_dir_not_pruned :
  isJunk config ".cfg" = true
  /\ contentVisit hiddenLinkOS config "/out/s_context.md" [] []
                  ".cfg" "/etc/cfg" (linkEntry ".cfg") emptySink
     = (None, emptySink)
  /\ walkFollowSymlinks hiddenLinkOS recordVisit 8 "/s" []
     = Some (None, [(".cfg", "/etc/cfg"); ("a.txt", "/s/a.txt");
                    (".cfg/secret.txt", "/etc/cfg/secret.txt")])
  /\ option_map (fun r => doc (snd r))
       (main 8 hiddenLinkOS config ["/s"] [] [] "/out/s_context.md")
     = Some ("# Project Structure" +:+ nl +:+ nl +:+ "```text" +:+ nl
             +:+ "s/" +:+ nl
             +:+ "└── a.txt" +:+ nl +:+ nl
             +:+ "```" +:+ nl +:+ nl +:+ "---" +:+ nl +:+ nl
             +:+ "# File Contents" +:+ nl +:+ nl
             +:+ contentBlock "/s/a.txt" ("A" +:+ nl)
             +:+ contentBlock "/etc/cfg/secret.txt" ("key" +:+ nl)).
Proof. repeat split; vm_compute; reflexivity. Qed.

(** ** More on the filter engine *)

(** X1.  A rule that ends in [/*] matches exactly the paths below its directory,
    at every depth, and never the directory itself; it is not read as a
    glob pattern. *)
Theorem contents_only_rule_matches (rule p : string) :
  rule <> "" -> contentsOnlyRule rule = true ->
  (ruleHits p rule = true <->
     ruleParent rule <> "" /\ exists t, p = ruleParent rule +:+ "/" +:+ t)
  /\ ruleHits (ruleParent rule) rule = false.
Proof.
  intros Hr Hk. apply String.eqb_neq in Hr.
  assert (Hm : forall q, ruleHits q rule
                 = negb (String.eqb (ruleParent rule) "")
                   && strings.HasPrefix q (ruleParent rule +:+ "/")
                   && negb (String.eqb q (ruleParent rule))).
  { intros q. unfold ruleHits, ruleMatched. rewrite Hr, ToSlash_id.
    unfold contentsOnlyRule in Hk. rewrite ToSlash_id in Hk. rewrite Hk.
    reflexivity. }
  split.
  - rewrite Hm, !andb_true_iff, !negb_true_iff, !String.eqb_neq, HasPrefix_spec.
    setoid_rewrite app_assoc_s. split.
    + intros [[Hp Ht] _]. auto.
    + intros [Hp [t Ht]]. repeat split; [exact Hp | now exists t |].
      intros E. rewrite E in Ht at 1.
      apply (f_equal String.length) in Ht. rewrite !length_app_s in Ht.
      simpl in Ht. lia.
  - rewrite Hm, String.eqb_refl. simpl. apply andb_false_r.
Qed.

Lemma contents_only_rule_matches_witness :
  ruleHits "build/obj/x.o" "!build/*" = true
  /\ ruleHits "build" "!build/*" = false
  /\ checkFilter "build/obj/x.o" ["build/*"] = (true, "build/*").
Proof.
  destruct (contents_only_rule_matches "!build/*" "build/obj/x.o"
              ltac:(discriminate) eq_refl) as [H1 H2].
  split; [|split; [exact H2 | reflexivity]].
  apply H1. split; [discriminate|]. now exists "obj/x.o".
Defined.

Lemma checkFilterLoop_inversion (full : string) (rules : list string) :
  forall m r,
    checkFilterLoop full rules = (m, r) ->
    (r = "" /\ m = false /\ Forall (fun q => ruleHits full q = false) rules)
    \/ (r <> ""
        /\ exists pre post,
            rules = pre ++ r :: post
            /\ Forall (fun q => ruleHits full q = false) pre
            /\ ruleHits full r = true
            /\ m = negb (strings.HasPrefix r "!")).
Proof.
  induction rules as [|q rules IH]; intros m r H.
  - simpl in H. injection H as <- <-. left. repeat split. constructor.
  - simpl in H. destruct (String.eqb q "") eqn:Eq.
    + assert (Hq : ruleHits full q = false) by (unfold ruleHits; now rewrite Eq).
      destruct (IH m r H) as [[H1 [H2 H3]] | [H1 [pre [post [H2 [H3 [H4 H5]]]]]]].
      * left. repeat split; auto.
      * right. split; [exact H1|]. exists (q :: pre), post. subst rules.
        repeat split; auto.
    + destruct (ruleMatched full q) eqn:Em.
      * right.
        assert (Hr : r = q /\ m = negb (strings.HasPrefix q "!")).
        { destruct (strings.HasPrefix q "!"); injection H as <- <-; auto. }
        destruct Hr as [-> ->]. split; [now apply String.eqb_neq|].
        exists [], rules. repeat split; [constructor|].
        unfold ruleHits. now rewrite Eq, ToSlash_id, Em.
      * assert (Hq : ruleHits full q = false).
        { unfold ruleHits. now rewrite ToSlash_id, Em, andb_false_r. }
        destruct (IH m r H) as [[H1 [H2 H3]] | [H1 [pre [post [H2 [H3 [H4 H5]]]]]]].
        -- left. repeat split; auto.
        -- right. split; [exact H1|]. exists (q :: pre), post. subst rules.
           repeat split; auto.
Qed.

(** X2.  Whatever [checkFilter] answers has a reason in the list.  When it
    reports a rule, the rule is a non-empty member of the list that matches
    the path, no rule before it matches, and the verdict is [true] exactly
    when the rule has no negation marker.  When it reports no rule, the
    verdict is [false], and the path is empty or no rule matches. *)
Theorem checkFilter_inversion (p : string) (rules : list string)
        (m : bool) (r : string) :
  checkFilter p rules = (m, r) ->
  (r = "" /\ m = false
   /\ (p = "" \/ Forall (fun q => ruleHits p q = false) rules))
  \/ (r <> "" /\ p <> ""
      /\ exists pre post,
          rules = pre ++ r :: post
          /\ Forall (fun q => ruleHits p q = false) pre
          /\ ruleHits p r = true
          /\ m = negb (strings.HasPrefix r "!")).
Proof.
  unfold checkFilter. destruct (String.eqb p "") eqn:Ep.
  - intros H. injection H as <- <-. left. apply String.eqb_eq in Ep. auto.
  - rewrite ToSlash_id. intros H. apply String.eqb_neq in Ep.
    destruct (checkFilterLoop_inversion p rules m r H)
      as [[H1 [H2 H3]] | [H1 H2]]; [left | right]; auto.
Qed.

Lemma checkFilter_inversion_witness :
  exists pre post,
    ["docs/"; ""; "!*.go"; "src"] = pre ++ "!*.go" :: post
    /\ Forall (fun q => ruleHits "src/main.go" q = false) pre
    /\ ruleHits "src/main.go" "!*.go" = true.
Proof.
  destruct (checkFilter_inversion "src/main.go" ["docs/"; ""; "!*.go"; "src"]
              false "!*.go" eq_refl)
    as [[H _] | [_ [_ [pre [post [H1 [H2 [H3 _]]]]]]]]; [discriminate H|].
  exists pre, post. auto.
Defined.

(** ** [isFiltered], the filter of the first iteration *)

Lemma isFilteredLoop_skip (norm : string) (rules : list string) :
  Forall (fun q => oldRuleHits norm q = false) rules ->
  forall ignored, isFilteredLoop norm rules ignored = ignored.
Proof.
  induction 1 as [|q rules Hq _ IH]; intros ignored; [reflexivity|].
  simpl. unfold oldRuleHits in Hq. rewrite ToSlash_id in Hq.
  destruct (String.eqb (strings.TrimPrefix q "!") ""); [apply IH|].
  simpl in Hq.
  destruct (path.Match (strings.TrimPrefix q "!") norm) as [[|] [e|]];
    try discriminate Hq; apply IH.
Qed.

Lemma isFilteredLoop_app (norm : string) (pre rest : list string) :
  forall ignored,
    isFilteredLoop norm (pre ++ rest) ignored
    = isFilteredLoop norm rest (isFilteredLoop norm pre ignored).
Proof.
  induction pre as [|q pre IH]; intros ignored; [reflexivity|].
  simpl. destruct (String.eqb (strings.TrimPrefix q "!") ""); [apply IH|].
  destruct (path.Match (strings.TrimPrefix q "!") norm) as [m [e|]]; apply IH.
Qed.

(** X3.  [isFiltered] decides by the last rule that matches: the verdict is
    [true] exactly when that rule has no negation marker, whatever the
    rules before it say; when no rule matches the verdict is [false]. *)
Theorem isFiltered_last_match_wins (p : string) (rules : list string) :
  p <> "" ->
  (forall pre r post,
      rules = pre ++ r :: post ->
      oldRuleHits p r = true ->
      Forall (fun q => oldRuleHits p q = false) post ->
      isFiltered p rules = negb (strings.HasPrefix r "!"))
  /\ (Forall (fun q => oldRuleHits p q = false) rules ->
      isFiltered p rules = false).
Proof.
  intros Hp. apply String.eqb_neq in Hp. unfold isFiltered. rewrite Hp, ToSlash_id.
  split.
  - intros pre r post -> Hr Hpost.
    rewrite isFilteredLoop_app. simpl.
    unfold oldRuleHits in Hr. rewrite ToSlash_id in Hr.
    apply andb_true_iff in Hr as [Hne Hm]. apply negb_true_iff in Hne.
    rewrite Hne.
    destruct (path.Match (strings.TrimPrefix r "!") p) as [[|] [e|]];
      try discriminate Hm.
    now rewrite isFilteredLoop_skip.
  - intros H. now apply isFilteredLoop_skip.
Qed.

Lemma isFiltered_last_match_wins_witness :
  isFiltered "a.txt" ["*.txt"; "!a.txt"; "b*"] = false
  /\ isFiltered "a.txt" ["!a.txt"; "*.txt"; "b*"] = true
  /\ isFiltered "src/a.txt" ["src"; "*.txt"] = false.
Proof.
  split; [|split].
  - apply (proj1 (isFiltered_last_match_wins "a.txt"
                    ["*.txt"; "!a.txt"; "b*"] ltac:(discriminate))
             ["*.txt"] "!a.txt" ["b*"]); [reflexivity | reflexivity |].
    repeat constructor.
  - apply (proj1 (isFiltered_last_match_wins "a.txt"
                    ["!a.txt"; "*.txt"; "b*"] ltac:(discriminate))
             ["!a.txt"] "*.txt" ["b*"]); [reflexivity | reflexivity |].
    repeat constructor.
  - apply (proj2 (isFiltered_last_match_wins "src/a.txt" ["src"; "*.txt"]
                    ltac:(discriminate))).
    repeat constructor.
Defined.

(** ** [normalizeFilters] *)

Lemma hasByte_app (c : ascii) (a b : string) :
  hasByte c (a +:+ b) = hasByte c a || hasByte c b.
Proof.
  induction a as [|x a IH]; simpl; [reflexivity|].
  rewrite IH. now destruct (Ascii.eqb x c).
Qed.

Lemma hasByte_take (c : ascii) (n : nat) (s : string) :
  hasByte c s = false -> hasByte c (strings.take n s) = false.
Proof.
  revert s; induction n as [|n IH]; intros [|x s]; simpl; try reflexivity.
  rewrite orb_false_iff. intros [-> H]. simpl. now apply IH.
Qed.

Lemma HasPrefix_one (c x : ascii) (s : string) :
  strings.HasPrefix (String x s) (String c "") = Ascii.eqb x c.
Proof.
  rewrite HasPrefix_cons. unfold strings.HasPrefix. simpl. apply andb_true_r.
Qed.

Lemma replaceAll_backslash (s : string) :
  forall fuel,
    String.length s <= fuel ->
    hasByte "\" (strings.replaceAll fuel s "\" "/") = false
    /\ (hasByte "\" s = false -> strings.replaceAll fuel s "\" "/" = s).
Proof.
  induction s as [|x s IH]; intros fuel Hf.
  - destruct fuel; simpl; auto.
  - destruct fuel as [|f]; [simpl in Hf; lia|].
    simpl in Hf. destruct (IH f ltac:(lia)) as [IH1 IH2].
    cbn [strings.replaceAll]. rewrite HasPrefix_one.
    destruct (Ascii.eqb x "\") eqn:E.
    + simpl strings.drop. split.
      * simpl. exact IH1.
      * simpl. rewrite E. discriminate.
    + split.
      * simpl. now rewrite E, IH1.
      * simpl. rewrite E. simpl. intros H. now rewrite IH2.
Qed.

Lemma ReplaceAll_backslash (s : string) :
  hasByte "\" (strings.ReplaceAll s "\" "/") = false
  /\ (hasByte "\" s = false -> strings.ReplaceAll s "\" "/" = s).
Proof.
  unfold strings.ReplaceAll. simpl String.eqb. cbv iota.
  apply replaceAll_backslash. lia.
Qed.

Lemma TrimSuffix_not (s x : string) :
  strings.HasSuffix s x = false -> strings.TrimSuffix s x = s.
Proof. intros H. unfold strings.TrimSuffix. now rewrite H. Qed.

Lemma TrimSuffix_keep (s x : string) :
  strings.HasSuffix s x = true -> strings.TrimSuffix s x +:+ x = s.
Proof.
  intros H. apply HasSuffix_spec in H as [t ->]. now rewrite TrimSuffix_app.
Qed.

Lemma normalizeFilters_map (filters : list string) :
  normalizeFilters filters
  = map normalizeRule
        (List.filter (fun f => negb (String.eqb f "")) filters).
Proof.
  induction filters as [|f filters IH]; [reflexivity|]. simpl.
  destruct (String.eqb f ""); simpl; [exact IH|].
  now rewrite IH.
Qed.

Lemma normalizeRule_no_backslash (f : string) :
  hasByte "\" (normalizeRule f) = false.
Proof.
  unfold normalizeRule.
  destruct (ReplaceAll_backslash f) as [H _].
  set (g := strings.ReplaceAll f "\" "/") in *.
  destruct (strings.HasSuffix g "/*") eqn:E.
  - now rewrite (TrimSuffix_keep g "/*" E).
  - unfold strings.TrimSuffix. destruct (strings.HasSuffix g "/"); [|exact H].
    now apply hasByte_take.
Qed.

Lemma normalizeRule_id (f : string) :
  hasByte "\" f = false -> strings.HasSuffix f "/" = false ->
  normalizeRule f = f.
Proof.
  intros Hb Hs. unfold normalizeRule.
  rewrite (proj2 (ReplaceAll_backslash f) Hb).
  destruct (strings.HasSuffix f "/*") eqn:E.
  - now apply TrimSuffix_keep.
  - now apply TrimSuffix_not.
Qed.

(** X4.  [normalizeFilters] keeps the order of the rules: its result is the
    list of the non-empty rules, in the order of the input, each one
    rewritten by the body of the loop (backslashes become slashes, then a
    slash at the end is cut off unless the rule ends in [/*]).  Hence it
    drops the empty rules and no other rule, leaves no backslash in any
    rule, and does not change a list of non-empty rules that have no
    backslash and no slash at the end. *)
Theorem normalizeFilters_shape (filters : list string) :
  normalizeFilters filters
  = map normalizeRule
        (List.filter (fun f => negb (String.eqb f "")) filters)
  /\ (forall f,
        normalizeRule f
        = if strings.HasSuffix (strings.ReplaceAll f "\" "/") "/*"
          then strings.ReplaceAll f "\" "/"
          else strings.TrimSuffix (strings.ReplaceAll f "\" "/") "/")
  /\ length (normalizeFilters filters)
     = length (List.filter (fun f => negb (String.eqb f "")) filters)
  /\ Forall (fun f => hasByte "\" f = false) (normalizeFilters filters)
  /\ (Forall (fun f => f <> "" /\ hasByte "\" f = false
                       /\ strings.HasSuffix f "/" = false) filters ->
      normalizeFilters filters = filters).
Proof.
  split; [apply normalizeFilters_map|]. split.
  { intros f. unfold normalizeRule.
    destruct (strings.HasSuffix (strings.ReplaceAll f "\" "/") "/*") eqn:E;
      [now apply TrimSuffix_keep | reflexivity]. }
  rewrite normalizeFilters_map. split; [apply length_map|]. split.
  - apply Forall_map, Forall_forall. intros f _.
    apply normalizeRule_no_backslash.
  - induction 1 as [|f filters [Hne [Hb Hs]] _ IH]; [reflexivity|].
    simpl. apply String.eqb_neq in Hne. rewrite Hne. simpl.
    now rewrite IH, normalizeRule_id.
Qed.

Lemma normalizeFilters_shape_witness :
  normalizeFilters ["src"; "!keep.txt"; "build/*"; "*.png"]
  = ["src"; "!keep.txt"; "build/*"; "*.png"]
  /\ normalizeFilters ["a\b\"; ""; "c/"; "d\*"; "!e//"]
     = ["a/b"; "c"; "d/*"; "!e/"].
Proof.
  split.
  - apply (proj2 (proj2 (proj2 (proj2 (normalizeFilters_shape
                           ["src"; "!keep.txt"; "build/*"; "*.png"]))))).
    repeat constructor; discriminate.
  - rewrite (proj1 (normalizeFilters_shape
                      ["a\b\"; ""; "c/"; "d\*"; "!e//"])).
    reflexivity.
Defined.

Lemma lastByteIs_app_one (c d : ascii) (s : string) :
  lastByteIs c (s +:+ String d "") = Ascii.eqb d c.
Proof.
  induction s as [|x s IH]; [reflexivity|].
  destruct s as [|y s]; [reflexivity|].
  change (String x (String y s) +:+ String d "")
    with (String x (String y (s +:+ String d ""))).
  rewrite lastByteIs_cons. exact IH.
Qed.

Lemma HasSuffix_last (s x : string) (d : ascii) :
  strings.HasSuffix s (x +:+ String d "") = true ->
  lastByteIs d s = true.
Proof.
  intros H. apply HasSuffix_spec in H as [t ->].
  rewrite <- app_assoc_s, lastByteIs_app_one. apply Ascii.eqb_refl.
Qed.

Lemma HasSuffix_slash_star (x : string) :
  strings.HasSuffix (x +:+ "/") "/*" = false.
Proof.
  destruct (strings.HasSuffix (x +:+ "/") "/*") eqn:E; [|reflexivity].
  apply (HasSuffix_last _ "/" "*") in E.
  rewrite lastByteIs_app_one in E. discriminate E.
Qed.

(** A rule is its negation marker, if any, followed by the rest. *)
Lemma TrimPrefix_split (g : string) :
  exists pre, g = pre +:+ strings.TrimPrefix g "!".
Proof.
  unfold strings.TrimPrefix. destruct (strings.HasPrefix g "!") eqn:E.
  - apply HasPrefix_spec in E as [t ->]. exists "!".
    now rewrite drop_length_app.
  - now exists "".
Qed.

Lemma HasSuffix_TrimPrefix (g x : string) :
  strings.HasSuffix (strings.TrimPrefix g "!") x = true ->
  strings.HasSuffix g x = true.
Proof.
  intros H. destruct (TrimPrefix_split g) as [pre Hg].
  apply HasSuffix_spec in H as [t Ht]. apply HasSuffix_spec.
  exists (pre +:+ t). rewrite Hg at 1. rewrite Ht. now rewrite app_assoc_s.
Qed.

Lemma HasPrefix_bang_app (g x : string) :
  g <> "" -> strings.HasPrefix (g +:+ x) "!" = strings.HasPrefix g "!".
Proof.
  destruct g as [|c g]; [congruence|]. intros _.
  change (String c g +:+ x) with (String c (g +:+ x)).
  now rewrite !HasPrefix_one.
Qed.

Lemma TrimPrefix_bang_app (g x : string) :
  g <> "" ->
  strings.TrimPrefix (g +:+ x) "!" = strings.TrimPrefix g "!" +:+ x.
Proof.
  intros Hg. unfold strings.TrimPrefix. rewrite (HasPrefix_bang_app g x Hg).
  destruct g as [|c g]; [congruence|].
  destruct (strings.HasPrefix (String c g) "!"); reflexivity.
Qed.

Lemma Base_nonempty (p : string) : filepath.Base p <> "".
Proof.
  unfold filepath.Base. destruct (String.eqb p ""); [discriminate|].
  match goal with
  | |- (if String.eqb ?x "" then _ else _) <> _ =>
      destruct (String.eqb x "") eqn:E
  end; [discriminate | now apply String.eqb_neq].
Qed.

Lemma Match_empty_pattern (name : string) :
  path.Match "" name = (String.eqb name "", None).
Proof. reflexivity. Qed.

(** The rule [/], and the rule [!/], match no path that is not empty. *)
Lemma ruleMatched_empty_dir (p rule : string) :
  p <> "" -> contentsOnlyRule rule = false -> ruleDir rule = "" ->
  ruleMatched p rule = false.
Proof.
  intros Hp Hk Hd. rewrite (ruleMatched_dir p rule Hk), Hd.
  rewrite !Match_empty_pattern. simpl.
  apply String.eqb_neq in Hp. rewrite Hp. simpl.
  apply String.eqb_neq, Base_nonempty.
Qed.

(** A rule with one slash at the end and the same rule without that slash
    match the same paths. *)
Lemma ruleMatched_trailing_slash (p g : string) :
  g <> "" ->
  strings.HasSuffix (g +:+ "/") "//" = false ->
  strings.HasSuffix (g +:+ "/") "/*/" = false ->
  ruleMatched p g = ruleMatched p (g +:+ "/").
Proof.
  intros Hg H2 H3.
  assert (Hc : contentsOnlyRule (g +:+ "/") = false).
  { unfold contentsOnlyRule. rewrite ToSlash_id, (TrimPrefix_bang_app g "/" Hg).
    apply HasSuffix_slash_star. }
  assert (Hd : ruleDir (g +:+ "/") = strings.TrimPrefix g "!").
  { unfold ruleDir. rewrite ToSlash_id, (TrimPrefix_bang_app g "/" Hg).
    apply TrimSuffix_app. }
  assert (Hc' : contentsOnlyRule g = false).
  { unfold contentsOnlyRule. rewrite ToSlash_id.
    destruct (strings.HasSuffix (strings.TrimPrefix g "!") "/*") eqn:E;
      [|reflexivity].
    apply HasSuffix_TrimPrefix, HasSuffix_spec in E as [t ->].
    assert (Hx : strings.HasSuffix ((t +:+ "/*") +:+ "/") "/*/" = true).
    { apply HasSuffix_spec. exists t. now rewrite app_assoc_s. }
    congruence. }
  assert (Hd' : ruleDir g = strings.TrimPrefix g "!").
  { unfold ruleDir. rewrite ToSlash_id. apply TrimSuffix_not.
    destruct (strings.HasSuffix (strings.TrimPrefix g "!") "/") eqn:E;
      [|reflexivity].
    apply HasSuffix_TrimPrefix, HasSuffix_spec in E as [t ->].
    assert (Hx : strings.HasSuffix ((t +:+ "/") +:+ "/") "//" = true).
    { apply HasSuffix_spec. exists t. now rewrite app_assoc_s. }
    congruence. }
  now rewrite (ruleMatched_dir p g Hc'), (ruleMatched_dir p _ Hc), Hd, Hd'.
Qed.

(** What normalization does to one plain rule: the rule is kept, or it loses
    its one slash at the end. *)
Lemma normalizeRule_plain (f : string) :
  plainRule f ->
  normalizeRule f = f \/ (f = normalizeRule f +:+ "/").
Proof.
  intros [Hb _].
  destruct (strings.HasSuffix f "/") eqn:E.
  - right. unfold normalizeRule. rewrite (proj2 (ReplaceAll_backslash f) Hb).
    apply HasSuffix_spec in E as [t ->].
    now rewrite HasSuffix_slash_star, TrimSuffix_app.
  - left. now apply normalizeRule_id.
Qed.

Lemma checkFilterLoop_normalize (p : string) (filters : list string) :
  p <> "" -> Forall plainRule filters ->
  checkFilterLoop p (normalizeFilters filters)
  = (fst (checkFilterLoop p filters),
     normalizeRule (snd (checkFilterLoop p filters))).
Proof.
  intros Hp. induction 1 as [|f filters Hf _ IH]; [reflexivity|].
  cbn [normalizeFilters checkFilterLoop].
  destruct (String.eqb f "") eqn:Ef; [exact IH|].
  fold (normalizeRule f).
  apply String.eqb_neq in Ef.
  destruct (normalizeRule_plain f Hf) as [Hn | Hn].
  - rewrite Hn. cbn [checkFilterLoop].
    apply String.eqb_neq in Ef. rewrite Ef.
    destruct (ruleMatched p f); [|exact IH].
    destruct (strings.HasPrefix f "!"); simpl; now rewrite Hn.
  - remember (normalizeRule f) as g eqn:Hg. destruct Hf as [_ [H2 H3]].
    cbn [checkFilterLoop].
    destruct (String.eqb g "") eqn:Eg.
    + apply String.eqb_eq in Eg. rewrite Eg in Hn. simpl in Hn.
      rewrite Hn, (ruleMatched_empty_dir p "/" Hp eq_refl eq_refl). exact IH.
    + apply String.eqb_neq in Eg.
      assert (Hm : ruleMatched p f = ruleMatched p g).
      { rewrite Hn in H2, H3. rewrite Hn.
        symmetry. now apply ruleMatched_trailing_slash. }
      assert (Hb : strings.HasPrefix f "!" = strings.HasPrefix g "!").
      { rewrite Hn. now apply HasPrefix_bang_app. }
      rewrite Hm, Hb.
      destruct (ruleMatched p g); [|exact IH].
      destruct (strings.HasPrefix g "!"); simpl; now rewrite <- Hg.
Qed.

(** X5.  Normalizing plain rules does not change the verdict of
    [checkFilter],
    and the rule reported is the normalized form of the rule that decides
    among the rules as given. *)
Theorem checkFilter_normalizeFilters (p : string) (filters : list string) :
  Forall plainRule filters ->
  checkFilter p (normalizeFilters filters)
  = (fst (checkFilter p filters), normalizeRule (snd (checkFilter p filters))).
Proof.
  intros H. unfold checkFilter. destruct (String.eqb p "") eqn:Ep;
    [reflexivity|].
  rewrite ToSlash_id. apply checkFilterLoop_normalize; [|exact H].
  now apply String.eqb_neq.
Qed.

Lemma checkFilter_normalizeFilters_witness :
  checkFilter "src/gen/a.go" (normalizeFilters ["docs/"; "/"; "src/gen/"])
  = (true, "src/gen")
  /\ checkFilter "src/gen/a.go" ["docs/"; "/"; "src/gen/"]
     = (true, "src/gen/").
Proof.
  split; [|reflexivity].
  rewrite (checkFilter_normalizeFilters "src/gen/a.go"
             ["docs/"; "/"; "src/gen/"]).
  - reflexivity.
  - repeat constructor.
Defined.

Lemma app_same_inv (s b : string) : s +:+ b = s -> b = "".
Proof.
  intros H. apply (f_equal String.length) in H. rewrite length_app_s in H.
  destruct b; [reflexivity | simpl in H; lia].
Qed.

Lemma contentBlock_nonempty (path u : string) : contentBlock path u <> "".
Proof. unfold contentBlock. simpl. discriminate. Qed.

Lemma convertToUTF8_valid (os : OS) (content u enc : string) :
  convertToUTF8 os content = (u, enc, None) -> utf8.Valid u = true.
Proof.
  unfold convertToUTF8. destruct (utf8.Valid content) eqn:Ev.
  - intros H. injection H as <- _. exact Ev.
  - destruct (GBKDecode os content) as [decoded|err]; [|discriminate].
    destruct (utf8.Valid decoded) eqn:Ed; [|discriminate].
    intros H. injection H as <- _. exact Ed.
Qed.

(** X6.  [convertToUTF8] gives valid UTF-8 or an error, and nothing else: without
    an error the text is valid, it is the input itself exactly when the
    input is valid, and converting it again gives it back under the name
    UTF-8; with an error the text is empty and the name is Unknown. *)
Theorem convertToUTF8_sound (os : OS) (content : string) :
  match convertToUTF8 os content with
  | (u, enc, None) =>
      utf8.Valid u = true
      /\ convertToUTF8 os u = (u, "UTF-8", None)
      /\ ((utf8.Valid content = true /\ u = content /\ enc = "UTF-8")
          \/ (utf8.Valid content = false /\ GBKDecode os content = Ok u
              /\ enc = "GBK/GB18030"))
  | (u, enc, Some e) =>
      u = "" /\ enc = "Unknown" /\ e = ErrMsg "encoding not recognized"
      /\ utf8.Valid content = false
      /\ (forall decoded, GBKDecode os content = Ok decoded ->
                          utf8.Valid decoded = false)
  end.
Proof.
  unfold convertToUTF8 at 1.
  destruct (utf8.Valid content) eqn:Ev.
  - repeat split; [exact Ev | unfold convertToUTF8; now rewrite Ev | now left].
  - destruct (GBKDecode os content) as [decoded|err] eqn:Eg.
    + destruct (utf8.Valid decoded) eqn:Ed.
      * repeat split;
          [exact Ed | unfold convertToUTF8; now rewrite Ed | now right].
      * repeat split. intros d Hd. now injection Hd as <-.
    + repeat split. intros d Hd. discriminate Hd.
Qed.

(** X7.  [isBinary] reads the first 512 bytes and nothing behind them. *)
Theorem isBinary_first_512 (content : string) :
  isBinary content = isBinary (strings.take 512 content)
  /\ forall tail, 512 <= String.length content ->
                  isBinary (content +:+ tail) = isBinary content.
Proof.
  assert (Hk : forall a b,
             (forall i, i < 512 -> String.get i a = String.get i b) ->
             isBinary a = isBinary b).
  { intros a b H.
    destruct (isBinary a) eqn:Ea, (isBinary b) eqn:Eb; try reflexivity.
    - apply isBinary_spec in Ea as [i [Hi Hg]].
      rewrite (H i Hi) in Hg.
      assert (Hx : isBinary b = true) by (apply isBinary_spec; eauto).
      congruence.
    - apply isBinary_spec in Eb as [i [Hi Hg]].
      rewrite <- (H i Hi) in Hg.
      assert (Hx : isBinary a = true) by (apply isBinary_spec; eauto).
      congruence. }
  split.
  - apply Hk. intros i Hi. rewrite get_take.
    apply Nat.ltb_lt in Hi. now rewrite Hi.
  - intros tail Hl. apply Hk. intros i Hi.
    rewrite <- (take_drop_s (String.length content) (content +:+ tail)).
    rewrite take_length_app.
    clear Hk. revert i Hi Hl. generalize 512 as n.
    induction content as [|c s IH]; intros n i Hi Hl; simpl in *; [lia|].
    destruct i as [|i]; [reflexivity|].
    destruct n as [|n]; [lia|]. apply (IH n); lia.
Qed.

Lemma isBinary_first_512_witness :
  isBinary (repeatByte "a" 512 +:+ zeroByte) = isBinary (repeatByte "a" 512)
  /\ isBinary (repeatByte "a" 511 +:+ zeroByte) = true.
Proof.
  split; [|vm_compute; reflexivity].
  apply (proj2 (isBinary_first_512 (repeatByte "a" 512))).
  apply Nat.leb_le. vm_compute. reflexivity.
Defined.

(** What [processFile] leaves behind, in short: no error, standard error as
    it was, and the document as it was or longer by the content block of the
    file. *)
Lemma processFile_outcome (os : OS) (cfg : Config) (path : string)
      (writer : Sink) :
  fst (processFile os cfg path writer) = None
  /\ stderr (snd (processFile os cfg path writer)) = stderr writer
  /\ (doc (snd (processFile os cfg path writer)) = doc writer
      \/ exists block, fileBlock os cfg block
                       /\ doc (snd (processFile os cfg path writer))
                          = doc writer +:+ block).
Proof.
  destruct (Stat os path) as [info|err] eqn:Es;
    [|unfold processFile; rewrite Es; now auto].
  destruct (infoIsDir info) eqn:Ed;
    [unfold processFile; rewrite Es, Ed; now auto|].
  destruct (MaxFileSize cfg <? infoSize info)%Z eqn:Ez;
    [unfold processFile; rewrite Es, Ed, Ez; now auto|].
  destruct (ReadFile os path) as [content|err] eqn:Er;
    [|unfold processFile; rewrite Es, Ed, Ez, Er; now auto].
  destruct (negb (has (TextExts cfg) (strings.ToLower (filepath.Ext path)))
            && isBinary content) eqn:Eb;
    [unfold processFile; rewrite Es, Ed, Ez, Er, Eb; now auto|].
  assert (Hreach : reachesEncoding os cfg path content).
  { split; [exists info; repeat split; try assumption; apply Z.ltb_ge in Ez; lia|].
    split; [assumption|].
    apply andb_false_iff in Eb as [E1 | E2];
      [left; now apply negb_false_iff in E1 | now right]. }
  destruct (convertToUTF8 os content) as [[u enc] [e|]] eqn:Ec.
  - rewrite (processFile_unknown_encoding os cfg path content writer u enc e
               Hreach Ec). now auto.
  - rewrite (processFile_emits os cfg path content writer u enc Hreach Ec).
    repeat split. right. exists (contentBlock path u).
    split; [|reflexivity]. exists path, content, u, enc.
    split; [exact Hreach|]. split; [exact Ec|].
    split; [exact (convertToUTF8_valid os content u enc Ec) | reflexivity].
Qed.

(** X8.  [processFile] never fails and never writes on standard error.  It adds
    one content block to the document, with valid UTF-8 between the fences,
    exactly when the file reaches the encoding step and its encoding is
    recognized; in every other case the document is left as it was. *)
Theorem processFile_block_iff (os : OS) (cfg : Config) (path : string)
        (writer : Sink) :
  let emitted u :=
    exists content enc,
      reachesEncoding os cfg path content
      /\ convertToUTF8 os content = (u, enc, None) in
  fst (processFile os cfg path writer) = None
  /\ stderr (snd (processFile os cfg path writer)) = stderr writer
  /\ ((exists u, emitted u /\ utf8.Valid u = true
                 /\ doc (snd (processFile os cfg path writer))
                    = doc writer +:+ contentBlock path u)
      \/ ((forall u, ~ emitted u)
          /\ doc (snd (processFile os cfg path writer)) = doc writer)).
Proof.
  intros emitted. unfold emitted.
  destruct (Stat os path) as [info|err] eqn:Es.
  2:{ unfold processFile. rewrite Es. repeat split. right. split; [|reflexivity].
      intros u [c [enc [[[i [Hs _]] _] _]]]. congruence. }
  destruct (infoIsDir info) eqn:Ed.
  { unfold processFile. rewrite Es, Ed. repeat split. right.
    split; [|reflexivity].
    intros u [c [enc [[[i [Hs [Hd _]]] _] _]]]. congruence. }
  destruct (MaxFileSize cfg <? infoSize info)%Z eqn:Ez.
  { unfold processFile. rewrite Es, Ed, Ez. repeat split. right.
    split; [|reflexivity].
    intros u [c [enc [[[i [Hs [_ Hz]]] _] _]]].
    apply Z.ltb_lt in Ez. assert (i = info) by congruence. subst i. lia. }
  destruct (ReadFile os path) as [content|err] eqn:Er.
  2:{ unfold processFile. rewrite Es, Ed, Ez, Er. repeat split. right.
      split; [|reflexivity].
      intros u [c [enc [[_ [Hr _]] _]]]. congruence. }
  destruct (negb (has (TextExts cfg) (strings.ToLower (filepath.Ext path)))
            && isBinary content) eqn:Eb.
  { unfold processFile. rewrite Es, Ed, Ez, Er, Eb. repeat split. right.
    split; [|reflexivity].
    intros u [c [enc [[_ [Hr Hb]] _]]].
    assert (c = content) by congruence. subst c.
    apply andb_true_iff in Eb as [E1 E2]. apply negb_true_iff in E1.
    destruct Hb; congruence. }
  assert (Hreach : reachesEncoding os cfg path content).
  { split; [exists info; repeat split; try assumption; apply Z.ltb_ge in Ez; lia|].
    split; [assumption|].
    apply andb_false_iff in Eb as [E1 | E2];
      [left; now apply negb_false_iff in E1 | now right]. }
  destruct (convertToUTF8 os content) as [[u enc] [e|]] eqn:Ec.
  - rewrite (processFile_unknown_encoding os cfg path content writer u enc e
               Hreach Ec).
    repeat split. right. split; [|reflexivity].
    intros u' [c [enc' [[_ [Hr _]] Hc]]].
    assert (c = content) by congruence. subst c. congruence.
  - rewrite (processFile_emits os cfg path content writer u enc Hreach Ec).
    repeat split. left. exists u. split; [now exists content, enc|].
    split; [|reflexivity].
    exact (convertToUTF8_valid os content u enc Ec).
Qed.

(** ** The callback of the content pass *)

(** The callback answers [nil], or [SkipDir] for an entry that reports itself
    as a directory; no other error comes out of it. *)
Lemma contentVisit_result (os : OS) (cfg : Config) (absOut : string)
      (softFilters hardFilters : list string) (logicalRel fullPath : string)
      (d : DirEntry) (writer : Sink) :
  fst (contentVisit os cfg absOut softFilters hardFilters logicalRel fullPath
                    d writer) = None
  \/ (fst (contentVisit os cfg absOut softFilters hardFilters logicalRel
                        fullPath d writer) = Some SkipDir
      /\ IsDir d = true).
Proof.
  unfold contentVisit.
  destruct (String.eqb fullPath absOut);
    [destruct (IsDir d); simpl; auto|].
  destruct (isJunk cfg (Name d)); [destruct (IsDir d); simpl; auto|].
  destruct (negb _ && fst _); [destruct (IsDir d); simpl; auto|].
  destruct (checkFilter _ softFilters) as [[|] rule].
  - destruct (IsDir d); simpl; auto.
  - destruct (IsDir d); [simpl; auto|].
    destruct (isAsset cfg (Name d)); [simpl; auto|].
    left. apply processFile_outcome.
Qed.

(** The callback leaves standard error as it is, and the document as it is
    or longer by the content block of a file. *)
Lemma contentVisit_writes (os : OS) (cfg : Config) (absOut : string)
      (softFilters hardFilters : list string) (logicalRel fullPath : string)
      (d : DirEntry) (writer : Sink) :
  let w' := snd (contentVisit os cfg absOut softFilters hardFilters
                              logicalRel fullPath d writer) in
  stderr w' = stderr writer
  /\ (doc w' = doc writer
      \/ exists block, fileBlock os cfg block
                       /\ doc w' = doc writer +:+ block).
Proof.
  unfold contentVisit.
  destruct (String.eqb fullPath absOut); [simpl; auto|].
  destruct (isJunk cfg (Name d)); [simpl; auto|].
  destruct (negb _ && fst _); [simpl; auto|].
  destruct (checkFilter _ softFilters) as [[|] rule].
  - destruct (IsDir d); simpl; auto.
  - destruct (IsDir d); [simpl; auto|].
    destruct (isAsset cfg (Name d)); [simpl; auto|].
    apply processFile_outcome.
Qed.

(** X9.  The hard tier.  An entry whose logical path the hard rules match is
    dropped from the tree, whatever its name, and the callback of the content
    pass answers for it before it looks at the soft rules: nothing is written
    or printed, and a directory is not pushed by the walk. *)
Theorem hard_filter_both_passes (cfg : Config) (hardFilters : list string)
        (d : DirEntry) (p : string) :
  fst (checkFilter p hardFilters) = true ->
  p <> "." ->
  (forall rootLogical currentLogical,
      filepath.Rel rootLogical (filepath.Join currentLogical (Name d)) = Ok p ->
      treeVisible cfg rootLogical currentLogical hardFilters d = false
      /\ forall before after,
          finalEntries cfg rootLogical currentLogical hardFilters
                       (before ++ d :: after)
          = finalEntries cfg rootLogical currentLogical hardFilters
                         (before ++ after))
  /\ (forall os absOut softFilters fullPath writer,
         contentVisit os cfg absOut softFilters hardFilters p fullPath d writer
         = ((if IsDir d then Some SkipDir else None), writer))
  /\ (forall os absOut softFilters n rest stack seen writer,
         IsDir d = true ->
         (if negb (String.eqb (rel n) "") then filepath.Join (rel n) (Name d)
          else Name d) = p ->
         walkEntries os (contentVisit os cfg absOut softFilters hardFilters)
                     n (d :: rest) stack seen writer
         = walkEntries os (contentVisit os cfg absOut softFilters hardFilters)
                       n rest stack seen writer).
Proof.
  intros Hh Hdot.
  assert (Hne : String.eqb p "" = false).
  { apply String.eqb_neq. intros ->. unfold checkFilter in Hh. simpl in Hh.
    discriminate Hh. }
  assert (Hv : forall os absOut softFilters fullPath writer,
             contentVisit os cfg absOut softFilters hardFilters p fullPath d
                          writer
             = ((if IsDir d then Some SkipDir else None), writer)).
  { intros os absOut softFilters fullPath writer. unfold contentVisit.
    destruct (String.eqb fullPath absOut); [reflexivity|].
    destruct (isJunk cfg (Name d)); [reflexivity|].
    rewrite ToSlash_id. apply String.eqb_neq in Hdot. rewrite Hdot, Hne, Hh.
    reflexivity. }
  split; [|split; [exact Hv|]].
  - intros rootLogical currentLogical Hrel.
    assert (Ht : treeVisible cfg rootLogical currentLogical hardFilters d
                 = false).
    { unfold treeVisible. rewrite Hrel, ToSlash_id, Hne, Hh.
      destruct (String.eqb (Name d) (OutputFile cfg)); [reflexivity|].
      now destruct (isJunk cfg (Name d)). }
    split; [exact Ht|]. intros before after.
    now apply finalEntries_invisible.
  - intros os absOut softFilters n rest stack seen writer Hd Hp.
    cbn [walkEntries]. rewrite Hp.
    destruct (followSymlink os _ d) as [childIsDir childFSPath].
    rewrite Hv, Hd. reflexivity.
Qed.

Lemma hard_filter_both_passes_witness :
  treeVisible config "/m" "/m" ["src"] (dirEntry "src") = false
  /\ contentVisit miscOS config "/out.md" ["!src"] ["src"] "src" "/m/src"
                  (dirEntry "src") emptySink
     = (Some SkipDir, emptySink).
Proof.
  destruct (hard_filter_both_passes config ["src"] (dirEntry "src") "src"
              eq_refl ltac:(discriminate)) as [H1 [H2 _]].
  split.
  - apply (H1 "/m" "/m"). reflexivity.
  - apply H2.
Defined.



(** In [miscOS] the tree shows all five entries of [/m], the broken symlink
    with its target.  The content pass writes a block for the file at the
    size limit and for [src/main.go]; the file above the limit has a notice,
    and the broken symlink and the picture are passed over in silence. *)
Example miscOS_document :
  option_map (fun r => (fst r, doc (snd r), stdout (snd r)))
    (main 8 miscOS config ["/m"] [] [] "/out/m_context.md")
  = Some (None,
          "# Project Structure" +:+ nl +:+ nl +:+ "```text" +:+ nl
          +:+ "m/" +:+ nl
          +:+ "├── src" +:+ nl
          +:+ "│   └── main.go" +:+ nl
          +:+ "├── big.txt" +:+ nl
          +:+ "├── broken -> gone" +:+ nl
          +:+ "├── limit.txt" +:+ nl
          +:+ "└── logo.PNG" +:+ nl +:+ nl
          +:+ "```" +:+ nl +:+ nl +:+ "---" +:+ nl +:+ nl
          +:+ "# File Contents" +:+ nl +:+ nl
          +:+ contentBlock "/m/limit.txt" ("limit" +:+ nl)
          +:+ contentBlock "/m/src/main.go" ("package main" +:+ nl),
          [noticeLarge "/m/big.txt"; noticeProcessing "/m/limit.txt";
           noticeProcessing "/m/src/main.go"]).
Proof. vm_compute. reflexivity. Qed.

(** ** What a walk does with a callback that does not fail *)

Section WalkMild.
Context {St : Type}.
Variable os : OS.
Variable fn : string -> string -> DirEntry -> St -> option error * St.

(** The callback answers [nil] or [SkipDir]. *)
Hypothesis fn_mild : forall logicalRel fullPath d st,
    fst (fn logicalRel fullPath d st) = None
    \/ fst (fn logicalRel fullPath d st) = Some SkipDir.

Lemma walkEntries_mild (n : node) (entries : list DirEntry) :
  forall stack seen st,
    exists stack1 seen1 st1,
      walkEntries os fn n entries stack seen st = (None, stack1, seen1, st1).
Proof.
  induction entries as [|e entries IH]; intros stack seen st;
    [simpl; eauto|].
  cbn [walkEntries].
  destruct (followSymlink os _ e) as [childIsDir childFSPath].
  set (lr := if negb (String.eqb (rel n) "")
             then filepath.Join (rel n) (Name e) else Name e).
  destruct (fn_mild lr childFSPath e st) as [Hf | Hf];
    destruct (fn lr childFSPath e st) as [r st0]; simpl in Hf; subst r.
  - destruct childIsDir; [|apply IH].
    destruct (EvalSymlinks os childFSPath) as [real|err]; [|apply IH].
    destruct (bool_decide (real ∈ seen)); apply IH.
  - simpl. apply IH.
Qed.

(** The walk fails only at a directory that cannot be read, and that
    directory is the last one it reads. *)
Lemma walkLoop_error (fuel : nat) :
  forall stack seen st err st',
    walkLoop os fn fuel stack seen st = Some (Some err, st') ->
    exists p, last (walkDescents os fn fuel stack seen st) = Some p
              /\ ReadDir os p = Err err.
Proof.
  induction fuel as [|f IH]; intros stack seen st err st' H;
    destruct stack as [|n stack]; try discriminate H.
  cbn [walkLoop] in H. cbn [walkDescents].
  destruct (ReadDir os (fsPath n)) as [entries|e] eqn:Er.
  - destruct (walkEntries_mild n entries stack seen st)
      as [stack1 [seen1 [st1 Hw]]].
    rewrite Hw in *. apply IH in H as [p [Hl Hp]].
    exists p. split; [|exact Hp]. rewrite last_cons. now rewrite Hl.
  - injection H as -> _. exists (fsPath n). split; [reflexivity | exact Er].
Qed.

(** A walk that ends without an error has read every directory it came
    to. *)
Lemma walkLoop_success (fuel : nat) :
  forall stack seen st st',
    walkLoop os fn fuel stack seen st = Some (None, st') ->
    Forall (fun p => exists entries, ReadDir os p = Ok entries)
           (walkDescents os fn fuel stack seen st).
Proof.
  induction fuel as [|f IH]; intros stack seen st st' H;
    destruct stack as [|n stack]; try discriminate H; try constructor.
  - cbn [walkLoop] in H.
    destruct (ReadDir os (fsPath n)) as [entries|e]; [eauto|discriminate].
  - cbn [walkLoop] in H.
    destruct (ReadDir os (fsPath n)) as [entries|e] eqn:Er; [|discriminate].
    destruct (walkEntries_mild n entries stack seen st)
      as [stack1 [seen1 [st1 Hw]]].
    rewrite Hw in *. now apply IH in H.
Qed.

(** A property of the state that the callback keeps is kept by the walk. *)
Variable P : St -> Prop.
Hypothesis fn_keeps : forall logicalRel fullPath d st,
    P st -> P (snd (fn logicalRel fullPath d st)).

Lemma walkEntries_keeps (n : node) (entries : list DirEntry) :
  forall stack seen st r stack1 seen1 st1,
    P st ->
    walkEntries os fn n entries stack seen st = (r, stack1, seen1, st1) ->
    P st1.
Proof.
  induction entries as [|e entries IH];
    intros stack seen st r stack1 seen1 st1 HP H.
  - simpl in H. now injection H as _ _ _ <-.
  - cbn [walkEntries] in H.
    destruct (followSymlink os _ e) as [childIsDir childFSPath].
    set (lr := if negb (String.eqb (rel n) "")
               then filepath.Join (rel n) (Name e) else Name e) in *.
    pose proof (fn_keeps lr childFSPath e st HP) as HP0.
    destruct (fn lr childFSPath e st) as [[err|] st0]; simpl in HP0.
    + destruct (isSkipDir err); [eauto|]. now injection H as _ _ _ <-.
    + destruct childIsDir; [|eauto].
      destruct (EvalSymlinks os childFSPath) as [real|err]; [|eauto].
      destruct (bool_decide (real ∈ seen)); eauto.
Qed.

Lemma walkLoop_keeps (fuel : nat) :
  forall stack seen st r st',
    P st -> walkLoop os fn fuel stack seen st = Some (r, st') -> P st'.
Proof.
  induction fuel as [|f IH]; intros stack seen st r st' HP H;
    destruct stack as [|n stack]; try discriminate H.
  - simpl in H. now injection H as _ <-.
  - simpl in H. now injection H as _ <-.
  - cbn [walkLoop] in H.
    destruct (ReadDir os (fsPath n)) as [entries|e];
      [|now injection H as _ <-].
    destruct (walkEntries os fn n entries stack seen st)
      as [[[[err|] stack1] seen1] st1] eqn:Hw;
      pose proof (walkEntries_keeps _ _ _ _ _ _ _ _ _ HP Hw) as HP1.
    + now injection H as _ <-.
    + eauto.
Qed.
End WalkMild.

Lemma contentVisit_mild (os : OS) (cfg : Config) (absOut : string)
      (softFilters hardFilters : list string) (logicalRel fullPath : string)
      (d : DirEntry) (writer : Sink) :
  fst (contentVisit os cfg absOut softFilters hardFilters logicalRel fullPath
                    d writer) = None
  \/ fst (contentVisit os cfg absOut softFilters hardFilters logicalRel
                       fullPath d writer) = Some SkipDir.
Proof.
  destruct (contentVisit_result os cfg absOut softFilters hardFilters
              logicalRel fullPath d writer) as [H | [H _]]; auto.
Qed.

(** X12.  The content pass of one root.  Nothing that happens to a file stops the
    walk: it fails only when a directory cannot be read, with the error of
    [os.ReadDir], and that directory is the last one it comes to; the
    directories still on the stack are left unread.  A walk that ends without
    an error has read every directory it came to. *)
Theorem content_walk_stops_at_unreadable_directory (os : OS) (cfg : Config)
        (absOut : string) (softFilters hardFilters : list string)
        (fuel : nat) (root : string) (writer : Sink)
        (res : option error) (writer' : Sink) :
  let visit := contentVisit os cfg absOut softFilters hardFilters in
  let descents :=
    walkDescents os visit fuel [{| fsPath := root; rel := "" |}] ∅ writer in
  walkFollowSymlinks os visit fuel root writer = Some (res, writer') ->
  match res with
  | Some err => exists p, last descents = Some p /\ ReadDir os p = Err err
  | None => Forall (fun p => exists entries, ReadDir os p = Ok entries)
                   descents
  end.
Proof.
  intros visit descents H. unfold walkFollowSymlinks in H.
  destruct res as [err|].
  - eapply walkLoop_error; [|exact H]. intros. apply contentVisit_mild.
  - eapply walkLoop_success; [|exact H]. intros. apply contentVisit_mild.
Qed.

Lemma content_walk_stops_at_unreadable_directory_witness :
  (exists p,
      last (walkDescents lockedOS (contentVisit lockedOS config "/out.md" [] [])
              8 [{| fsPath := "/q"; rel := "" |}] ∅ emptySink) = Some p
      /\ ReadDir lockedOS p = Err (ErrMsg "no such file or directory"))
  /\ walkDescents lockedOS (contentVisit lockedOS config "/out.md" [] [])
       8 [{| fsPath := "/q"; rel := "" |}] ∅ emptySink
     = ["/q"; "/q/locked"].
Proof.
  split; [|vm_compute; reflexivity].
  apply (content_walk_stops_at_unreadable_directory lockedOS config "/out.md"
           [] [] 8 "/q" emptySink
           (Some (ErrMsg "no such file or directory")) emptySink).
  vm_compute. reflexivity.
Defined.

(** In [lockedOS] the tree lists the file [a/x.txt]; the content pass fails at
    [locked], which is read before [a], and the file gets no content block. *)
Example lockedOS_document :
  option_map (fun r => (fst r, doc (snd r), stderr (snd r)))
    (main 8 lockedOS config ["/q"] [] [] "/out/q_context.md")
  = Some (Some (ErrMsg "no such file or directory"),
          "# Project Structure" +:+ nl +:+ nl +:+ "```text" +:+ nl
          +:+ "q/" +:+ nl
          +:+ "├── a" +:+ nl
          +:+ "│   └── x.txt" +:+ nl
          +:+ "└── locked" +:+ nl +:+ nl
          +:+ "```" +:+ nl +:+ nl +:+ "---" +:+ nl +:+ nl
          +:+ "# File Contents" +:+ nl +:+ nl,
          ["处理目录 /q 时出错: no such file or directory" +:+ nl]).
Proof. vm_compute. reflexivity. Qed.

(** X17.  The tree of a directory.  [writeTree] returns an error only when the
    directory it was called for cannot be read, and then it has written
    nothing; the error of a call for a subdirectory is dropped by the
    caller, so a subdirectory that cannot be read has its line and no
    children, and the tree goes on. *)
Theorem writeTree_reports_own_directory_only (fuel : nat) (os : OS)
        (cfg : Config) (rootFS rootLogical currentFS currentLogical : string)
        (prefix : string) (hardFilters : list string)
        (st : string * gset string) (res : option error)
        (st' : string * gset string) :
  writeTree fuel os cfg rootFS rootLogical currentFS currentLogical prefix
            hardFilters st = Some (res, st') ->
  match res with
  | Some err => ReadDir os currentFS = Err err /\ st' = st
  | None => exists entries, ReadDir os currentFS = Ok entries
  end
  /\ forall childFS childLogical newPrefix err st0,
      ReadDir os childFS = Err err ->
      writeTreeChild fuel os cfg rootFS rootLogical hardFilters
                     childFS childLogical newPrefix st0 = Some st0.
Proof.
  intros H. destruct fuel as [|f]; [discriminate H|]. split.
  - rewrite writeTree_unfold in H.
    destruct (ReadDir os currentFS) as [entries|err].
    + cbv zeta in H.
      destruct (renderEntries _ _ _ _ _ _ _ _ _) as [st1|]; [|discriminate H].
      injection H as <- _. eauto.
    + now injection H as <- <-.
  - intros childFS childLogical newPrefix err st0 Hr.
    unfold writeTreeChild. rewrite writeTree_unfold, Hr. reflexivity.
Qed.

Lemma writeTree_reports_own_directory_only_witness :
  (exists entries, ReadDir lockedOS "/q" = Ok entries)
  /\ writeTreeChild 5 lockedOS config "/q" "/q" [] "/q/locked" "/q/locked"
                    "    " ("q/" +:+ nl, ∅)
     = Some ("q/" +:+ nl, ∅).
Proof.
  destruct (writeTree_reports_own_directory_only 5 lockedOS config
              "/q" "/q" "/q" "/q" "" [] ("", ∅) None
              ("├── a" +:+ nl +:+ "│   └── x.txt" +:+ nl
               +:+ "└── locked" +:+ nl, {["/q/locked"; "/q/a"]})) as [H1 H2].
  - vm_compute. reflexivity.
  - split; [exact H1|].
    apply (H2 "/q/locked" "/q/locked" "    "
              (ErrMsg "no such file or directory")).
    reflexivity.
Defined.

(** ** The roots of the content pass *)


(** A root that cannot be read does not end the content pass: its error is
    stored and printed, and the pass goes on with the roots after it. *)
Lemma contentPass_unreadable_root (fuel : nat) (os : OS) (cfg : Config)
      (absOut : string) (softFilters hardFilters : list string)
      (dir absDir : string) (err : error) :
  Abs os dir = Ok absDir ->
  ReadDir os absDir = Err err ->
  forall rest firstErr writer,
    contentPass (S fuel) os cfg absOut (dir :: rest) softFilters hardFilters
                firstErr writer
    = contentPass (S fuel) os cfg absOut rest softFilters hardFilters
                  (Some err)
                  (Eprintf writer ("处理目录 " +:+ dir +:+ " 时出错: "
                                   +:+ errorString err +:+ nl)).
Proof.
  intros Ha Hr rest firstErr writer. cbn [contentPass]. rewrite Ha.
  unfold walkFollowSymlinks. cbn [walkLoop fsPath]. now rewrite Hr.
Qed.

(** ** The layout of the document *)

Lemma concatBlocks_app (a b : list string) :
  concatBlocks (a ++ b) = concatBlocks a +:+ concatBlocks b.
Proof.
  induction a as [|x a IH]; [reflexivity|].
  cbn [app concatBlocks]. now rewrite IH, app_assoc_s.
Qed.

(** The document is [start] followed by content blocks only. *)
Lemma blocks_after_step (P : string -> Prop) (start : string) (w w' : Sink) :
  (exists blocks, Forall P blocks
                  /\ doc w = start +:+ concatBlocks blocks) ->
  (doc w' = doc w
   \/ exists block, P block /\ doc w' = doc w +:+ block) ->
  exists blocks, Forall P blocks
                 /\ doc w' = start +:+ concatBlocks blocks.
Proof.
  intros [blocks [Hb Hd]] [H | [block [Hu H]]].
  - exists blocks. split; [exact Hb | congruence].
  - exists (blocks ++ [block]). split.
    + apply Forall_app. split; [exact Hb|]. now constructor.
    + rewrite H, Hd, concatBlocks_app. cbn [concatBlocks].
      now rewrite app_empty_r, app_assoc_s.
Qed.

Lemma contentPass_blocks (fuel : nat) (os : OS) (cfg : Config)
      (absOut : string) (softFilters hardFilters : list string)
      (start : string) (dirs : list string) :
  forall firstErr writer res writer',
    contentPass fuel os cfg absOut dirs softFilters hardFilters firstErr
                writer = Some (res, writer') ->
    (exists blocks, Forall (fileBlock os cfg) blocks
                    /\ doc writer = start +:+ concatBlocks blocks) ->
    exists blocks, Forall (fileBlock os cfg) blocks
                   /\ doc writer' = start +:+ concatBlocks blocks.
Proof.
  induction dirs as [|dir dirs IH]; intros firstErr writer res writer' H HP.
  - simpl in H. now injection H as _ <-.
  - cbn [contentPass] in H.
    destruct (Abs os dir) as [absDir|err]; [|exact (IH _ _ _ _ H HP)].
    destruct (walkFollowSymlinks os _ fuel absDir writer) as [[r w]|] eqn:Ew;
      [|discriminate H].
    assert (HP1 : exists blocks, Forall (fileBlock os cfg) blocks
                                 /\ doc w = start +:+ concatBlocks blocks).
    { unfold walkFollowSymlinks in Ew.
      apply (walkLoop_keeps os
               (contentVisit os cfg absOut softFilters hardFilters)
               (fun w => exists blocks,
                    Forall (fileBlock os cfg) blocks
                    /\ doc w = start +:+ concatBlocks blocks))
        with (fuel := fuel) (stack := [{| fsPath := absDir; rel := "" |}])
             (seen := ∅) (st := writer) (r := r); [|exact HP|exact Ew].
      intros a b d st Hst.
      destruct (contentVisit_writes os cfg absOut softFilters hardFilters
                  a b d st) as [_ Hw].
      exact (blocks_after_step (fileBlock os cfg) start st _ Hst Hw). }
    destruct r as [err|]; exact (IH _ _ _ _ H HP1).
Qed.

(** The tree pass adds text to the document and prints nothing. *)
Lemma treePass_appends (fuel : nat) (os : OS) (cfg : Config)
      (hardFilters : list string) (dirs : list string) :
  forall writer writer',
    treePass fuel os cfg dirs hardFilters writer = Some writer' ->
    (exists trees, doc writer' = doc writer +:+ trees)
    /\ stdout writer' = stdout writer /\ stderr writer' = stderr writer.
Proof.
  induction dirs as [|dir dirs IH]; intros writer writer' H.
  - simpl in H. injection H as <-. split; [|now split].
    exists "". now rewrite app_empty_r.
  - cbn [treePass] in H. destruct (Abs os dir) as [absDir|err].
    + destruct (writeTree fuel os cfg absDir absDir absDir absDir ""
                          hardFilters _) as [[res [text seen]]|] eqn:Ew;
        [|discriminate H].
      apply writeTree_appends in Ew as [s Hs]. cbn [fst doc WriteString] in Hs.
      apply IH in H as [[trees Ht] [Ho He]].
      split; [|destruct res; split; assumption].
      rewrite Ht. destruct res as [err|]; cbn [doc WriteString setDoc];
        rewrite Hs; eexists; rewrite !app_assoc_s; reflexivity.
    + apply IH in H as [[trees Ht] [Ho He]]. split; [|now split].
      rewrite Ht. cbn [doc WriteString]. eexists.
      rewrite !app_assoc_s. reflexivity.
Qed.

(** The document that [processDirs] has written when it returns. *)
Lemma processDirs_document (fuel : nat) (os : OS) (cfg : Config)
      (dirs softFilters hardFilters : list string) (writer : Sink)
      (finalOutPath : string) (res : option error) (writer' : Sink) :
  processDirs fuel os cfg dirs softFilters hardFilters writer finalOutPath
  = Some (res, writer') ->
  match Abs os finalOutPath with
  | Err err => res = Some err /\ writer' = writer
  | Ok _ =>
      exists treeWriter trees blocks,
        treePass fuel os cfg dirs hardFilters
                 (WriteString
                    (WriteString writer ("# Project Structure" +:+ nl +:+ nl))
                    ("```text" +:+ nl))
        = Some treeWriter
        /\ doc treeWriter
           = doc writer +:+ "# Project Structure" +:+ nl +:+ nl
             +:+ "```text" +:+ nl +:+ trees
        /\ stdout treeWriter = stdout writer
        /\ stderr treeWriter = stderr writer
        /\ Forall (fileBlock os cfg) blocks
        /\ doc writer'
           = doc treeWriter +:+ "```" +:+ nl +:+ nl +:+ "---" +:+ nl +:+ nl
             +:+ "# File Contents" +:+ nl +:+ nl +:+ concatBlocks blocks
  end.
Proof.
  intros H. unfold processDirs in H.
  destruct (Abs os finalOutPath) as [absOut|err];
    [|now injection H as <- <-].
  destruct (treePass fuel os cfg dirs hardFilters _) as [tw|] eqn:Et;
    [|discriminate H].
  pose proof (treePass_appends _ _ _ _ _ _ _ Et) as [[trees Ht] [Ho He]].
  cbn [doc stdout stderr WriteString] in Ht, Ho, He.
  eapply (contentPass_blocks _ _ _ _ _ _
            (doc tw +:+ "```" +:+ nl +:+ nl +:+ "---" +:+ nl +:+ nl
             +:+ "# File Contents" +:+ nl +:+ nl)) in H.
  - destruct H as [blocks [Hb Hd]].
    exists tw, trees, blocks. repeat split; try assumption.
    + rewrite Ht, !app_assoc_s. reflexivity.
    + rewrite Hd, !app_assoc_s. reflexivity.
  - exists []. split; [constructor|]. cbn [doc WriteString concatBlocks].
    rewrite !app_assoc_s, app_empty_r. reflexivity.
Qed.

(** [processDirs] returns.  When the canonical paths of the file system lie
    in a finite set [U] and a path that has no canonical path cannot be
    read as a directory, the fuel of the walk is enough for every tree and
    for every walk of the two loops. *)
Section ProcessDirsReturns.
Variable os : OS.
Variable U : gset string.
Hypothesis canonical_finite :
  forall p real, EvalSymlinks os p = Ok real -> real ∈ U.
Hypothesis unresolved_unreadable :
  forall p err, EvalSymlinks os p = Err err ->
                exists err', ReadDir os p = Err err'.
Variable cfg : Config.
Variable fuel : nat.
Hypothesis enough : 2 + 2 * size U <= fuel.

Lemma treePass_returns (hardFilters : list string) (dirs : list string) :
  forall writer,
    exists writer', treePass fuel os cfg dirs hardFilters writer
                    = Some writer'.
Proof.
  induction dirs as [|dir dirs IH]; intros writer; [simpl; eauto|].
  cbn [treePass]. destruct (Abs os dir) as [absDir|err]; [|apply IH].
  assert (Hm : size (U ∖ (∅ : gset string)) + 2 <= fuel).
  { assert (size (U ∖ (∅ : gset string)) <= size U)
      by (apply subseteq_size; set_solver).
    lia. }
  destruct (writeTree_returns os U canonical_finite unresolved_unreadable
              cfg absDir absDir hardFilters fuel absDir absDir ""
              (doc (WriteString writer
                      (filepath.Base absDir +:+ "/" +:+ nl)))
              ∅ Hm) as [res [w' [seen' [-> _]]]].
  apply IH.
Qed.

Lemma contentPass_returns (absOut : string)
      (softFilters hardFilters : list string) (dirs : list string) :
  forall firstErr writer,
    exists r, contentPass fuel os cfg absOut dirs softFilters hardFilters
                          firstErr writer = Some r.
Proof.
  induction dirs as [|dir dirs IH]; intros firstErr writer; [simpl; eauto|].
  cbn [contentPass]. destruct (Abs os dir) as [absDir|err]; [|apply IH].
  unfold walkFollowSymlinks.
  destruct (walkLoop_terminates os U canonical_finite unresolved_unreadable
              (contentVisit os cfg absOut softFilters hardFilters) fuel
              [{| fsPath := absDir; rel := "" |}] ∅ writer) as [r ->].
  { pose proof (walkCost_push os {| fsPath := absDir; rel := "" |} [])
      as Hc.
    simpl walkCost at 2 in Hc.
    assert (size (U ∖ (∅ : gset string)) <= size U)
      by (apply subseteq_size; set_solver).
    lia. }
  destruct r as [[err|] w]; apply IH.
Qed.

Lemma processDirs_returns (dirs softFilters hardFilters : list string)
      (writer : Sink) (finalOutPath : string) :
  exists r, processDirs fuel os cfg dirs softFilters hardFilters writer
                        finalOutPath = Some r.
Proof.
  unfold processDirs. destruct (Abs os finalOutPath) as [absOut|err];
    [|eauto].
  destruct (treePass_returns hardFilters dirs
              (WriteString
                 (WriteString writer ("# Project Structure" +:+ nl +:+ nl))
                 ("```text" +:+ nl))) as [w ->].
  apply contentPass_returns.
Qed.
End ProcessDirsReturns.

(** X20.  The document that [processDirs] writes.  When the canonical paths
    of the file system lie in a finite set and a path that has no canonical
    path cannot be read as a directory, [processDirs] returns with fuel for
    two turns for every canonical path and two more.  When the output path
    has no absolute form nothing is written.  Otherwise the writer holds,
    behind what it held before: the heading and the opening fence, what the
    tree pass wrote, the closing fence, the rule and the second heading,
    and then content blocks only: each is the block of a file that passes
    the gates of [processFile], with the conversion of its bytes, valid
    UTF-8, between the fences.  The content pass does not touch what the
    tree pass wrote, and the tree pass prints nothing on standard output or
    standard error. *)
Theorem processDirs_layout (fuel : nat) (os : OS) (cfg : Config)
        (dirs softFilters hardFilters : list string) (writer : Sink)
        (finalOutPath : string) (U : gset string) :
  (forall p real, EvalSymlinks os p = Ok real -> real ∈ U) ->
  (forall p err, EvalSymlinks os p = Err err ->
                 exists err', ReadDir os p = Err err') ->
  2 + 2 * size U <= fuel ->
  exists res writer',
    processDirs fuel os cfg dirs softFilters hardFilters writer finalOutPath
    = Some (res, writer')
    /\ match Abs os finalOutPath with
       | Err err => res = Some err /\ writer' = writer
       | Ok _ =>
           exists treeWriter trees blocks,
             treePass fuel os cfg dirs hardFilters
                      (WriteString
                         (WriteString writer
                            ("# Project Structure" +:+ nl +:+ nl))
                         ("```text" +:+ nl))
             = Some treeWriter
             /\ doc treeWriter
                = doc writer +:+ "# Project Structure" +:+ nl +:+ nl
                  +:+ "```text" +:+ nl +:+ trees
             /\ stdout treeWriter = stdout writer
             /\ stderr treeWriter = stderr writer
             /\ Forall (fileBlock os cfg) blocks
             /\ doc writer'
                = doc treeWriter +:+ "```" +:+ nl +:+ nl
                  +:+ "---" +:+ nl +:+ nl
                  +:+ "# File Contents" +:+ nl +:+ nl +:+ concatBlocks blocks
       end.
Proof.
  intros Hfin Hunres Hfuel.
  destruct (processDirs_returns os U Hfin Hunres cfg fuel Hfuel dirs
              softFilters hardFilters writer finalOutPath) as [[res w'] H].
  exists res, w'. split; [exact H|].
  exact (processDirs_document _ _ _ _ _ _ _ _ _ _ H).
Qed.

Lemma filesOS_canonical_finite (p real : string) :
  EvalSymlinks filesOS p = Ok real -> real ∈ ({["/p"]} : gset string).
Proof.
  unfold filesOS, tableOS. cbn [EvalSymlinks lookupTable].
  repeat match goal with
         | |- context [String.eqb ?a p] => destruct (String.eqb a p)
         end;
    intros H; try discriminate H; injection H as <-; set_solver.
Qed.

Lemma filesOS_unresolved_unreadable (p : string) (err : error) :
  EvalSymlinks filesOS p = Err err -> exists err', ReadDir filesOS p = Err err'.
Proof.
  unfold filesOS, tableOS. cbn [EvalSymlinks ReadDir lookupTable].
  repeat match goal with
         | |- context [String.eqb ?a p] => destruct (String.eqb a p)
         end;
    intros H; try discriminate H; eauto.
Qed.

Lemma processDirs_layout_witness :
  exists res writer',
    processDirs 4 filesOS config ["/p"] [] [] emptySink "/out.md"
    = Some (res, writer')
    /\ exists treeWriter trees blocks,
         treePass 4 filesOS config ["/p"] []
                  (WriteString
                     (WriteString emptySink
                        ("# Project Structure" +:+ nl +:+ nl))
                     ("```text" +:+ nl))
         = Some treeWriter
         /\ doc treeWriter
            = doc emptySink +:+ "# Project Structure" +:+ nl +:+ nl
              +:+ "```text" +:+ nl +:+ trees
         /\ stdout treeWriter = stdout emptySink
         /\ stderr treeWriter = stderr emptySink
         /\ Forall (fileBlock filesOS config) blocks
         /\ doc writer'
            = doc treeWriter +:+ "```" +:+ nl +:+ nl +:+ "---" +:+ nl +:+ nl
              +:+ "# File Contents" +:+ nl +:+ nl +:+ concatBlocks blocks.
Proof.
  apply (processDirs_layout 4 filesOS config ["/p"] [] [] emptySink "/out.md"
           {["/p"]} filesOS_canonical_finite filesOS_unresolved_unreadable).
  vm_compute. lia.
Defined.

(** ** Folding *)

(** X19.  Folding in general.  A list of at most 24 files, or any list when
    folding is off, is shown as it is.  A longer list is shown as 17 entries
    whatever its length: its first eight files, one marker, its last eight
    files; the files left out are the ones between them, and the number on
    the marker is their number. *)
Theorem foldFiles_shape (cfg : Config) (files : list DirEntry) :
  (NoFold cfg = true \/ length files <= 24 -> foldFiles cfg files = files)
  /\ (NoFold cfg = false -> 24 < length files ->
      let hidden := take (length files - 16) (drop 8 files) in
      let marker :=
        SimpleDirEntry ("... (" +:+ pretty (Z.of_nat (length hidden))
                        +:+ " files hidden) ...") false in
      foldFiles cfg files
      = take 8 files ++ [marker] ++ drop (length files - 8) files
      /\ files = take 8 files ++ hidden ++ drop (length files - 8) files
      /\ length hidden = length files - 16
      /\ length (foldFiles cfg files) = 17).
Proof.
  split; [apply In_foldFiles_unfolded|].
  intros Hn Hl hidden marker.
  assert (Hh : length hidden = length files - 16).
  { unfold hidden. rewrite length_take, length_drop. lia. }
  assert (Hf : foldFiles cfg files
               = take 8 files ++ [marker] ++ drop (length files - 8) files).
  { unfold foldFiles, maxDisplayFiles, keepHeadFiles, keepTailFiles.
    rewrite Hn. apply Nat.ltb_lt in Hl as Hl'. rewrite Hl'. cbn [negb andb].
    replace (Z.of_nat (length files) - Z.of_nat 8 - Z.of_nat 8)%Z
      with (Z.of_nat (length hidden)) by (rewrite Hh; lia).
    replace (Z.of_nat (length hidden) <? 0)%Z with false
      by (symmetry; apply Z.ltb_ge; lia).
    reflexivity. }
  split; [exact Hf|]. split; [|split; [exact Hh|]].
  - unfold hidden. rewrite <- (take_drop 8 files) at 1. f_equal.
    rewrite <- (take_drop (length files - 16) (drop 8 files)) at 1. f_equal.
    rewrite drop_drop. f_equal. lia.
  - rewrite Hf, !length_app, length_take, length_drop. cbn [length]. lia.
Qed.

Lemma foldFiles_shape_witness :
  foldFiles config thirtyFiles
  = take 8 thirtyFiles
    ++ [SimpleDirEntry "... (14 files hidden) ..." false]
    ++ drop 22 thirtyFiles
  /\ length (foldFiles config thirtyFiles) = 17.
Proof.
  destruct (proj2 (foldFiles_shape config thirtyFiles) eq_refl)
    as [H1 [_ [_ H2]]].
  - vm_compute. lia.
  - split; [exact H1 | exact H2].
Defined.

(** ** The lines of the tree *)

Section TreeText.
Variable os : OS.
Variable cfg : Config.
Variable rootLogical : string.
Variable hardFilters : list string.

Lemma treeText_nil (prefix : string) :
  treeText os cfg rootLogical hardFilters prefix "".
Proof. exists []. split; [constructor | reflexivity]. Qed.

Lemma treeText_app (prefix a b : string) :
  treeText os cfg rootLogical hardFilters prefix a ->
  treeText os cfg rootLogical hardFilters prefix b ->
  treeText os cfg rootLogical hardFilters prefix (a +:+ b).
Proof.
  intros [la [Ha ->]] [lb [Hb ->]]. exists (la ++ lb). split.
  - apply Forall_app. now split.
  - now rewrite map_app, concatBlocks_app.
Qed.

Lemma treeText_line (prefix marker name : string) :
  branchMarker marker ->
  shownName os cfg rootLogical hardFilters name ->
  treeText os cfg rootLogical hardFilters prefix
           (prefix +:+ marker +:+ name +:+ nl).
Proof.
  intros Hm Hn. exists [([], marker, name)]. split.
  - constructor; [|constructor]. cbn [fst snd].
    split; [constructor | now split].
  - cbn [map concatBlocks treeLineText]. now rewrite app_empty_r.
Qed.

(** The lines of a subdirectory are lines of the directory, with one
    connector more: the one that the prefix grew by. *)
Lemma treeText_deeper (prefix c s : string) :
  connector c ->
  treeText os cfg rootLogical hardFilters (prefix +:+ c) s ->
  treeText os cfg rootLogical hardFilters prefix s.
Proof.
  intros Hc [ls [Hls ->]].
  exists (map (fun l => (c :: fst (fst l), snd (fst l), snd l)) ls). split.
  - induction Hls as [|l ls [H1 [H2 H3]] _ IH]; cbn [map]; constructor;
      [|exact IH].
    cbn [fst snd]. split; [now constructor | now split].
  - clear Hls. induction ls as [|[[cs m] name] ls IH]; [reflexivity|].
    cbn [map concatBlocks treeLineText fst snd]. rewrite <- IH.
    now rewrite !app_assoc_s.
Qed.

Variable recur : string -> string -> string -> string * gset string
                 -> option (string * gset string).
Hypothesis recur_lines :
  forall childFS childLogical newPrefix st st',
    recur childFS childLogical newPrefix st = Some st' ->
    exists s, fst st' = fst st +:+ s
              /\ treeText os cfg rootLogical hardFilters newPrefix s.

Lemma renderEntries_lines (currentFS currentLogical prefix : string)
      (total : nat) (entries : list DirEntry) :
  Forall (fun e => shownName os cfg rootLogical hardFilters
                             (displayName os currentFS e)) entries ->
  forall i st st',
    renderEntries os recur currentFS currentLogical prefix total i entries
                  st = Some st' ->
    exists s, fst st' = fst st +:+ s
              /\ treeText os cfg rootLogical hardFilters prefix s.
Proof.
  induction 1 as [|e entries He _ IH]; intros i st st' H.
  - simpl in H. injection H as <-. exists "".
    split; [now rewrite app_empty_r | apply treeText_nil].
  - cbn [renderEntries] in H. destruct st as [w seen].
    assert (Hline : treeText os cfg rootLogical hardFilters prefix
                      (treeLine os currentFS prefix total i e)).
    { unfold treeLine. apply treeText_line; [|exact He].
      unfold branchMarker. destruct (i =? total - 1)%nat; auto. }
    set (line := treeLine os currentFS prefix total i e) in *.
    assert (Hk : forall st1 s1,
               fst st1 = (w +:+ line) +:+ s1 ->
               treeText os cfg rootLogical hardFilters prefix s1 ->
               renderEntries os recur currentFS currentLogical prefix total
                             (S i) entries st1 = Some st' ->
               exists s, fst st' = fst (w, seen) +:+ s
                         /\ treeText os cfg rootLogical hardFilters
                                     prefix s).
    { intros st1 s1 Hs1 Hi1 Hr. apply IH in Hr as [s2 [Hs2 Hi2]].
      exists (line +:+ s1 +:+ s2). split.
      - rewrite Hs2, Hs1. cbn [fst]. now rewrite !app_assoc_s.
      - apply treeText_app; [exact Hline|].
        apply treeText_app; assumption. }
    assert (Hsame : forall seen1,
               renderEntries os recur currentFS currentLogical prefix total
                             (S i) entries (w +:+ line, seen1) = Some st' ->
               exists s, fst st' = fst (w, seen) +:+ s
                         /\ treeText os cfg rootLogical hardFilters
                                     prefix s).
    { intros seen1 Hr. apply (Hk (w +:+ line, seen1) ""); try assumption.
      - cbn [fst]. now rewrite app_empty_r.
      - apply treeText_nil. }
    assert (Hchild : forall seen1 childFS childLogical c,
               connector c ->
               match recur childFS childLogical (prefix +:+ c)
                           (w +:+ line, seen1) with
               | Some st1 =>
                   renderEntries os recur currentFS currentLogical prefix
                                 total (S i) entries st1
               | None => None
               end = Some st' ->
               exists s, fst st' = fst (w, seen) +:+ s
                         /\ treeText os cfg rootLogical hardFilters
                                     prefix s).
    { intros seen1 childFS childLogical c Hc Hr.
      destruct (recur childFS childLogical (prefix +:+ c)
                      (w +:+ line, seen1)) as [st1|] eqn:Ec;
        [|discriminate Hr].
      apply recur_lines in Ec as [s1 [Hs1 Hi1]].
      apply (Hk st1 s1); [exact Hs1 | | exact Hr].
      now apply (treeText_deeper prefix c). }
    destruct (followSymlink os _ e) as [childIsDir childPathFS].
    destruct childIsDir; [|now apply (Hsame seen)].
    assert (Hc : connector (if (i =? total - 1)%nat then "    "
                            else "│   "))
      by (unfold connector; destruct (i =? total - 1)%nat; auto).
    replace (if (i =? total - 1)%nat then prefix +:+ "    "
             else prefix +:+ "│   ")
      with (prefix +:+ (if (i =? total - 1)%nat then "    " else "│   "))
      in H by (now destruct (i =? total - 1)%nat).
    destruct (EvalSymlinks os childPathFS) as [real|err].
    + destruct (bool_decide (real ∈ seen)); [now apply (Hsame seen)|].
      now apply (Hchild _ _ _ _ Hc H).
    + now apply (Hchild _ _ _ _ Hc H).
Qed.
End TreeText.

(** X18.  The lines of the tree.  Whatever [writeTree] writes for a
    directory is added behind what the writer holds and is made of whole
    lines: the prefix of the directory, one connector for every level
    below it, one branch marker, the name shown for an entry that the
    filters and the folding keep in a directory that was read, and a line
    feed.  Nothing else is written, an error included. *)
Theorem writeTree_lines (fuel : nat) (os : OS) (cfg : Config)
        (rootFS rootLogical : string) (hardFilters : list string) :
  forall (currentFS currentLogical prefix : string)
         (st : string * gset string) (res : option error)
         (st' : string * gset string),
    writeTree fuel os cfg rootFS rootLogical currentFS currentLogical prefix
              hardFilters st = Some (res, st') ->
    exists s, fst st' = fst st +:+ s
              /\ treeText os cfg rootLogical hardFilters prefix s.
Proof.
  induction fuel as [|f IH]; intros cfs cl pfx st res st' H;
    [discriminate H|].
  rewrite writeTree_unfold in H.
  destruct (ReadDir os cfs) as [entries|err] eqn:Hread.
  - cbv zeta in H.
    destruct (renderEntries _ _ _ _ _ _ _ _ _) as [st1|] eqn:Er;
      [|discriminate H].
    injection H as _ <-.
    eapply renderEntries_lines; [| |exact Er].
    + intros childFS childLogical newPrefix s0 s1 Hc.
      unfold writeTreeChild in Hc.
      destruct (writeTree f os cfg rootFS rootLogical childFS childLogical
                          newPrefix hardFilters s0) as [[r s2]|] eqn:Ew;
        [|discriminate Hc].
      injection Hc as <-. exact (IH _ _ _ _ _ _ Ew).
    + apply List.Forall_forall. intros e He. exists cfs, cl, entries, e.
      split; [exact Hread|]. split; [exact He | reflexivity].
  - injection H as _ <-. exists "".
    split; [now rewrite app_empty_r | apply treeText_nil].
Qed.

Lemma writeTree_lines_witness :
  exists s,
    fst ("├── a" +:+ nl +:+ "│   └── x.txt" +:+ nl +:+ "└── locked" +:+ nl,
         ({["/q/locked"; "/q/a"]} : gset string))
    = fst ("", (∅ : gset string)) +:+ s
    /\ treeText lockedOS config "/q" [] "" s.
Proof.
  apply (writeTree_lines 5 lockedOS config "/q" "/q" [] "/q" "/q" ""
           ("", ∅) None).
  vm_compute. reflexivity.
Defined.

(** ** The command line *)

Lemma multiValue_Set_app (m : list string) (s : string) :
  multiValue_Set m s = m ++ strings2.Fields s.
Proof.
  unfold multiValue_Set. destruct (String.eqb s "") eqn:E; [|reflexivity].
  apply String.eqb_eq in E as ->. now rewrite app_nil_r.
Qed.

(** An argument that does not begin with a dash is none of the options. *)
Lemma eqb_dash (arg lit : string) :
  strings.HasPrefix arg "-" = false -> strings.HasPrefix lit "-" = true ->
  String.eqb arg lit = false.
Proof. intros H1 H2. apply String.eqb_neq. intros ->. congruence. Qed.

Lemma prefix_dash (arg lit : string) :
  strings.HasPrefix arg "-" = false -> strings.HasPrefix lit "-" = true ->
  strings.HasPrefix arg lit = false.
Proof.
  intros H1 H2. destruct (strings.HasPrefix arg lit) eqn:E; [|reflexivity].
  apply HasPrefix_spec in E as [t ->]. apply HasPrefix_spec in H2 as [u ->].
  assert (Hx : strings.HasPrefix (("-" +:+ u) +:+ t) "-" = true)
    by (apply HasPrefix_spec; exists (u +:+ t); now rewrite app_assoc_s).
  congruence.
Qed.

Section CommandLine.
Variable loadPatternsFromFile : string -> result (list string).

(** Such an argument goes to [leftover]. *)
Lemma parseLoop_positional (arg : string) (rest : list string)
      (st : cli.Parsed) (leftover : list string) :
  strings.HasPrefix arg "-" = false ->
  parseLoop loadPatternsFromFile (arg :: rest) st leftover
  = parseLoop loadPatternsFromFile rest st (leftover ++ [arg]).
Proof.
  intros H. cbn [parseLoop].
  rewrite !(eqb_dash arg) by first [exact H | reflexivity].
  rewrite !(prefix_dash arg) by first [exact H | reflexivity].
  reflexivity.
Qed.

Lemma parseLoop_positionals (pos rest : list string) :
  Forall (fun a => strings.HasPrefix a "-" = false) pos ->
  forall st leftover,
    parseLoop loadPatternsFromFile (pos ++ rest) st leftover
    = parseLoop loadPatternsFromFile rest st (leftover ++ pos).
Proof.
  induction 1 as [|a pos Ha _ IH]; intros st leftover.
  - now rewrite app_nil_r.
  - cbn [app]. rewrite (parseLoop_positional a _ st leftover Ha), IH.
    now rewrite <- app_assoc.
Qed.
End CommandLine.

(** The loop of an option that takes values: it takes every argument up to
    the first one that begins with a dash. *)
Lemma consumeValues_run {R : Type} (set : cli.Parsed -> string -> cli.Parsed)
      (next : list string -> cli.Parsed -> R) (fail : cli.Parsed -> R)
      (vals rest : list string) :
  Forall (fun a => strings.HasPrefix a "-" = false) vals ->
  (rest = [] \/ exists a r, rest = a :: r /\ strings.HasPrefix a "-" = true) ->
  forall consumed st,
    consumeValues set next fail (vals ++ rest) consumed st
    = if (consumed + length vals =? 0)%nat then fail (fold_left set vals st)
      else next rest (fold_left set vals st).
Proof.
  intros Hv Hr. induction Hv as [|v vals Hd _ IH]; intros consumed st.
  - cbn [app length fold_left]. rewrite Nat.add_0_r.
    destruct Hr as [-> | [a [r [-> Ha]]]]; [reflexivity|].
    cbn [consumeValues]. now rewrite Ha.
  - cbn [app consumeValues length fold_left]. rewrite Hd. cbn [negb].
    rewrite IH. now rewrite Nat.add_succ_r.
Qed.

Lemma fold_setSoft (vals : list string) :
  forall st,
    fold_left cli.setSoft vals st
    = cli.withSoftFilters st
        (cli.softFilters st ++ concatLists (map strings2.Fields vals)).
Proof.
  induction vals as [|v vals IH]; intros st.
  - cbn [fold_left map concatLists]. rewrite app_nil_r. now destruct st.
  - cbn [fold_left map concatLists]. rewrite IH. unfold cli.setSoft.
    rewrite multiValue_Set_app. unfold cli.withSoftFilters.
    cbn [cli.softFilters cli.dirs cli.hardFilters cli.out cli.help
         cli.install cli.uninstall cli.noFold].
    now rewrite <- app_assoc.
Qed.

Lemma fold_setHard (vals : list string) :
  forall st,
    fold_left cli.setHard vals st
    = cli.withHardFilters st
        (cli.hardFilters st ++ concatLists (map strings2.Fields vals)).
Proof.
  induction vals as [|v vals IH]; intros st.
  - cbn [fold_left map concatLists]. rewrite app_nil_r. now destruct st.
  - cbn [fold_left map concatLists]. rewrite IH. unfold cli.setHard.
    rewrite multiValue_Set_app. unfold cli.withHardFilters.
    cbn [cli.softFilters cli.dirs cli.hardFilters cli.out cli.help
         cli.install cli.uninstall cli.noFold].
    now rewrite <- app_assoc.
Qed.

Lemma fold_setDir (vals : list string) :
  forall st,
    fold_left cli.setDir vals st
    = cli.withDirs st
        (cli.dirs st ++ List.filter (fun a => negb (String.eqb a "")) vals).
Proof.
  induction vals as [|v vals IH]; intros st.
  - cbn [fold_left List.filter]. rewrite app_nil_r. now destruct st.
  - cbn [fold_left List.filter]. rewrite IH.
    unfold cli.setDir, rawStringList_Set, cli.withDirs.
    destruct (String.eqb v ""); cbn [negb];
      cbn [cli.softFilters cli.dirs cli.hardFilters cli.out cli.help
           cli.install cli.uninstall cli.noFold];
      [reflexivity | now rewrite <- app_assoc].
Qed.

(** What the last loop of [parseCommandLine] does with [leftover]: the
    patterns go behind the soft filters, split at white space, and the other
    arguments that are not empty go behind the directories. *)
Lemma classifyLeftover_spec (leftover : list string) :
  forall st,
    classifyLeftover leftover st
    = cli.withDirs
        (cli.withSoftFilters st
           (cli.softFilters st
            ++ concatLists (map strings2.Fields
                                (List.filter patternArg leftover))))
        (cli.dirs st
         ++ List.filter (fun a => negb (String.eqb a ""))
              (List.filter (fun a => negb (patternArg a)) leftover)).
Proof.
  induction leftover as [|a l IH]; intros st.
  - cbn [classifyLeftover List.filter map concatLists].
    rewrite !app_nil_r. now destruct st.
  - cbn [classifyLeftover List.filter]. fold (patternArg a).
    destruct (patternArg a); cbn [negb]; rewrite IH.
    + unfold cli.setSoft. rewrite multiValue_Set_app.
      unfold cli.withSoftFilters, cli.withDirs.
      cbn [cli.softFilters cli.dirs cli.hardFilters cli.out cli.help
           cli.install cli.uninstall cli.noFold map concatLists].
      now rewrite <- app_assoc.
    + unfold cli.setDir, rawStringList_Set, cli.withSoftFilters, cli.withDirs.
      cbn [List.filter].
      destruct (String.eqb a ""); cbn [negb];
        cbn [cli.softFilters cli.dirs cli.hardFilters cli.out cli.help
             cli.install cli.uninstall cli.noFold];
        [reflexivity | now rewrite <- app_assoc].
Qed.

(** X23.  The options [--filter=] and [--Filter=].  The code removes one dash and
    then the text [filter=], which the long form does not begin with after
    one dash is gone: the long form keeps [-filter=] as a part of the
    pattern, and only the form with one dash gives the pattern as it was
    written. *)
Theorem long_filter_option_keeps_flag_text
        (loadPatternsFromFile : string -> result (list string))
        (pattern : string) :
  parseCommandLine loadPatternsFromFile ["--filter=" +:+ pattern]
  = (cli.withSoftFilters cli.start (strings2.Fields ("-filter=" +:+ pattern)),
     None)
  /\ parseCommandLine loadPatternsFromFile ["-filter=" +:+ pattern]
     = (cli.withSoftFilters cli.start (strings2.Fields pattern), None)
  /\ parseCommandLine loadPatternsFromFile ["--Filter=" +:+ pattern]
     = (cli.withHardFilters cli.start
          (strings2.Fields ("-Filter=" +:+ pattern)), None)
  /\ parseCommandLine loadPatternsFromFile ["-Filter=" +:+ pattern]
     = (cli.withHardFilters cli.start (strings2.Fields pattern), None).
Proof.
  repeat split; destruct pattern; reflexivity.
Qed.

Section CommandLineOptions.
Variable loadPatternsFromFile : string -> result (list string).

Lemma parseLoop_filter (flag : string) (rest : list string)
      (st : cli.Parsed) (leftover : list string) :
  In flag ["--filter"; "-filter"; "-f"] ->
  parseLoop loadPatternsFromFile (flag :: rest) st leftover
  = consumeValues cli.setSoft
      (fun l st' => parseLoop loadPatternsFromFile l st' leftover)
      (fun st' => (st', leftover, Some (ErrMsg "--filter 需要一个表达式")))
      rest 0 st.
Proof.
  intros [<- | [<- | [<- | []]]]; reflexivity.
Qed.

Lemma parseLoop_Filter (flag : string) (rest : list string)
      (st : cli.Parsed) (leftover : list string) :
  In flag ["--Filter"; "-Filter"; "-F"] ->
  parseLoop loadPatternsFromFile (flag :: rest) st leftover
  = consumeValues cli.setHard
      (fun l st' => parseLoop loadPatternsFromFile l st' leftover)
      (fun st' => (st', leftover, Some (ErrMsg "--Filter 需要一个表达式")))
      rest 0 st.
Proof.
  intros [<- | [<- | [<- | []]]]; reflexivity.
Qed.

Lemma parseLoop_dir (flag : string) (rest : list string)
      (st : cli.Parsed) (leftover : list string) :
  In flag ["--dir"; "-d"] ->
  parseLoop loadPatternsFromFile (flag :: rest) st leftover
  = consumeValues cli.setDir
      (fun l st' => parseLoop loadPatternsFromFile l st' leftover)
      (fun st' => (st', leftover, Some (ErrMsg "--dir 需要一个路径")))
      rest 0 st.
Proof.
  intros [<- | [<- | []]]; reflexivity.
Qed.

(** X24.  The options that take values.  [--filter], [--Filter] and
    [--dir], in
    each of their spellings, take every argument that follows up to the
    first one that begins with a dash, directories after a filter option
    included; without a value they end the parsing with an error.  The
    values of a filter option are split at white space, the values of
    [--dir] are not, and an empty value is dropped. *)
Theorem option_takes_every_value (vals rest : list string)
        (st : cli.Parsed) (leftover : list string) :
  Forall (fun a => strings.HasPrefix a "-" = false) vals ->
  (rest = [] \/ exists a r, rest = a :: r /\ strings.HasPrefix a "-" = true) ->
  (forall flag, In flag ["--filter"; "-filter"; "-f"] ->
     parseLoop loadPatternsFromFile (flag :: vals ++ rest) st leftover
     = match vals with
       | [] => (st, leftover, Some (ErrMsg "--filter 需要一个表达式"))
       | _ =>
           parseLoop loadPatternsFromFile rest
             (cli.withSoftFilters st
                (cli.softFilters st
                 ++ concatLists (map strings2.Fields vals)))
             leftover
       end)
  /\ (forall flag, In flag ["--Filter"; "-Filter"; "-F"] ->
        parseLoop loadPatternsFromFile (flag :: vals ++ rest) st leftover
        = match vals with
          | [] => (st, leftover, Some (ErrMsg "--Filter 需要一个表达式"))
          | _ =>
              parseLoop loadPatternsFromFile rest
                (cli.withHardFilters st
                   (cli.hardFilters st
                    ++ concatLists (map strings2.Fields vals)))
                leftover
          end)
  /\ (forall flag, In flag ["--dir"; "-d"] ->
        parseLoop loadPatternsFromFile (flag :: vals ++ rest) st leftover
        = match vals with
          | [] => (st, leftover, Some (ErrMsg "--dir 需要一个路径"))
          | _ =>
              parseLoop loadPatternsFromFile rest
                (cli.withDirs st
                   (cli.dirs st
                    ++ List.filter (fun a => negb (String.eqb a "")) vals))
                leftover
          end).
Proof.
  intros Hv Hr. repeat split; intros flag Hf.
  - rewrite (parseLoop_filter flag _ st leftover Hf).
    rewrite (consumeValues_run _ _ _ vals rest Hv Hr).
    destruct vals as [|v vals]; [reflexivity|].
    cbn [length Nat.add Nat.eqb]. now rewrite fold_setSoft.
  - rewrite (parseLoop_Filter flag _ st leftover Hf).
    rewrite (consumeValues_run _ _ _ vals rest Hv Hr).
    destruct vals as [|v vals]; [reflexivity|].
    cbn [length Nat.add Nat.eqb]. now rewrite fold_setHard.
  - rewrite (parseLoop_dir flag _ st leftover Hf).
    rewrite (consumeValues_run _ _ _ vals rest Hv Hr).
    destruct vals as [|v vals]; [reflexivity|].
    cbn [length Nat.add Nat.eqb]. now rewrite fold_setDir.
Qed.

(** X25.  Positional arguments.  An argument that does not begin with a dash and
    is not taken by an option waits in [leftover] until the whole command
    line is read.  So a pattern given by position stands behind every
    pattern of a filter option in the list of soft filters, also when it
    was written before the option; under [checkFilter], where the first
    rule that matches decides, it cannot overrule them. *)
Theorem positional_patterns_come_last (pos vals : list string) :
  Forall (fun a => strings.HasPrefix a "-" = false) pos ->
  Forall (fun a => strings.HasPrefix a "-" = false) vals ->
  parseCommandLine loadPatternsFromFile pos
  = (cli.withDirs
       (cli.withSoftFilters cli.start
          (concatLists (map strings2.Fields (List.filter patternArg pos))))
       (List.filter (fun a => negb (String.eqb a ""))
                    (List.filter (fun a => negb (patternArg a)) pos)),
     None)
  /\ (vals <> [] ->
      parseCommandLine loadPatternsFromFile (pos ++ "-f" :: vals)
      = (cli.withDirs
           (cli.withSoftFilters cli.start
              (concatLists (map strings2.Fields vals)
               ++ concatLists (map strings2.Fields
                                   (List.filter patternArg pos))))
           (List.filter (fun a => negb (String.eqb a ""))
                        (List.filter (fun a => negb (patternArg a)) pos)),
         None)).
Proof.
  intros Hp Hv. split.
  - unfold parseCommandLine.
    rewrite <- (app_nil_r pos) at 1.
    rewrite (parseLoop_positionals _ pos [] Hp). cbn [parseLoop app].
    cbn [cli.install cli.uninstall cli.start andb].
    now rewrite classifyLeftover_spec.
  - intros Hne. unfold parseCommandLine.
    rewrite (parseLoop_positionals _ pos _ Hp). cbn [app].
    rewrite (parseLoop_filter "-f" vals cli.start pos)
      by (simpl; auto).
    rewrite <- (app_nil_r vals) at 1.
    rewrite (consumeValues_run _ _ _ vals [] Hv (or_introl eq_refl)).
    destruct vals as [|v vals]; [congruence|].
    cbn [length Nat.add Nat.eqb parseLoop]. rewrite fold_setSoft.
    cbn [cli.install cli.uninstall cli.start cli.withSoftFilters andb].
    rewrite classifyLeftover_spec. reflexivity.
Qed.

(** X26.  The argument [--].  When something follows it, everything that
    follows is positional, also what begins with a dash.  As the last
    argument it is positional itself: it becomes a directory. *)
Theorem double_dash_ends_options (a : string) (rest : list string) :
  parseCommandLine loadPatternsFromFile ("--" :: a :: rest)
  = (cli.withDirs
       (cli.withSoftFilters cli.start
          (concatLists (map strings2.Fields
                            (List.filter patternArg (a :: rest)))))
       (List.filter (fun a => negb (String.eqb a ""))
                    (List.filter (fun a => negb (patternArg a))
                                 (a :: rest))),
     None)
  /\ parseCommandLine loadPatternsFromFile ["--"]
     = (cli.withDirs cli.start ["--"], None).
Proof.
  split; [|reflexivity].
  unfold parseCommandLine.
  change (parseLoop loadPatternsFromFile ("--" :: a :: rest) cli.start [])
    with (cli.start, [] ++ a :: rest, @None error).
  cbn [cli.install cli.uninstall cli.start andb app].
  now rewrite classifyLeftover_spec.
Qed.
End CommandLineOptions.

Lemma option_takes_every_value_witness :
  parseLoop noConfigFile ("--filter" :: ["!keep.png"; "src"; "test"] ++ [])
            cli.start []
  = (cli.withSoftFilters cli.start ["!keep.png"; "src"; "test"], [], None)
  /\ parseCommandLine noConfigFile
       ["--filter"; "*.png"; "--filter"; "!keep.png"; "src"; "test"]
     = (cli.withSoftFilters cli.start ["*.png"; "!keep.png"; "src"; "test"],
        None).
Proof.
  split; [|reflexivity].
  rewrite (proj1 (option_takes_every_value noConfigFile
                    ["!keep.png"; "src"; "test"] [] cli.start []
                    ltac:(repeat constructor) (or_introl eq_refl))
                 "--filter" (or_introl eq_refl)).
  reflexivity.
Defined.

Lemma positional_patterns_come_last_witness :
  parseCommandLine noConfigFile (["!keep.png"; "src"] ++ "-f" :: ["*.png"])
  = (cli.withDirs (cli.withSoftFilters cli.start ["*.png"; "!keep.png"])
                  ["src"], None)
  /\ fst (checkFilter "keep.png" ["*.png"; "!keep.png"]) = true.
Proof.
  split; [|reflexivity].
  rewrite (proj2 (positional_patterns_come_last noConfigFile
                    ["!keep.png"; "src"] ["*.png"]
                    ltac:(repeat constructor) ltac:(repeat constructor))
                 ltac:(discriminate)).
  reflexivity.
Defined.

(** ** The order of the content pass *)

Section WalkOrder.
Context {St : Type}.
Variable os : OS.
Variable fn : string -> string -> DirEntry -> St -> option error * St.
Hypothesis fn_mild : forall logicalRel fullPath d st,
    fst (fn logicalRel fullPath d st) = None
    \/ fst (fn logicalRel fullPath d st) = Some SkipDir.

Lemma walkEntries_order (n : node) (entries : list DirEntry) :
  forall stack seen st,
    exists new seen1,
      walkEntries os fn n entries stack seen st
      = (None, new ++ stack, seen1,
         fold_left (fun s e => snd (fn (entryLogical n e)
                                       (entryPhysical os n e) e s))
                   entries st)
      /\ sublist (map rel new) (rev (map (entryLogical n) entries)).
Proof.
  induction entries as [|e entries IH]; intros stack seen st.
  - exists [], seen. split; [reflexivity | constructor].
  - cbn [walkEntries fold_left map rev].
    change (entryPhysical os n e)
      with (snd (followSymlink os (filepath.Join (fsPath n) (Name e)) e)).
    destruct (followSymlink os _ e) as [childIsDir childFSPath].
    set (lr := if negb (String.eqb (rel n) "")
               then filepath.Join (rel n) (Name e) else Name e).
    change (entryLogical n e) with lr.
    cbn [snd].
    assert (Hskip : forall stack' seen' st',
               exists new seen1,
                 walkEntries os fn n entries stack' seen' st'
                 = (None, new ++ stack', seen1,
                    fold_left (fun s e0 => snd (fn (entryLogical n e0)
                                                  (entryPhysical os n e0)
                                                  e0 s))
                              entries st')
                 /\ sublist (map rel new)
                            (rev (map (entryLogical n) entries) ++ [lr])).
    { intros stack' seen' st'.
      destruct (IH stack' seen' st') as [new [seen1 [Hw Hs]]].
      exists new, seen1. split; [exact Hw|].
      now apply sublist_inserts_r. }
    assert (Hpush : forall seen' st',
               exists new seen1,
                 walkEntries os fn n entries
                   ({| fsPath := childFSPath; rel := lr |} :: stack)
                   seen' st'
                 = (None, new ++ stack, seen1,
                    fold_left (fun s e0 => snd (fn (entryLogical n e0)
                                                  (entryPhysical os n e0)
                                                  e0 s))
                              entries st')
                 /\ sublist (map rel new)
                            (rev (map (entryLogical n) entries) ++ [lr])).
    { intros seen' st'.
      destruct (IH ({| fsPath := childFSPath; rel := lr |} :: stack)
                   seen' st') as [new [seen1 [Hw Hs]]].
      exists (new ++ [{| fsPath := childFSPath; rel := lr |}]), seen1.
      split; [rewrite Hw; now rewrite <- app_assoc|].
      rewrite map_app. cbn [map rel]. now apply sublist_app. }
    destruct (fn_mild lr childFSPath e st) as [Hf | Hf];
      destruct (fn lr childFSPath e st) as [r st0]; simpl in Hf; subst r;
      cbn [snd isSkipDir].
    + destruct childIsDir; [|apply Hskip].
      destruct (EvalSymlinks os childFSPath) as [real|err]; [|apply Hpush].
      destruct (bool_decide (real ∈ seen)); [apply Hskip | apply Hpush].
    + apply Hskip.
Qed.
End WalkOrder.

(** X13.  The order of the content pass in one directory.  Every entry of the
    directory is given to the callback once, in the order of the listing and
    before any subdirectory is read, so the files that lie in a directory
    are serialized before the files below it.  The subdirectories that the
    walk will read are put on the stack in that order, so they are read in
    the reverse order of the listing: the last one first. *)
Theorem content_pass_order (os : OS) (cfg : Config) (absOut : string)
        (softFilters hardFilters : list string) (n : node)
        (entries : list DirEntry) (stack : list node) (seen : gset string)
        (writer : Sink) :
  let visit := contentVisit os cfg absOut softFilters hardFilters in
  exists new seen1,
    walkEntries os visit n entries stack seen writer
    = (None, new ++ stack, seen1,
       fold_left (fun w e => snd (visit (entryLogical n e)
                                        (entryPhysical os n e) e w))
                 entries writer)
    /\ sublist (map rel new) (rev (map (entryLogical n) entries)).
Proof.
  intros visit. apply walkEntries_order.
  intros. apply contentVisit_mild.
Qed.

(** In [pairOS] the tree lists [a] before [b] and the file [z.txt] last; the
    content blocks come in the order [z.txt], [b/y.txt], [a/x.txt]. *)
Example pairOS_document :
  option_map (fun r => doc (snd r))
    (main 8 pairOS config ["/t"] [] [] "/out/t_context.md")
  = Some ("# Project Structure" +:+ nl +:+ nl +:+ "```text" +:+ nl
          +:+ "t/" +:+ nl
          +:+ "├── a" +:+ nl
          +:+ "│   └── x.txt" +:+ nl
          +:+ "├── b" +:+ nl
          +:+ "│   └── y.txt" +:+ nl
          +:+ "└── z.txt" +:+ nl +:+ nl
          +:+ "```" +:+ nl +:+ nl +:+ "---" +:+ nl +:+ nl
          +:+ "# File Contents" +:+ nl +:+ nl
          +:+ contentBlock "/t/z.txt" ("Z" +:+ nl)
          +:+ contentBlock "/t/b/y.txt" ("Y" +:+ nl)
          +:+ contentBlock "/t/a/x.txt" ("X" +:+ nl)).
Proof. vm_compute. reflexivity. Qed.

(** ** The passes do not read what is already written *)

Lemma sinkApp_empty (w : Sink) : sinkApp w emptySink = w.
Proof.
  destruct w as [a b c]. unfold sinkApp. cbn [doc stdout stderr emptySink].
  now rewrite app_empty_r, !app_nil_r.
Qed.


Lemma sinkApp_Printf (w d : Sink) (s : string) :
  Printf (sinkApp w d) s = sinkApp w (Printf d s).
Proof.
  unfold sinkApp, Printf. cbn [doc stdout stderr]. now rewrite <- app_assoc.
Qed.


Lemma sinkApp_WriteString (w d : Sink) (s : string) :
  WriteString (sinkApp w d) s = sinkApp w (WriteString d s).
Proof.
  unfold sinkApp, WriteString. cbn [doc stdout stderr].
  now rewrite app_assoc_s.
Qed.

Lemma processFile_frame (os : OS) (cfg : Config) (path : string)
      (w d : Sink) :
  processFile os cfg path (sinkApp w d)
  = (fst (processFile os cfg path d),
     sinkApp w (snd (processFile os cfg path d))).
Proof.
  unfold processFile.
  destruct (Stat os path) as [info|err]; [|reflexivity].
  destruct (infoIsDir info); [cbn [fst snd]; now rewrite sinkApp_Printf|].
  destruct (MaxFileSize cfg <? infoSize info)%Z;
    [cbn [fst snd]; now rewrite sinkApp_Printf|].
  destruct (ReadFile os path) as [content|err]; [|reflexivity].
  destruct (negb _ && isBinary content);
    [cbn [fst snd]; now rewrite sinkApp_Printf|].
  destruct (convertToUTF8 os content) as [[u enc] [e|]].
  - cbn [fst snd]. now rewrite !sinkApp_Printf.
  - destruct (negb (String.eqb enc "UTF-8"));
      destruct ((0 <? String.length u)%nat
                && negb (lastByteIs (ascii_of_nat 10) u));
      cbn [fst snd];
      now rewrite ?sinkApp_Printf, ?sinkApp_WriteString.
Qed.

Lemma contentVisit_frame (os : OS) (cfg : Config) (absOut : string)
      (softFilters hardFilters : list string) (logicalRel fullPath : string)
      (e : DirEntry) (w d : Sink) :
  contentVisit os cfg absOut softFilters hardFilters logicalRel fullPath e
               (sinkApp w d)
  = (fst (contentVisit os cfg absOut softFilters hardFilters logicalRel
                       fullPath e d),
     sinkApp w (snd (contentVisit os cfg absOut softFilters hardFilters
                                  logicalRel fullPath e d))).
Proof.
  unfold contentVisit.
  destruct (String.eqb fullPath absOut); [reflexivity|].
  destruct (isJunk cfg (Name e)); [reflexivity|].
  destruct (negb _ && fst _); [reflexivity|].
  destruct (checkFilter _ softFilters) as [[|] rule].
  - destruct (IsDir e); cbn [fst snd]; now rewrite sinkApp_Printf.
  - destruct (IsDir e); [reflexivity|].
    destruct (isAsset cfg (Name e)); [reflexivity|].
    apply processFile_frame.
Qed.

Section WalkFrame.
Variable os : OS.
Variable fn : string -> string -> DirEntry -> Sink -> option error * Sink.
Hypothesis fn_frame : forall logicalRel fullPath e w d,
    fn logicalRel fullPath e (sinkApp w d)
    = (fst (fn logicalRel fullPath e d),
       sinkApp w (snd (fn logicalRel fullPath e d))).

Lemma walkEntries_frame (n : node) (entries : list DirEntry) :
  forall stack seen w d,
    walkEntries os fn n entries stack seen (sinkApp w d)
    = let '(r, stack1, seen1, d1) :=
        walkEntries os fn n entries stack seen d in
      (r, stack1, seen1, sinkApp w d1).
Proof.
  induction entries as [|e entries IH]; intros stack seen w d;
    [reflexivity|].
  cbn [walkEntries].
  destruct (followSymlink os _ e) as [childIsDir childFSPath].
  rewrite fn_frame.
  destruct (fn _ childFSPath e d) as [[err|] d0]; cbn [fst snd].
  - destruct (isSkipDir err); [apply IH | reflexivity].
  - destruct childIsDir; [|apply IH].
    destruct (EvalSymlinks os childFSPath) as [real|err]; [|apply IH].
    destruct (bool_decide (real ∈ seen)); apply IH.
Qed.

Lemma walkLoop_frame (fuel : nat) :
  forall stack seen w d,
    walkLoop os fn fuel stack seen (sinkApp w d)
    = match walkLoop os fn fuel stack seen d with
      | Some (r, d1) => Some (r, sinkApp w d1)
      | None => None
      end.
Proof.
  induction fuel as [|f IH]; intros stack seen w d;
    destruct stack as [|n stack]; try reflexivity.
  cbn [walkLoop].
  destruct (ReadDir os (fsPath n)) as [entries|err]; [|reflexivity].
  rewrite walkEntries_frame.
  destruct (walkEntries os fn n entries stack seen d)
    as [[[[err|] stack1] seen1] d1]; [reflexivity | apply IH].
Qed.
End WalkFrame.


Section TreeFrame.
Variable os : OS.
Variable recur : string -> string -> string -> string * gset string
                 -> option (string * gset string).
Hypothesis recur_frame : forall childFS childLogical newPrefix w t seen,
    recur childFS childLogical newPrefix (w +:+ t, seen)
    = match recur childFS childLogical newPrefix (t, seen) with
      | Some (t1, seen1) => Some (w +:+ t1, seen1)
      | None => None
      end.

End TreeFrame.





(** ** The error of the content pass *)

(** The walk of a root does not read what the writer holds: its result is
    the result of the walk that starts with nothing written. *)
Lemma walk_root_frame (fuel : nat) (os : OS) (cfg : Config) (absOut : string)
      (softFilters hardFilters : list string) (absDir : string)
      (writer : Sink) :
  walkFollowSymlinks os (contentVisit os cfg absOut softFilters hardFilters)
                     fuel absDir writer
  = match walkFollowSymlinks os
            (contentVisit os cfg absOut softFilters hardFilters)
            fuel absDir emptySink with
    | Some (r, d) => Some (r, sinkApp writer d)
    | None => None
    end.
Proof.
  unfold walkFollowSymlinks.
  rewrite <- (sinkApp_empty writer) at 1.
  apply (walkLoop_frame os _
           (contentVisit_frame os cfg absOut softFilters hardFilters)).
Qed.

(** One turn of the second loop of [processDirs]: the root that fails
    overwrites [firstErr], the root that succeeds leaves it as it is. *)
Lemma contentPass_step (fuel : nat) (os : OS) (cfg : Config) (absOut : string)
      (softFilters hardFilters : list string) (dir : string)
      (rest : list string) (firstErr : option error) (writer : Sink)
      (r : option error) :
  rootError fuel os cfg absOut softFilters hardFilters dir = Some r ->
  exists writer1,
    contentPass fuel os cfg absOut (dir :: rest) softFilters hardFilters
                firstErr writer
    = contentPass fuel os cfg absOut rest softFilters hardFilters
                  (match r with Some err => Some err | None => firstErr end)
                  writer1.
Proof.
  unfold rootError. intros H. cbn [contentPass].
  destruct (Abs os dir) as [absDir|err].
  - rewrite walk_root_frame.
    destruct (walkFollowSymlinks os _ fuel absDir emptySink) as [[r' d]|];
      [|discriminate H].
    injection H as ->. destruct r as [err|]; eauto.
  - injection H as <-. eauto.
Qed.

(** X21.  The error of [processDirs].  When the walk of every root ends
    within the fuel, the content pass returns, and [firstErr] is
    overwritten at every failure and at no success: the error returned is
    the one of the last root that failed, whatever the roots after it that
    succeed, and it is the starting value when no root fails.  The result
    of the walk of a root does not depend on the roots before it. *)
Theorem contentPass_returns_last_error (fuel : nat) (os : OS) (cfg : Config)
        (absOut : string) (softFilters hardFilters : list string)
        (dirs : list string) (firstErr : option error) (writer : Sink) :
  Forall (fun dir => rootError fuel os cfg absOut softFilters hardFilters dir
                     <> None) dirs ->
  exists res writer',
    contentPass fuel os cfg absOut dirs softFilters hardFilters firstErr
                writer = Some (res, writer')
    /\ (Forall (fun dir => rootError fuel os cfg absOut softFilters
                                     hardFilters dir = Some None) dirs ->
        res = firstErr)
    /\ (forall before dir after err,
          dirs = before ++ dir :: after ->
          rootError fuel os cfg absOut softFilters hardFilters dir
          = Some (Some err) ->
          Forall (fun d => rootError fuel os cfg absOut softFilters
                                     hardFilters d = Some None) after ->
          res = Some err).
Proof.
  intros Hall. revert firstErr writer.
  induction Hall as [|d ds Hd _ IH]; intros firstErr writer.
  - exists firstErr, writer. split; [reflexivity|]. split; [reflexivity|].
    intros before dir after err H. now destruct before.
  - destruct (rootError fuel os cfg absOut softFilters hardFilters d)
      as [r|] eqn:Er; [|congruence].
    destruct (contentPass_step fuel os cfg absOut softFilters hardFilters d ds
                firstErr writer r Er) as [w1 Hstep].
    destruct (IH (match r with Some err => Some err | None => firstErr end)
                 w1) as [res [writer' [Hres [Hnone Hlast]]]].
    exists res, writer'. split; [now rewrite Hstep|]. split.
    + intros Hok. inversion Hok as [|? ? H1 H2]; subst.
      rewrite Er in H1. injection H1 as ->. exact (Hnone H2).
    + intros before dir after err Hsplit Hfail Hafter.
      destruct before as [|b before]; cbn [app] in Hsplit;
        injection Hsplit as -> ->.
      * rewrite Er in Hfail. injection Hfail as ->. exact (Hnone Hafter).
      * exact (Hlast before dir after err eq_refl Hfail Hafter).
Qed.

Lemma contentPass_returns_last_error_witness :
  (exists writer',
      contentPass 8 deniedOS config "/out.md" ["/denied"; "/ok"] [] []
                  None emptySink
      = Some (Some (ErrMsg "permission denied"), writer')
      /\ doc writer' = contentBlock "/ok/a.txt" ("A" +:+ nl))
  /\ (exists writer',
         contentPass 8 deniedOS config "/out.md" ["/denied"; "/ok"; "/bad"]
                     [] [] None emptySink
         = Some (Some (ErrMsg "no such file or directory"), writer'))
  /\ (exists writer',
         contentPass 8 deniedOS config "/out.md" ["/ok"] [] []
                     (Some (ErrMsg "before")) emptySink
         = Some (Some (ErrMsg "before"), writer')).
Proof.
  split; [|split].
  - destruct (contentPass_returns_last_error 8 deniedOS config "/out.md" []
                [] ["/denied"; "/ok"] None emptySink)
      as [res [writer' [Hres [_ Hlast]]]].
    { repeat constructor; vm_compute; discriminate. }
    exists writer'.
    rewrite (Hlast [] "/denied" ["/ok"] (ErrMsg "permission denied") eq_refl
               eq_refl ltac:(repeat constructor)) in Hres.
    split; [exact Hres|].
    vm_compute in Hres. now injection Hres as <-.
  - destruct (contentPass_returns_last_error 8 deniedOS config "/out.md" []
                [] ["/denied"; "/ok"; "/bad"] None emptySink)
      as [res [writer' [Hres [_ Hlast]]]].
    { repeat constructor; vm_compute; discriminate. }
    exists writer'.
    rewrite (Hlast ["/denied"; "/ok"] "/bad" []
               (ErrMsg "no such file or directory") eq_refl eq_refl
               ltac:(constructor)) in Hres.
    exact Hres.
  - destruct (contentPass_returns_last_error 8 deniedOS config "/out.md" []
                [] ["/ok"] (Some (ErrMsg "before")) emptySink)
      as [res [writer' [Hres [Hnone _]]]].
    { repeat constructor; vm_compute; discriminate. }
    exists writer'. rewrite (Hnone ltac:(repeat constructor)) in Hres.
    exact Hres.
Defined.
